(** * The websocket client hub and transaction dispatcher of r3

    A shallow embedding of package [websocket]: the per-message
    dispatcher [clientType.handleTransaction], the read-side handler that
    writes its result back, the hub loop [hubType.start] with its
    [removeClient] closure, the rendering of unrequested messages
    [prepareUnrequested] and the global request limiter [hubRequestLimit].

    Go pointers to clients are addresses ([ptr]); calls into the other
    packages of the server (bruteforce, request, handler, cache, cluster,
    log) and into encoding/json are section variables, and every such call
    that has an effect is recorded in a chronological list of events. *)

From stdpp Require Import base numbers strings pretty list sorting gmap fin_maps.

Local Open Scope string_scope.
Local Open Scope Z_scope.
Local Open Scope list_scope.

(** [[]byte] and [json.RawMessage] values. *)
Definition bytes := string.

(** [*clientType]: clients are shared by address between the hub, the
    reader and the dispatcher. *)
Definition ptr := positive.

(** ** Data model *)

(** Modelled from the spec: package r3/types is not part of the sources;
    the envelopes carry the fields that package [websocket] reads and
    writes, as the wire format of the spec names them.  A nil slice and an
    empty slice are both the empty list. *)
Record Request := {
  Ressource : string;
  Action : string;
  Payload : bytes
}.

(** Modelled from the spec: [types.RequestTransaction], a transaction
    number and the requests in their order. *)
Record RequestTransaction := {
  Req_TransactionNr : Z;
  Requests : list Request
}.

(** Modelled from the spec: [types.Response], of which the dispatcher sets
    the payload. *)
Record Response := {
  Res_Payload : bytes
}.

(** Modelled from the spec: [types.ResponseTransaction], the transaction
    number, the transaction-level error and the responses in their
    order. *)
Record ResponseTransaction := {
  Res_TransactionNr : Z;
  Res_Error : string;
  Responses : list Response
}.

(** The zero value of [var resTrans types.ResponseTransaction]. *)
Definition resTrans_zero : ResponseTransaction :=
  {| Res_TransactionNr := 0; Res_Error := ""; Responses := [] |}.

(** The fields of [clientType] that carry data.  [ctx] is the handle of the
    client's request context; [ctxCancel], [write_mx] and [ws] only appear
    through the events on them. *)
Record clientType := {
  address : string;
  admin : bool;
  ctx : positive;
  fixedToken : bool;
  loginId : Z;
  noAuth : bool
}.

(** The client that [Handler] creates for a freshly upgraded connection. *)
Definition newClient (host : string) (c : positive) : clientType :=
  {| address := host; admin := false; ctx := c; fixedToken := false;
     loginId := 0; noAuth := false |}.

Inductive logLevel := LogInfo | LogWarning | LogError.

(** What a run of the dispatcher (and of the write that follows it) does to
    the world outside the client. *)
Inductive event :=
| EvAcquire                                   (* hubRequestLimit <- true *)
| EvRelease                                   (* <-hubRequestLimit *)
| EvLog (l : logLevel) (msg : string)
| EvClientDel (client : ptr)                  (* hub.clientDel <- client *)
| EvCheckByHost (host : string)
| EvBadAttemptByHost (host : string)
| EvExecTransaction (c : positive) (reqTrans : RequestTransaction)
| EvLoginAuthToken (payload : bytes)
| EvLoginAuthTokenFixed (payload : bytes)
| EvLoginAuthUser (payload : bytes)
| EvWsWrite (client : ptr) (message : bytes). (* ws.WriteMessage(TextMessage, _) *)

(** How a call of the dispatcher ends. *)
Inductive outcome :=
| Returned (message : bytes)
| Panicked (why : string).

(** Where the body of the dispatcher stands before its last statement:
    it has already left through one of its early returns, or it reaches
    the final marshalling with a response envelope. *)
Inductive stage :=
| Left (o : outcome)
| Marshal (resTrans : ResponseTransaction).

Record run (A : Type) := mkRun {
  value : A;
  client_after : clientType;
  effects : list event
}.
Arguments mkRun {A} _ _ _.
Arguments value {A} _.
Arguments client_after {A} _.
Arguments effects {A} _.

(** The literal [[]byte("{}")]. *)
Definition emptyObject : bytes := "{}".

(** ** The collaborators of the package

    The other packages of the server and the standard packages that
    [websocket] calls, as an interface. *)
Class Collaborators := {
  (** Go [error] values, with [err.Error()], and the non-nil values of
      [interface{}] that the authentication flows return. *)
  goerror : Type;
  payloadT : Type;
  err_Error : goerror → string;

  (** encoding/json: [json.Unmarshal] into a request envelope, and
      [json.Marshal] of a payload and of a response envelope. *)
  json_Unmarshal : bytes → goerror + RequestTransaction;
  json_Marshal_value : payloadT → goerror + bytes;
  json_Marshal_resTrans : ResponseTransaction → goerror + bytes;

  (** r3/bruteforce *)
  CheckByHost : string → bool;

  (** r3/request: the authentication flows get the payload and pointers to
      the client's fields; they return a payload ([None] is the nil
      interface), an error ([None] is nil) and the fields as they left
      them. *)
  ExecTransaction :
    positive → Z → bool → bool → RequestTransaction → ResponseTransaction →
    ResponseTransaction;
  LoginAuthToken :
    bytes → Z → bool → bool → option payloadT * option goerror * (Z * bool * bool);
  LoginAuthTokenFixed :
    bytes → Z → bool → option payloadT * option goerror * (Z * bool);
  LoginAuthUser :
    bytes → Z → bool → bool → option payloadT * option goerror * (Z * bool * bool);

  (** r3/handler *)
  CheckForLicenseErrCode : goerror → bool;
  ErrGeneral : string;

  (** r3/cache: what the schema-loaded event sends,
      [cache.GetModuleIdMapMeta()] and [cache.GetPresetRecordIds()]. *)
  ModuleIdMapMeta : Type;
  PresetRecordIds : Type;
  GetModuleIdMapMeta : ModuleIdMapMeta;
  GetPresetRecordIds : PresetRecordIds
}.

(** ** The dispatcher *)

Section Dispatcher.

Context `{Collaborators}.

(** [json.Marshal] of an [interface{}]: the nil interface is the JSON
    literal null. *)
Definition json_Marshal (v : option payloadT) : goerror + bytes :=
  match v with
  | None => inr "null"
  | Some x => json_Marshal_value x
  end.

(** [len(reqTrans.Requests) == 1 && reqTrans.Requests[0].Ressource == "auth"] *)
Definition authRequest (reqTrans : RequestTransaction) : bool :=
  (length (Requests reqTrans) =? 1)%nat &&
  match Requests reqTrans !! 0%nat with
  | Some req => String.eqb (Ressource req) "auth"
  | None => false
  end.

(** The [switch req.Action] of the authentication branch: the flow that
    is called, if any, with what it returns and the client as it leaves
    it. *)
Definition authSwitch (req : Request) (client : clientType)
  : option payloadT * option goerror * clientType * list event :=
  if String.eqb (Action req) "token" then
    let '(resPayload, err, (l, a, n)) :=
      LoginAuthToken (Payload req) (loginId client) (admin client) (noAuth client) in
    (resPayload, err,
     {| address := address client; admin := a; ctx := ctx client;
        fixedToken := fixedToken client; loginId := l; noAuth := n |},
     [EvLoginAuthToken (Payload req)])
  else if String.eqb (Action req) "tokenFixed" then
    let '(resPayload, err, (l, f)) :=
      LoginAuthTokenFixed (Payload req) (loginId client) (fixedToken client) in
    (resPayload, err,
     {| address := address client; admin := admin client; ctx := ctx client;
        fixedToken := f; loginId := l; noAuth := noAuth client |},
     [EvLoginAuthTokenFixed (Payload req)])
  else if String.eqb (Action req) "user" then
    let '(resPayload, err, (l, a, n)) :=
      LoginAuthUser (Payload req) (loginId client) (admin client) (noAuth client) in
    (resPayload, err,
     {| address := address client; admin := a; ctx := ctx client;
        fixedToken := fixedToken client; loginId := l; noAuth := n |},
     [EvLoginAuthUser (Payload req)])
  else
    (None, None, client, []).

Definition setError (resTrans : ResponseTransaction) (e : string) : ResponseTransaction :=
  {| Res_TransactionNr := Res_TransactionNr resTrans; Res_Error := e;
     Responses := Responses resTrans |}.

(** The [if err != nil { ... } else { ... }] after the switch. *)
Definition authResult (client : clientType) (resTrans : ResponseTransaction)
    (resPayload : option payloadT) (err : option goerror)
  : ResponseTransaction * list event :=
  match err with
  | Some e =>
      (setError resTrans
         (if CheckForLicenseErrCode e then err_Error e else "AUTH_ERROR"),
       [EvLog LogWarning "failed to authenticate user";
        EvBadAttemptByHost (address client)])
  | None =>
      match json_Marshal resPayload with
      | inl _ => (setError resTrans ErrGeneral, [])
      | inr payloadJson =>
          ({| Res_TransactionNr := Res_TransactionNr resTrans;
              Res_Error := Res_Error resTrans;
              Responses := Responses resTrans ++ [{| Res_Payload := payloadJson |}] |},
           [])
      end
  end.

(** [resTrans] after [resTrans.TransactionNr = reqTrans.TransactionNr]: the
    transaction number of the request and nothing else. *)
Definition resTrans_for (reqTrans : RequestTransaction) : ResponseTransaction :=
  {| Res_TransactionNr := Req_TransactionNr reqTrans; Res_Error := ""; Responses := [] |}.

(** The body of [handleTransaction] from the unmarshalling down to, but
    not including, the final marshalling. *)
Definition dispatch (self : ptr) (client : clientType) (reqTransJson : bytes)
  : run stage :=
  match json_Unmarshal reqTransJson with
  | inl _ =>
      mkRun (Left (Returned emptyObject)) client
        [EvLog LogError "failed to unmarshal transaction"]
  | inr reqTrans =>
      let started := EvLog LogInfo "TRANSACTION started" in
      let resTrans :=
        {| Res_TransactionNr := Req_TransactionNr reqTrans;
           Res_Error := Res_Error resTrans_zero;
           Responses := Responses resTrans_zero |} in
      if negb (authRequest reqTrans) then
        if fixedToken client then
          mkRun (Left (Returned emptyObject)) client
            [started; EvLog LogWarning "blocked client request"]
        else
          mkRun
            (Marshal (ExecTransaction (ctx client) (loginId client) (admin client)
                        (noAuth client) reqTrans resTrans))
            client
            [started; EvExecTransaction (ctx client) reqTrans]
      else
        match Requests reqTrans !! 0%nat with
        | None => mkRun (Left (Panicked "index out of range")) client [started]
        | Some req =>
            let resTrans :=
              {| Res_TransactionNr := Res_TransactionNr resTrans;
                 Res_Error := Res_Error resTrans;
                 Responses := [] |} in
            if CheckByHost (address client) then
              mkRun (Left (Returned emptyObject)) client
                [started; EvCheckByHost (address client); EvClientDel self]
            else
              let '(resPayload, err, client1, called) := authSwitch req client in
              let '(resTrans1, accounted) := authResult client1 resTrans resPayload err in
              mkRun (Marshal resTrans1) client1
                ([started; EvCheckByHost (address client)] ++ called ++ accounted ++
                 (if String.eqb (Res_Error resTrans1) ""
                  then [EvLog LogInfo "authenticated client"] else []))
        end
  end.

(** The last statement: marshal the response envelope. *)
Definition marshalResponse (resTrans : ResponseTransaction) : outcome * list event :=
  match json_Marshal_resTrans resTrans with
  | inl _ => (Returned emptyObject, [EvLog LogError "cannot marshal responses"])
  | inr resTransJson => (Returned resTransJson, [])
  end.

(** [clientType.handleTransaction]: a limiter slot is taken first and
    given back by the deferred function, however the body ends. *)
Definition handleTransaction (self : ptr) (client : clientType) (reqTransJson : bytes)
  : run outcome :=
  let body := dispatch self client reqTransJson in
  let '(o, tail) :=
    match value body with
    | Left o => (o, [])
    | Marshal resTrans => marshalResponse resTrans
    end in
  mkRun o (client_after body) ([EvAcquire] ++ effects body ++ tail ++ [EvRelease]).

(** [ws.WriteMessage] of a text message: whether it succeeds is decided
    by the transport. *)
Variable ws_WriteMessage : ptr → bytes → bool.

(** [clientType.write]. *)
Definition write (self : ptr) (message : bytes) : list event :=
  if ws_WriteMessage self message
  then [EvWsWrite self message]
  else [EvWsWrite self message; EvClientDel self].

(** The function that [clientType.read] starts for every message it
    receives: [client.write(client.handleTransaction(message))]. *)
Definition serve (self : ptr) (client : clientType) (message : bytes) : run outcome :=
  let r := handleTransaction self client message in
  match value r with
  | Returned response =>
      mkRun (value r) (client_after r) (effects r ++ write self response)
  | Panicked _ => r
  end.

End Dispatcher.

(** A message carries the transaction number [n] when it is the
    marshalling of a response envelope with that number. *)
Definition carriesTransactionNr `{Collaborators} (message : bytes) (n : Z) : Prop :=
  ∃ resTrans : ResponseTransaction,
    Res_TransactionNr resTrans = n ∧ json_Marshal_resTrans resTrans = inr message.

(** ** The hub *)

(** [uuid.UUID], with [uuid.Nil] the all-zero identifier. *)
Definition uuid := N.
Definition uuid_Nil : uuid := 0%N.

(** Modelled from the spec: the type of the events on
    [cluster.WebsocketClientEvents] is declared in a package that is not
    part of the sources; it has the fields that [hubType.start] reads. *)
Record ClusterEvent := {
  LoginId : Z;
  Kick : bool;
  KickNonAdmin : bool;
  CollectionChanged : uuid;
  ConfigChanged : bool;
  FilesCopiedAttributeId : uuid;
  FilesCopiedFileIds : list uuid;
  FilesCopiedRecordId : Z;
  FileRequestedAttributeId : uuid;
  FileRequestedChooseApp : bool;
  FileRequestedFileId : uuid;
  FileRequestedFileHash : string;
  FileRequestedFileName : string;
  Renew : bool;
  SchemaLoading : bool;
  SchemaLoaded : bool
}.

(** Modelled from the spec: [types.UnreqResponse], with the fields that
    [prepareUnrequested] sets. *)
Record UnreqResponse := {
  Unreq_Payload : bytes;
  Unreq_Ressource : string;
  Unreq_Result : string
}.

(** Modelled from the spec: [types.UnreqResponseTransaction]. *)
Record UnreqResponseTransaction := {
  Unreq_TransactionNr : Z;
  Unreq_Responses : list UnreqResponse
}.

(** [hubType]: the set of live clients, a Go map from client pointers to
    [bool]. *)
Record hubType := {
  clients : gmap ptr bool
}.

(** The hub as the package initialises it. *)
Definition hub : hubType := {| clients := ∅ |}.

(** What the hub loop does to the world outside its map. *)
Inductive hubEffect :=
| HubLog (l : logLevel) (msg : string)
| HubCloseMessage (client : ptr)        (* ws.WriteMessage(CloseMessage, []) *)
| HubWsClose (client : ptr)             (* ws.Close() *)
| HubCtxCancel (client : ptr)           (* ctxCancel() *)
| HubSetWebsocketClientCount (n : nat)  (* cluster.SetWebsocketClientCount *)
| HubPrepareUnrequested (ressource : string)
| HubGoWrite (client : ptr) (message : bytes). (* go client.write(jsonMsg) *)

(** What arrives on the three channels of the hub's [select]. *)
Inductive hubMsg :=
| ClientAdd (client : ptr)
| ClientDel (client : ptr)
| WebsocketClientEvent (event : ClusterEvent).

(** The closure [removeClient] of [hubType.start]. *)
Definition removeClient (h : hubType) (client : ptr) : hubType * list hubEffect :=
  match clients h !! client with
  | Some _ =>
      let h' := {| clients := delete client (clients h) |} in
      (h', [HubLog LogInfo "disconnecting client";
            HubCloseMessage client; HubWsClose client; HubCtxCancel client;
            HubSetWebsocketClientCount (size (clients h'))])
  | None => (h, [])
  end.

Section Hub.

Context `{Collaborators}.

(** The [interface{}] payloads that the hub hands to
    [prepareUnrequested]. *)
Inductive unreqPayload :=
| PayNil
| PayUuid (id : uuid)
| PayFilesCopied (AttributeId : uuid) (FileIds : list uuid) (RecordId : Z)
| PayFileRequested (AttributeId : uuid) (ChooseApp : bool) (FileId : uuid)
    (FileHash FileName : string)
| PaySchemaLoaded (ModuleIdMapData : ModuleIdMapMeta)
    (PresetIdMapRecordId : PresetRecordIds).

(** encoding/json *)
Variable json_Marshal_payload : unreqPayload → goerror + bytes.
Variable json_Marshal_unreq : UnreqResponseTransaction → goerror + bytes.

(** [prepareUnrequested]; the byte slice returned with an error is
    empty. *)
Definition prepareUnrequested (ressource : string) (payload : unreqPayload)
  : bytes * option goerror :=
  match json_Marshal_payload payload with
  | inl err => ("", Some err)
  | inr payloadJson =>
      let resTrans :=
        {| Unreq_TransactionNr := 0;
           Unreq_Responses :=
             [{| Unreq_Payload := payloadJson; Unreq_Ressource := ressource;
                 Unreq_Result := "OK" |}] |} in
      match json_Marshal_unreq resTrans with
      | inl err => ("", Some err)
      | inr transJson => (transJson, None)
      end
  end.

(** [jsonMsg], [err] and the calls of [prepareUnrequested] so far. *)
Definition rendering : Type := bytes * option goerror * list hubEffect.

(** One [if cond { jsonMsg, err = prepareUnrequested(...) }]. *)
Definition renderIf (cond : bool) (ressource : string) (payload : unreqPayload)
    (r : rendering) : rendering :=
  if cond then
    ((prepareUnrequested ressource payload).1, (prepareUnrequested ressource payload).2,
     r.2 ++ [HubPrepareUnrequested ressource])
  else r.

(** The block [if !kickEvent { ... }] up to the check of [err]. *)
Definition render (event : ClusterEvent) : rendering :=
  let r : rendering := ("", None, []) in
  let r := renderIf (negb (N.eqb (CollectionChanged event) uuid_Nil))
             "collection_changed" (PayUuid (CollectionChanged event)) r in
  let r := renderIf (ConfigChanged event) "config_changed" PayNil r in
  let r := renderIf (negb (N.eqb (FilesCopiedAttributeId event) uuid_Nil))
             "files_copied"
             (PayFilesCopied (FilesCopiedAttributeId event) (FilesCopiedFileIds event)
                (FilesCopiedRecordId event)) r in
  let r := renderIf (negb (N.eqb (FileRequestedAttributeId event) uuid_Nil))
             "fileRequested"
             (PayFileRequested (FileRequestedAttributeId event)
                (FileRequestedChooseApp event) (FileRequestedFileId event)
                (FileRequestedFileHash event) (FileRequestedFileName event)) r in
  let r := renderIf (Renew event) "reauthorized" PayNil r in
  let r := renderIf (SchemaLoading event) "schema_loading" PayNil r in
  let r := renderIf (SchemaLoaded event) "schema_loaded"
             (PaySchemaLoaded GetModuleIdMapMeta GetPresetRecordIds) r in
  r.

(** The notifications that an event carries, in the order in which the
    hub looks for them, each with the resource and the payload of its
    message. *)
Definition notifications (event : ClusterEvent) : list (string * unreqPayload) :=
  (if negb (N.eqb (CollectionChanged event) uuid_Nil)
   then [("collection_changed", PayUuid (CollectionChanged event))] else [])
  ++ (if ConfigChanged event then [("config_changed", PayNil)] else [])
  ++ (if negb (N.eqb (FilesCopiedAttributeId event) uuid_Nil)
      then [("files_copied",
             PayFilesCopied (FilesCopiedAttributeId event) (FilesCopiedFileIds event)
               (FilesCopiedRecordId event))] else [])
  ++ (if negb (N.eqb (FileRequestedAttributeId event) uuid_Nil)
      then [("fileRequested",
             PayFileRequested (FileRequestedAttributeId event)
               (FileRequestedChooseApp event) (FileRequestedFileId event)
               (FileRequestedFileHash event) (FileRequestedFileName event))] else [])
  ++ (if Renew event then [("reauthorized", PayNil)] else [])
  ++ (if SchemaLoading event then [("schema_loading", PayNil)] else [])
  ++ (if SchemaLoaded event
      then [("schema_loaded", PaySchemaLoaded GetModuleIdMapMeta GetPresetRecordIds)]
      else []).

(** The clients as the hub finds them behind their pointers when it
    handles an event. *)
Variable mem : ptr → clientType.

(** [event.LoginId != 0 && event.LoginId != client.loginId] *)
Definition skipped (event : ClusterEvent) (client : ptr) : bool :=
  negb (LoginId event =? 0) && negb (LoginId event =? loginId (mem client)).

(** [event.Kick || (event.KickNonAdmin && !client.admin)] *)
Definition kicked (event : ClusterEvent) (client : ptr) : bool :=
  Kick event || (KickNonAdmin event && negb (admin (mem client))).

(** The login filter of an event: login ID 0 affects all clients. *)
Definition loginMatch (event : ClusterEvent) (client : ptr) : bool :=
  (LoginId event =? 0) || (LoginId event =? loginId (mem client)).

(** The body of [for client, _ := range hub.clients]; a key that was
    deleted before the range reaches it is not produced. *)
Definition visit (event : ClusterEvent) (jsonMsg : bytes)
    (acc : hubType * list hubEffect) (client : ptr) : hubType * list hubEffect :=
  let '(h, done) := acc in
  match clients h !! client with
  | None => acc
  | Some _ =>
      if skipped event client then acc
      else
        let sent :=
          if negb (Kick event || KickNonAdmin event)
          then [HubGoWrite client jsonMsg] else [] in
        if kicked event client then
          let '(h', removed) := removeClient h client in
          (h', done ++ sent ++ [HubLog LogInfo "kicking client"] ++ removed)
        else (h, done ++ sent)
  end.

(** The order in which a [range] produces the keys of the map: any
    order. *)
Variable rangeOrder : gmap ptr bool → list ptr.

Definition rangeClients (event : ClusterEvent) (jsonMsg : bytes) (h : hubType)
  : hubType * list hubEffect :=
  foldl (visit event jsonMsg) (h, []) (rangeOrder (clients h)).

(** The case [event := <-cluster.WebsocketClientEvents]. *)
Definition clusterEvent (h : hubType) (event : ClusterEvent) : hubType * list hubEffect :=
  let kickEvent := Kick event || KickNonAdmin event in
  if negb kickEvent then
    let '(jsonMsg, err, rendered) := render event in
    match err with
    | Some _ =>
        (h, rendered ++ [HubLog LogError "could not prepare unrequested transaction"])
    | None =>
        let '(h', done) := rangeClients event jsonMsg h in
        (h', rendered ++ done)
    end
  else rangeClients event "" h.

(** One turn of the [for { select { ... } }] of [hubType.start]. *)
Definition hub_step (h : hubType) (m : hubMsg) : hubType * list hubEffect :=
  match m with
  | ClientAdd client =>
      let h' := {| clients := <[client := true]> (clients h) |} in
      (h', [HubSetWebsocketClientCount (size (clients h'))])
  | ClientDel client => removeClient h client
  | WebsocketClientEvent event => clusterEvent h event
  end.

(** The hub loop over the messages it selects, in the order it selects
    them. *)
Fixpoint hub_run (h : hubType) (msgs : list hubMsg) : hubType * list hubEffect :=
  match msgs with
  | [] => (h, [])
  | m :: rest =>
      let '(h1, tr1) := hub_step h m in
      let '(h2, tr2) := hub_run h1 rest in
      (h2, tr1 ++ tr2)
  end.

End Hub.

(** The counts that a run of the hub has published to the gauge of the
    cluster, oldest first; the gauge shows the last one. *)
Definition published (tr : list hubEffect) : list nat :=
  omap (λ e, match e with HubSetWebsocketClientCount n => Some n | _ => None end) tr.

(** The calls of [prepareUnrequested] in a run of the hub. *)
Definition rendered (tr : list hubEffect) : list string :=
  omap (λ e, match e with HubPrepareUnrequested r => Some r | _ => None end) tr.

(** The messages handed to the writers of the clients in a run of the
    hub. *)
Definition handed (tr : list hubEffect) : list (ptr * bytes) :=
  omap (λ e, match e with HubGoWrite p m => Some (p, m) | _ => None end) tr.

(** The clients registered and deregistered by a sequence of messages. *)
Definition registrations (msgs : list hubMsg) : list ptr :=
  omap (λ m, match m with ClientAdd p => Some p | _ => None end) msgs.

Definition deregistrations (msgs : list hubMsg) : list ptr :=
  omap (λ m, match m with ClientDel p => Some p | _ => None end) msgs.

Definition isRegistration (m : hubMsg) : bool :=
  match m with ClientAdd _ | ClientDel _ => true | WebsocketClientEvent _ => false end.

(** ** The request limiter

    [hubRequestLimit = make(chan bool, 10)] is shared by the calls of
    [handleTransaction] of all clients, each in a goroutine of its own.
    A call sends on the channel before anything else and receives from it
    in a deferred function, which runs when the body returns and when it
    panics.  The calls interleave: the system below is the channel buffer
    and the place of every call. *)

Definition hubRequestLimit_cap : nat := 10.

Inductive callState :=
| Entering              (* started, before [hubRequestLimit <- true] *)
| Processing            (* the send went through: in the body *)
| Exited (o : outcome). (* the deferred receive went through *)

Record limiterSystem := {
  hubRequestLimit : list bool;   (* the buffer of the channel *)
  calls : list callState         (* the calls of handleTransaction so far *)
}.

(** At start no call has been made and the channel is empty. *)
Definition limiterStart : limiterSystem :=
  {| hubRequestLimit := []; calls := [] |}.

Inductive limiterAction :=
| Spawn                             (* read starts a call for a message *)
| Acquire (i : nat)                 (* call i sends on the channel *)
| Release (i : nat) (o : outcome).  (* call i ends with o: deferred receive *)

(** One step of the system; [None] when the action cannot happen in this
    state: a send on a full buffered channel and a receive from an empty
    one block. *)
Definition limiterStep (s : limiterSystem) (a : limiterAction) : option limiterSystem :=
  match a with
  | Spawn =>
      Some {| hubRequestLimit := hubRequestLimit s; calls := calls s ++ [Entering] |}
  | Acquire i =>
      match calls s !! i with
      | Some Entering =>
          if (length (hubRequestLimit s) <? hubRequestLimit_cap)%nat
          then Some {| hubRequestLimit := hubRequestLimit s ++ [true];
                       calls := <[i := Processing]> (calls s) |}
          else None
      | _ => None
      end
  | Release i o =>
      match calls s !! i with
      | Some Processing =>
          match hubRequestLimit s with
          | _ :: rest =>
              Some {| hubRequestLimit := rest; calls := <[i := Exited o]> (calls s) |}
          | [] => None
          end
      | _ => None
      end
  end.

(** A schedule: the actions taken one after the other, while each can
    happen. *)
Fixpoint limiterRun (s : limiterSystem) (acts : list limiterAction) : option limiterSystem :=
  match acts with
  | [] => Some s
  | a :: rest =>
      match limiterStep s a with
      | Some s' => limiterRun s' rest
      | None => None
      end
  end.

Definition isProcessing (c : callState) : bool :=
  match c with Processing => true | _ => false end.

(** The number of calls that are in processing. *)
Definition inProcessing (s : limiterSystem) : nat :=
  length (filter (λ c, isProcessing c = true) (calls s)).

(** The calls in processing are as many as the slots taken, and there
    are at most ten slots. *)
Definition limiterInv (s : limiterSystem) : Prop :=
  inProcessing s = length (hubRequestLimit s)
  ∧ (length (hubRequestLimit s) ≤ hubRequestLimit_cap)%nat.

(** ** A test double of the collaborators

    Errors and payloads are their texts; five messages unmarshal, every
    other one is malformed; one host is blocked; the credential flow
    accepts one password and the fixed-token flow fails on the license. *)

Definition demo_request (ressource action payload : string) : RequestTransaction :=
  {| Req_TransactionNr := 7;
     Requests := [{| Ressource := ressource; Action := action; Payload := payload |}] |}.

Definition demo_Unmarshal (b : bytes) : string + RequestTransaction :=
  if String.eqb b "auth user secret" then inr (demo_request "auth" "user" "secret")
  else if String.eqb b "auth user guess" then inr (demo_request "auth" "user" "guess")
  else if String.eqb b "auth tokenFixed" then inr (demo_request "auth" "tokenFixed" "")
  else if String.eqb b "auth ping" then inr (demo_request "auth" "ping" "")
  else if String.eqb b "data get" then inr (demo_request "data" "get" "")
  else inl "invalid character".

Definition demo_Marshal_resTrans (r : ResponseTransaction) : string + bytes :=
  inr ("{transactionNr:" +:+ pretty (Res_TransactionNr r) +:+ ",error:" +:+ Res_Error r
       +:+ ",responses:[" +:+ String.concat "," (Res_Payload <$> Responses r) +:+ "]}").

Definition demo_login (payload : bytes) (l : Z) (a n : bool)
  : option string * option string * (Z * bool * bool) :=
  if String.eqb payload "secret"
  then (Some "token", None, (42, false, false))
  else (None, Some "wrong password", (l, a, n)).

Definition demo : Collaborators := {|
  goerror := string;
  payloadT := string;
  err_Error := λ e, e;
  json_Unmarshal := demo_Unmarshal;
  json_Marshal_value := λ v, inr v;
  json_Marshal_resTrans := demo_Marshal_resTrans;
  CheckByHost := λ host, String.eqb host "203.0.113.9";
  ExecTransaction := λ _ _ _ _ reqTrans resTrans,
    {| Res_TransactionNr := Res_TransactionNr resTrans;
       Res_Error := Res_Error resTrans;
       Responses := (λ _, {| Res_Payload := "null" |}) <$> Requests reqTrans |};
  LoginAuthToken := demo_login;
  LoginAuthTokenFixed := λ _ l f, (None, Some "{ERR_LIC_001} no valid license", (l, f));
  LoginAuthUser := demo_login;
  CheckForLicenseErrCode := λ e, String.prefix "{ERR_LIC_" e;
  ErrGeneral := "general error";
  ModuleIdMapMeta := unit;
  PresetRecordIds := unit;
  GetModuleIdMapMeta := tt;
  GetPresetRecordIds := tt
|}.

(** A client as [Handler] creates it, from an allowed and from a blocked
    host, and one that logged in with a fixed token. *)
Definition demo_client : clientType := newClient "198.51.100.4" 1.
Definition demo_blocked : clientType := newClient "203.0.113.9" 2.
Definition demo_fixed : clientType :=
  {| address := "198.51.100.4"; admin := false; ctx := 3; fixedToken := true;
     loginId := 42; noAuth := false |}.

(** Marshalling on the test double: everything but the data of the
    schema-loaded event can be marshalled. *)
Definition demo_Marshal_payload (v : @unreqPayload demo) : string + bytes :=
  match v with
  | PayNil => inr "null"
  | PayUuid id => inr (pretty id)
  | PayFilesCopied a _ r => inr ("{attributeId:" +:+ pretty a +:+ ",recordId:" +:+ pretty r +:+ "}")
  | PayFileRequested a _ f _ name =>
      inr ("{attributeId:" +:+ pretty a +:+ ",fileId:" +:+ pretty f +:+ ",fileName:" +:+ name +:+ "}")
  | PaySchemaLoaded _ _ => inl "json: unsupported type"
  end.

Definition demo_Marshal_unreq (t : UnreqResponseTransaction) : string + bytes :=
  inr ("{transactionNr:" +:+ pretty (Unreq_TransactionNr t) +:+ ",responses:["
       +:+ String.concat ","
             ((λ r, "{ressource:" +:+ Unreq_Ressource r +:+ ",payload:" +:+ Unreq_Payload r
                    +:+ ",result:" +:+ Unreq_Result r +:+ "}") <$> Unreq_Responses t)
       +:+ "]}").

(** Three live clients: an admin and a user of login 5, and a user of
    login 9. *)
Definition demo_mem (p : ptr) : clientType :=
  {| address := "198.51.100.4"; admin := bool_decide (p = 1%positive); ctx := p;
     fixedToken := false;
     loginId := if bool_decide (p = 3%positive) then 9 else 5;
     noAuth := false |}.

Definition demo_hub : hubType :=
  {| clients := <[1%positive := true]> (<[2%positive := true]> (<[3%positive := true]> ∅)) |}.

(** The keys in the order of the map. *)
Definition demo_rangeOrder (m : gmap ptr bool) : list ptr := (map_to_list m).*1.

Definition demo_event (login : Z) (kick kickNonAdmin configChanged renew schemaLoaded : bool)
  : ClusterEvent :=
  {| LoginId := login; Kick := kick; KickNonAdmin := kickNonAdmin;
     CollectionChanged := uuid_Nil; ConfigChanged := configChanged;
     FilesCopiedAttributeId := uuid_Nil; FilesCopiedFileIds := [];
     FilesCopiedRecordId := 0;
     FileRequestedAttributeId := uuid_Nil; FileRequestedChooseApp := false;
     FileRequestedFileId := uuid_Nil; FileRequestedFileHash := "";
     FileRequestedFileName := "";
     Renew := renew; SchemaLoading := false; SchemaLoaded := schemaLoaded |}.

Definition demo_hub_step : hubType → hubMsg → hubType * list hubEffect :=
  @hub_step demo demo_Marshal_payload demo_Marshal_unreq demo_mem demo_rangeOrder.

Definition demo_hub_run : hubType → list hubMsg → hubType * list hubEffect :=
  @hub_run demo demo_Marshal_payload demo_Marshal_unreq demo_mem demo_rangeOrder.

(** Twenty calls against the limiter, ten of which take a slot, and the
    state that this schedule leads to. *)
Definition demo_schedule : list limiterAction :=
  replicate 20 Spawn ++ (Acquire <$> seq 0 10).

Definition demo_busy : limiterSystem :=
  {| hubRequestLimit := replicate 10 true;
     calls := replicate 10 Processing ++ replicate 10 Entering |}.

(** ** Observations on the events of a call *)

(** The messages written to connections, the hosts a bad attempt was
    recorded for, the hosts the brute-force check was consulted for, the
    authentication flows called and the deregistrations asked for. *)
Definition written (tr : list event) : list (ptr * bytes) :=
  omap (λ e, match e with EvWsWrite p m => Some (p, m) | _ => None end) tr.

Definition badAttempts (tr : list event) : list string :=
  omap (λ e, match e with EvBadAttemptByHost host => Some host | _ => None end) tr.

Definition hostChecks (tr : list event) : list string :=
  omap (λ e, match e with EvCheckByHost host => Some host | _ => None end) tr.

Definition isFlow (e : event) : bool :=
  match e with
  | EvLoginAuthToken _ | EvLoginAuthTokenFixed _ | EvLoginAuthUser _ => true
  | _ => false
  end.

Definition flowsCalled (tr : list event) : list event :=
  filter (λ e, isFlow e = true) tr.

Definition executed (tr : list event) : list (positive * RequestTransaction) :=
  omap (λ e, match e with EvExecTransaction c rt => Some (c, rt) | _ => None end) tr.

Definition deregistrationsAsked (tr : list event) : list ptr :=
  omap (λ e, match e with EvClientDel p => Some p | _ => None end) tr.

(** A second test double: every message is a transaction of two requests,
    the first of which names the resource "auth"; nothing can be
    marshalled. *)
Definition demo_pair : RequestTransaction :=
  {| Req_TransactionNr := 9;
     Requests := [{| Ressource := "auth"; Action := "user"; Payload := "secret" |};
                  {| Ressource := "data"; Action := "get"; Payload := "" |}] |}.

Definition demo_mute : Collaborators := {|
  goerror := string;
  payloadT := string;
  err_Error := λ e, e;
  json_Unmarshal := λ b,
    if String.eqb b "auth user secret" then inr (demo_request "auth" "user" "secret")
    else inr demo_pair;
  json_Marshal_value := λ _, inl "json: unsupported value";
  json_Marshal_resTrans := λ _, inl "json: unsupported value";
  CheckByHost := λ host, String.eqb host "203.0.113.9";
  ExecTransaction := λ _ _ _ _ _ resTrans, resTrans;
  LoginAuthToken := demo_login;
  LoginAuthTokenFixed := λ _ l f, (None, None, (l, true));
  LoginAuthUser := demo_login;
  CheckForLicenseErrCode := λ e, String.prefix "{ERR_LIC_" e;
  ErrGeneral := "general error";
  ModuleIdMapMeta := unit;
  PresetRecordIds := unit;
  GetModuleIdMapMeta := tt;
  GetPresetRecordIds := tt
|}.

(** ** Accepting a connection and reading from it *)

(** Of [http.Request], the remote address; [bruteforce.Check] and the
    upgrader see the whole request. *)
Record httpRequest := {
  RemoteAddr : string;
  Header : list (string * string)
}.

(** What [Handler] calls: [bruteforce.Check], [clientUpgrader.Upgrade]
    (the socket it returns is a handle), [net.SplitHostPort] and the error
    code of a blocked host. *)
Class Listener `{Collaborators} := {
  Check : httpRequest → bool;
  Upgrade : httpRequest → goerror + positive;
  SplitHostPort : string → goerror + string * string;
  ErrBruteforceBlock : string
}.

Definition handlerContext : string := "websocket".

Inductive handlerEffect :=
| HdAbortRequestNoLog (code : string)             (* handler.AbortRequestNoLog *)
| HdUpgrade                                       (* clientUpgrader.Upgrade *)
| HdAbortRequest (context : string) (code : string) (* handler.AbortRequest *)
| HdWsClose (ws : positive)                       (* ws.Close() *)
| HdLog (l : logLevel) (msg : string)
| HdClientAdd (client : ptr)                      (* hub.clientAdd <- client *)
| HdGoRead (client : ptr).                        (* go client.read() *)

(** [Handler]: [fresh] is the address of the client it allocates and
    [newCtx] the context that [context.WithCancel] returns; the result is
    the client behind [fresh], if one is created. *)
Definition Handler `{Listener} (fresh : ptr) (newCtx : positive) (r : httpRequest)
  : option clientType * list handlerEffect :=
  if Check r then
    (None, [HdAbortRequestNoLog ErrBruteforceBlock])
  else
    match Upgrade r with
    | inl _ => (None, [HdUpgrade; HdAbortRequest handlerContext ErrGeneral])
    | inr ws =>
        match SplitHostPort (RemoteAddr r) with
        | inl _ =>
            (None, [HdUpgrade; HdAbortRequest handlerContext ErrGeneral; HdWsClose ws])
        | inr (host, _) =>
            (Some {| address := host; admin := false; ctx := newCtx;
                     fixedToken := false; loginId := 0; noAuth := false |},
             [HdUpgrade; HdLog LogInfo "new client connecting";
              HdClientAdd fresh; HdGoRead fresh])
        end
    end.

Inductive readEffect :=
| RdGo (message : bytes)       (* go func() { client.write(client.handleTransaction(message)) }() *)
| RdClientDel (client : ptr).  (* hub.clientDel <- client *)

(** [clientType.read] over what [ws.ReadMessage] returns call after call:
    the effects, and whether the loop has returned (it has not when it
    waits for the next message). *)
Fixpoint read {E : Type} (self : ptr) (incoming : list (E + bytes))
  : list readEffect * bool :=
  match incoming with
  | [] => ([], false)
  | inl _ :: _ => ([RdClientDel self], true)
  | inr message :: rest =>
      let '(tr, returned) := read self rest in
      (RdGo message :: tr, returned)
  end.

(** What of the effects of [Handler] and of [read] arrives at the hub. *)
Definition handlerToHub (tr : list handlerEffect) : list hubMsg :=
  omap (λ e, match e with HdClientAdd p => Some (ClientAdd p) | _ => None end) tr.

Definition readToHub (tr : list readEffect) : list hubMsg :=
  omap (λ e, match e with RdClientDel p => Some (ClientDel p) | _ => None end) tr.

(** The messages that [read] has started a call for. *)
Definition dispatched (tr : list readEffect) : list bytes :=
  omap (λ e, match e with RdGo m => Some m | _ => None end) tr.

(** ** Observations on the effects of the hub *)

(** The connections closed and the contexts cancelled in a run of the
    hub. *)
Definition closed (tr : list hubEffect) : list ptr :=
  omap (λ e, match e with HubWsClose p => Some p | _ => None end) tr.

Definition cancelled (tr : list hubEffect) : list ptr :=
  omap (λ e, match e with HubCtxCancel p => Some p | _ => None end) tr.

(** The gauge is up to date after a stretch of the hub loop that leads
    from [h] to [h'] with the effects [tr]: the last count published is
    the size of the live set, and if none was published the live set has
    not changed. *)
Definition gaugeShows (h h' : hubType) (tr : list hubEffect) : Prop :=
  match last (published tr) with
  | Some n => n = size (clients h')
  | None => h' = h
  end.

(** A stretch of the hub loop that registers nothing: the clients that
    leave the live set are the ones that are closed, each is closed and
    cancelled once and was live, and the gauge is up to date. *)
Definition removalsOnly (h h' : hubType) (tr : list hubEffect) : Prop :=
  closed tr = cancelled tr
  ∧ NoDup (closed tr)
  ∧ (∀ p, p ∈ closed tr → is_Some (clients h !! p))
  ∧ (∀ p, clients h' !! p = if bool_decide (p ∈ closed tr) then None else clients h !! p)
  ∧ gaugeShows h h' tr.

(** A listener for the test double: requests from the blocked host are
    refused, the address is split at its last colon. *)
Definition demo_split (addr : string) : string + string * string :=
  if String.eqb addr "198.51.100.4:51234" then inr ("198.51.100.4", "51234")
  else if String.eqb addr "203.0.113.9:40000" then inr ("203.0.113.9", "40000")
  else inl "missing port in address".

Definition demo_upgrade (r : httpRequest) : string + positive :=
  match Header r with
  | [] => inl "not a websocket handshake"
  | _ :: _ => inr 8%positive
  end.

Definition demo_listener : @Listener demo :=
  @Build_Listener demo
    (λ r, String.eqb (RemoteAddr r) "203.0.113.9:40000")
    demo_upgrade demo_split "bruteforce block".

Definition demo_handshake (addr : string) : httpRequest :=
  {| RemoteAddr := addr; Header := [("Upgrade", "websocket")] |}.

(** ** The builder of form states (www)

    The components [MyBuilderFormStates] and [MyBuilderFormState]: the
    computed lists [fieldIdsUsed] and [stateShowIndex] and the actions
    that emit an edited copy of the states.  A JavaScript property that
    an object does not have reads as [undefined]. *)

Module FormStates.

(** The values that the field references of conditions and effects take:
    a field ID, [null], or [undefined] when the property is missing. *)
Inductive jsval :=
| JUndefined
| JNull
| JString (s : string).

#[global] Instance jsval_eq_dec : EqDecision jsval.
Proof. solve_decision. Defined.

(** One side of a condition as [addCondition] creates it. *)
Record side := {
  brackets : Z;
  collectionId : jsval;
  columnId : jsval;
  content : string;
  side_fieldId : jsval;
  presetId : jsval;
  roleId : jsval;
  side_value : string
}.

Record condition := {
  connector : string;
  operator : string;
  fieldId0 : jsval;
  fieldId1 : jsval;
  side0 : option side;
  side1 : option side
}.

Record effect := {
  fieldId : jsval;
  newState : string
}.

Record state := {
  id : string;
  description : string;
  conditions : list condition;
  effects : list effect
}.

(** [a === b] and [out.includes(v)] on these values. *)
Definition strictEq (a b : jsval) : bool := bool_decide (a = b).

Definition includes (out : list jsval) (v : jsval) : bool :=
  existsb (strictEq v) out.

(** [if(v !== null && !out.includes(v)) out.push(v)] *)
Definition pushNew (out : list jsval) (v : jsval) : list jsval :=
  if negb (strictEq v JNull) && negb (includes out v) then out ++ [v] else out.

(** The computed property [fieldIdsUsed]. *)
Definition fieldIdsUsed (states : list state) : list jsval :=
  foldl (λ out s,
           let out :=
             foldl (λ out c, pushNew (pushNew out (fieldId0 c)) (fieldId1 c))
                   out (conditions s) in
           foldl (λ out e, pushNew out (fieldId e)) out (effects s))
        [] states.

(** [haystack.includes(needle)] on strings. *)
Fixpoint str_includes (haystack needle : string) : bool :=
  String.prefix needle haystack
  || match haystack with
     | EmptyString => false
     | String _ rest => str_includes rest needle
     end.

(** The loops of [stateShowIndex] that look for the field in the
    conditions and in the effects of a state and break when they find
    it. *)
Fixpoint conditionsMention (filterFieldId : string) (cs : list condition) : bool :=
  match cs with
  | [] => false
  | c :: rest =>
      if strictEq (fieldId0 c) (JString filterFieldId)
         || strictEq (fieldId1 c) (JString filterFieldId)
      then true
      else conditionsMention filterFieldId rest
  end.

Fixpoint effectsMention (filterFieldId : string) (es : list effect) : bool :=
  match es with
  | [] => false
  | e :: rest =>
      if strictEq (fieldId e) (JString filterFieldId) then true
      else effectsMention filterFieldId rest
  end.

Section Show.

(** [String.prototype.toLowerCase] *)
Variable toLowerCase : string → string.

(** The text filter and the field filter of the component. *)
Variable filter : string.
Variable filterFieldId : string.

(** The body of the loop of [stateShowIndex] for one state: whether its
    index is pushed. *)
Definition shows (s : state) : bool :=
  if negb (String.eqb filter "")
     && negb (str_includes (toLowerCase (description s)) (toLowerCase filter))
  then false
  else if negb (String.eqb filterFieldId "") then
    let show := conditionsMention filterFieldId (conditions s) in
    let show := if negb show then effectsMention filterFieldId (effects s) else show in
    if negb show then false else true
  else true.

(** The loop of [stateShowIndex] from index [i] on. *)
Fixpoint stateShowFrom (i : nat) (states : list state) : list nat :=
  match states with
  | [] => []
  | s :: rest =>
      if shows s then i :: stateShowFrom (S i) rest else stateShowFrom (S i) rest
  end.

(** The computed property [stateShowIndex]. *)
Definition stateShowIndex (states : list state) : list nat := stateShowFrom 0 states.

End Show.

(** The actions of [MyBuilderFormStates]: what each emits as the new
    value.  [nilUuid] is what [getNilUuid()] returns.  An index is what
    the template passes, a position counted from 0: [splice(i,1)] at a
    position past the end removes nothing; an assignment at the end
    appends, and one further out would leave holes in the array, which
    these lists do not have ([None]). *)
Definition add (nilUuid : string) (states : list state) : list state :=
  {| id := nilUuid; description := ""; conditions := []; effects := [] |} :: states.

Definition remove (i : nat) (states : list state) : list state :=
  delete i states.

Definition update (i : nat) (value : state) (states : list state) : option (list state) :=
  if decide (i < length states)%nat then Some (<[i := value]> states)
  else if decide (i = length states) then Some (states ++ [value])
  else None.

(** The actions of [MyBuilderFormState] that add a condition and an
    effect. *)
Definition newSide (c : string) : side :=
  {| brackets := 0; collectionId := JNull; columnId := JNull; content := c;
     side_fieldId := JNull; presetId := JNull; roleId := JNull; side_value := "" |}.

Definition newCondition : condition :=
  {| connector := "AND"; operator := "=";
     fieldId0 := JUndefined; fieldId1 := JUndefined;
     side0 := Some (newSide "field"); side1 := Some (newSide "value") |}.

Definition addCondition (s : state) : state :=
  {| id := id s; description := description s;
     conditions := conditions s ++ [newCondition]; effects := effects s |}.

Definition addEffect (s : state) : state :=
  {| id := id s; description := description s; conditions := conditions s;
     effects := effects s ++ [{| fieldId := JNull; newState := "default" |}] |}.

End FormStates.

(** ** Copying files (package data)

    [data.CopyFiles] works on the database and on the file system; both
    are the world that the collaborators read and change. *)

Module FileCopy.

(** Modelled from the spec: [types.DataGetValueFile] is declared in a
    package that is not part of the sources; it has the fields that
    [CopyFiles] scans and sets. *)
Record DataGetValueFile := {
  Id : uuid;
  Name : string;
  Version : Z;
  Hash : string;
  Size : Z;
  Changed : Z
}.

(** What [CopyFiles] calls.  [MayAccessFile], the query and [tools.Exists]
    read the world; [uuid.NewV4], [tools.FileCopy] and the statements of a
    transaction change it.  The rows of the query come in their order,
    each one scanned or failing to scan. *)
Class World `{Collaborators} := {
  world : Type;
  MayAccessFile : world → Z → uuid → option goerror;
  GetFilesTableNameRecords : uuid → string;
  GetFilesTableNameVersions : uuid → string;
  GetFilesTableName : uuid → string;
  Query : world → string → string → Z → list uuid →
          goerror + list (goerror + DataGetValueFile);
  GetFilePathVersion : uuid → uuid → Z → string;
  Exists : world → string → goerror + bool;
  NewV4 : world → world * (goerror + uuid);
  FileCopy : world → string → string → bool → world * option goerror;
  Begin : world → world * (goerror + positive);
  ExecInsertFile : world → positive → string → uuid → world * option goerror;
  ExecInsertVersion :
    world → positive → string → uuid → Z → Z → string → Z → Z → world * option goerror;
  Rollback : world → positive → world;
  Commit : world → positive → world * option goerror;
  (** [fmt.Errorf("file requested to be copied ('%s') cannot be found", id)] *)
  errNotFound : uuid → goerror
}.

Inductive copyEffect :=
| CfMayAccessFile (attributeId : uuid)
| CfQuery (relVersion relRecord : string) (recordId : Z) (fileIds : list uuid)
| CfRowsClose
| CfExists (path : string)
| CfNewV4 (idNew : option uuid)   (* the ID that [uuid.NewV4] returned, if it did *)
| CfFileCopy (src dst : string) (overwrite : bool)
| CfBegin
| CfInsertFile (rel : string) (id : uuid)
| CfInsertVersion (rel : string) (id : uuid) (version loginId : Z) (hash : string)
    (size changed : Z)
| CfRollback
| CfCommit.

(** What a call returns, the world it leaves and what it did. *)
Record copied `{World} := mkCopied {
  files_out : list DataGetValueFile;
  err_out : option goerror;
  world_out : world;
  did : list copyEffect
}.

Arguments mkCopied {_ _} _ _ _ _.
Arguments files_out {_ _} _.
Arguments err_out {_ _} _.
Arguments world_out {_ _} _.
Arguments did {_ _} _.

Section CopyFiles.

Context `{World}.

(** [for rows.Next() { ... rows.Scan(...) ... files = append(files, f) }] *)
Fixpoint scanRows (rows : list (goerror + DataGetValueFile))
    (files : list DataGetValueFile) : list DataGetValueFile * option goerror :=
  match rows with
  | [] => (files, None)
  | inl err :: _ => (files, Some err)
  | inr f :: rest => scanRows rest (files ++ [f])
  end.

(** The loop that checks that all requested files exist. *)
Fixpoint checkExist (w : world) (srcAttributeId : uuid) (todo : list DataGetValueFile)
  : option goerror * list copyEffect :=
  match todo with
  | [] => (None, [])
  | f :: rest =>
      let path := GetFilePathVersion srcAttributeId (Id f) (Version f) in
      match Exists w path with
      | inl err => (Some err, [CfExists path])
      | inr false => (Some (errNotFound (Id f)), [CfExists path])
      | inr true =>
          let '(err, tr) := checkExist w srcAttributeId rest in
          (err, CfExists path :: tr)
      end
  end.

(** [files[i].Id = idNew; files[i].Version = 0] *)
Definition renew (idNew : uuid) (f : DataGetValueFile) : DataGetValueFile :=
  {| Id := idNew; Name := Name f; Version := 0; Hash := Hash f; Size := Size f;
     Changed := Changed f |}.

(** The loop [for i, f := range files] that copies: [todo] is what the
    range has still to produce, [files] the slice as it is by now. *)
Fixpoint copyLoop (loginId : Z) (srcAttributeId dstAttributeId : uuid)
    (w : world) (i : nat) (todo : list DataGetValueFile)
    (files : list DataGetValueFile) (tr : list copyEffect) : copied :=
  match todo with
  | [] => mkCopied files None w tr
  | f :: rest =>
      let '(w, r) := NewV4 w in
      match r with
      | inl err => mkCopied files (Some err) w (tr ++ [CfNewV4 None])
      | inr idNew =>
          let tr := tr ++ [CfNewV4 (Some idNew)] in
          let srcPath := GetFilePathVersion srcAttributeId (Id f) (Version f) in
          let dstPath := GetFilePathVersion dstAttributeId idNew 0 in
          let '(w, r) := FileCopy w srcPath dstPath false in
          let tr := tr ++ [CfFileCopy srcPath dstPath false] in
          match r with
          | Some err => mkCopied files (Some err) w tr
          | None =>
              let '(w, r) := Begin w in
              let tr := tr ++ [CfBegin] in
              match r with
              | inl err => mkCopied files (Some err) w tr
              | inr tx =>
                  let dstRelFile := GetFilesTableName dstAttributeId in
                  let dstRelVersion := GetFilesTableNameVersions dstAttributeId in
                  let '(w, r) := ExecInsertFile w tx dstRelFile idNew in
                  let tr := tr ++ [CfInsertFile dstRelFile idNew] in
                  match r with
                  | Some err =>
                      mkCopied files (Some err) (Rollback w tx) (tr ++ [CfRollback])
                  | None =>
                      let '(w, r) :=
                        ExecInsertVersion w tx dstRelVersion idNew 0 loginId
                          (Hash f) (Size f) (Changed f) in
                      let tr :=
                        tr ++ [CfInsertVersion dstRelVersion idNew 0 loginId
                                 (Hash f) (Size f) (Changed f)] in
                      match r with
                      | Some err =>
                          mkCopied files (Some err) (Rollback w tx) (tr ++ [CfRollback])
                      | None =>
                          let '(w, r) := Commit w tx in
                          let tr := tr ++ [CfCommit] in
                          match r with
                          | Some err => mkCopied files (Some err) w tr
                          | None =>
                              copyLoop loginId srcAttributeId dstAttributeId w (S i) rest
                                (alter (renew idNew) i files) tr
                          end
                      end
                  end
              end
          end
      end
  end.

(** [CopyFiles] *)
Definition CopyFiles (w : world) (loginId : Z) (srcAttributeId : uuid)
    (srcFileIds : list uuid) (srcRecordId : Z) (dstAttributeId : uuid) : copied :=
  match MayAccessFile w loginId srcAttributeId with
  | Some err => mkCopied [] (Some err) w [CfMayAccessFile srcAttributeId]
  | None =>
      match MayAccessFile w loginId dstAttributeId with
      | Some err =>
          mkCopied [] (Some err) w
            [CfMayAccessFile srcAttributeId; CfMayAccessFile dstAttributeId]
      | None =>
          let srcRelRecord := GetFilesTableNameRecords srcAttributeId in
          let srcRelVersion := GetFilesTableNameVersions srcAttributeId in
          let tr :=
            [CfMayAccessFile srcAttributeId; CfMayAccessFile dstAttributeId;
             CfQuery srcRelVersion srcRelRecord srcRecordId srcFileIds] in
          match Query w srcRelVersion srcRelRecord srcRecordId srcFileIds with
          | inl err => mkCopied [] (Some err) w tr
          | inr rows =>
              match scanRows rows [] with
              | (files, Some err) => mkCopied files (Some err) w tr
              | (files, None) =>
                  let tr := tr ++ [CfRowsClose] in
                  match checkExist w srcAttributeId files with
                  | (Some err, checked) => mkCopied files (Some err) w (tr ++ checked)
                  | (None, checked) =>
                      copyLoop loginId srcAttributeId dstAttributeId w 0 files files
                        (tr ++ checked)
                  end
              end
          end
      end
  end.

End CopyFiles.

(** The effects that change the world. *)
Definition isWrite (e : copyEffect) : bool :=
  match e with
  | CfMayAccessFile _ | CfQuery _ _ _ _ | CfRowsClose | CfExists _ => false
  | _ => true
  end.

(** The IDs that [uuid.NewV4] returned in a call, in the order of its
    calls. *)
Definition created (tr : list copyEffect) : list uuid :=
  omap (λ e, match e with CfNewV4 idNew => idNew | _ => None end) tr.

(** What copying one file and registering the copy does when nothing
    fails and [uuid.NewV4] returns [idNew]: the new ID, the copy of the
    version to version 0 of the file [idNew], and one transaction with
    the two insertions for [idNew]. *)
Definition copyOne `{World} (loginId : Z) (srcAttributeId dstAttributeId : uuid)
    (idNew : uuid) (f : DataGetValueFile) : list copyEffect :=
  [CfNewV4 (Some idNew);
   CfFileCopy (GetFilePathVersion srcAttributeId (Id f) (Version f))
     (GetFilePathVersion dstAttributeId idNew 0) false;
   CfBegin;
   CfInsertFile (GetFilesTableName dstAttributeId) idNew;
   CfInsertVersion (GetFilesTableNameVersions dstAttributeId) idNew 0 loginId
     (Hash f) (Size f) (Changed f);
   CfCommit].

(** What it does when it fails at its [n]th call: if that is
    [uuid.NewV4] there is no ID and nothing else is done; otherwise
    [uuid.NewV4] returned [idNew], and the calls up to the failing one
    are made, and a rollback if it was one of the two insertions. *)
Definition copyFails `{World} (loginId : Z) (srcAttributeId dstAttributeId : uuid)
    (idNew : uuid) (f : DataGetValueFile) (n : nat) : list copyEffect :=
  match n with
  | 1%nat => [CfNewV4 None]
  | _ =>
      take n (copyOne loginId srcAttributeId dstAttributeId idNew f)
      ++ (if bool_decide (n = 4 ∨ n = 5)%nat then [CfRollback] else [])
  end.

(** What the checks do when all of them pass for the files [fs]: the two
    checks of access, the query, the closing of its rows and one look at
    each file. *)
Definition copyChecks `{World} (srcAttributeId dstAttributeId : uuid)
    (srcFileIds : list uuid) (srcRecordId : Z) (fs : list DataGetValueFile)
  : list copyEffect :=
  [CfMayAccessFile srcAttributeId; CfMayAccessFile dstAttributeId;
   CfQuery (GetFilesTableNameVersions srcAttributeId)
     (GetFilesTableNameRecords srcAttributeId) srcRecordId srcFileIds;
   CfRowsClose]
  ++ ((λ f, CfExists (GetFilePathVersion srcAttributeId (Id f) (Version f))) <$> fs).

(** All checks pass, and the query gives the files [fs]: the login may
    access both attributes, the query succeeds, each of its rows is
    scanned, and the version of each file is there. *)
Definition checksPass `{World} (w : world) (loginId : Z)
    (srcAttributeId dstAttributeId : uuid) (srcFileIds : list uuid) (srcRecordId : Z)
    (fs : list DataGetValueFile) : Prop :=
  MayAccessFile w loginId srcAttributeId = None
  ∧ MayAccessFile w loginId dstAttributeId = None
  ∧ Query w (GetFilesTableNameVersions srcAttributeId)
      (GetFilesTableNameRecords srcAttributeId) srcRecordId srcFileIds
    = inr (inr <$> fs)
  ∧ Forall (λ f, Exists w (GetFilePathVersion srcAttributeId (Id f) (Version f))
                 = inr true) fs.

End FileCopy.

(** A world for the examples: the IDs that [uuid.NewV4] has still to give
    and the paths on the disk.  Login 1 may access every attribute; the
    query finds one row for every requested file; a file is copied
    unless its destination is there and must not be overwritten; the
    database accepts everything. *)
Definition demo_file (id : uuid) : FileCopy.DataGetValueFile :=
  {| FileCopy.Id := id; FileCopy.Name := "report.pdf"; FileCopy.Version := 3;
     FileCopy.Hash := "c0ffee"; FileCopy.Size := 12; FileCopy.Changed := 1700000000 |}.

Definition demo_path (attributeId fileId : uuid) (version : Z) : string :=
  pretty attributeId +:+ "/" +:+ pretty fileId +:+ "_" +:+ pretty version.

Definition demo_mayAccess (w : list uuid * list string) (loginId : Z)
    (attributeId : uuid) : option (@goerror demo) :=
  if bool_decide (loginId = 1) then None else Some "forbidden".

Definition demo_query (w : list uuid * list string) (relVersion relRecord : string)
    (recordId : Z) (fileIds : list uuid)
  : @goerror demo + list (@goerror demo + FileCopy.DataGetValueFile) :=
  inr ((λ id, inr (demo_file id)) <$> fileIds).

Definition demo_exists (w : list uuid * list string) (path : string)
  : @goerror demo + bool :=
  inr (bool_decide (path ∈ w.2)).

Definition demo_newV4 (w : list uuid * list string)
  : (list uuid * list string) * (@goerror demo + uuid) :=
  match w.1 with
  | [] => (w, inl "no random numbers")
  | id :: ids => ((ids, w.2), inr id)
  end.

Definition demo_fileCopy (w : list uuid * list string) (src dst : string)
    (overwrite : bool) : (list uuid * list string) * option (@goerror demo) :=
  if bool_decide (dst ∈ w.2) && negb overwrite then (w, Some "file exists")
  else ((w.1, dst :: w.2), None).

Definition demo_begin (w : list uuid * list string)
  : (list uuid * list string) * (@goerror demo + positive) :=
  (w, inr 1%positive).

Definition demo_accept (w : list uuid * list string)
  : (list uuid * list string) * option (@goerror demo) :=
  (w, None).

Definition demo_notFound (id : uuid) : @goerror demo :=
  "file requested to be copied ('" +:+ pretty id +:+ "') cannot be found".

Definition demo_world : @FileCopy.World demo :=
  @FileCopy.Build_World demo (list uuid * list string)
    demo_mayAccess
    (λ a, pretty a +:+ "_record") (λ a, pretty a +:+ "_version") (λ a, pretty a)
    demo_query demo_path demo_exists demo_newV4 demo_fileCopy demo_begin
    (λ w _ _ _, demo_accept w) (λ w _ _ _ _ _ _ _ _, demo_accept w)
    (λ w _, w) (λ w _, demo_accept w) demo_notFound.

(** Two files of attribute 7 on the disk, and two IDs or one to give. *)
Definition demo_disk : list string := [demo_path 7%N 1%N 3; demo_path 7%N 2%N 3].
Definition demo_two_ids : list uuid * list string := ([10; 11]%N, demo_disk).
Definition demo_one_id : list uuid * list string := ([10]%N, demo_disk).

(** * Proof automation *)

(** An event that is none of the listed ones is not in the list. *)
Ltac absent :=
  let Hin := fresh "Hin" in
  intros Hin;
  repeat (rewrite elem_of_app in Hin || rewrite elem_of_cons in Hin
          || rewrite elem_of_nil in Hin);
  intuition discriminate.

(** An event that is listed is in the list. *)
Ltac present :=
  repeat (rewrite elem_of_app || rewrite elem_of_cons); intuition.

(** * Properties of the dispatcher *)

Section DispatcherFacts.

Context `{Collaborators}.

(** An authentication transaction has exactly one request, and its
    resource is "auth". *)
Lemma authRequest_single (reqTrans : RequestTransaction) :
  authRequest reqTrans = true ↔
  ∃ req, Requests reqTrans = [req] ∧ Ressource req = "auth".
Proof.
  unfold authRequest. destruct (Requests reqTrans) as [|req [|req' rest]]; simpl.
  - split; [discriminate | intros (? & ? & _); discriminate].
  - rewrite String.eqb_eq. split.
    + intros Hres. exists req. done.
    + intros (req0 & Heq & Hres). by simplify_eq.
  - split; [discriminate | intros (? & ? & _); discriminate].
Qed.

Lemma authRequest_first (reqTrans : RequestTransaction) :
  authRequest reqTrans = true →
  ∃ req, Requests reqTrans !! 0%nat = Some req ∧ Requests reqTrans = [req]
         ∧ Ressource req = "auth".
Proof.
  intros (req & Heq & Hres)%authRequest_single. exists req. by rewrite Heq.
Qed.

(** The switch never touches the address of the client. *)
Lemma authSwitch_address (req : Request) (client : clientType) :
  address (authSwitch req client).1.2 = address client.
Proof.
  unfold authSwitch.
  repeat (case_match; simpl; try done).
Qed.

(** The authentication branch on a host that is not blocked. *)
Lemma dispatch_auth (self : ptr) (client : clientType) (reqTransJson : bytes)
    (reqTrans : RequestTransaction) (req : Request) :
  json_Unmarshal reqTransJson = inr reqTrans →
  Requests reqTrans = [req] →
  Ressource req = "auth" →
  CheckByHost (address client) = false →
  let '(resPayload, err, client1, called) := authSwitch req client in
  let '(resTrans1, accounted) :=
    authResult client1 (resTrans_for reqTrans) resPayload err in
  dispatch self client reqTransJson =
    mkRun (Marshal resTrans1) client1
      ([EvLog LogInfo "TRANSACTION started"; EvCheckByHost (address client)]
         ++ called ++ accounted ++
         (if String.eqb (Res_Error resTrans1) ""
          then [EvLog LogInfo "authenticated client"] else [])).
Proof.
  intros Hparse Hreqs Hres Hfree.
  assert (authRequest reqTrans = true) as Hauth
    by (apply authRequest_single; eauto).
  unfold dispatch. rewrite Hparse, Hauth, Hreqs. simpl. rewrite Hfree.
  unfold resTrans_for.
  destruct (authSwitch req client) as [[[resPayload err] client1] called].
  by destruct (authResult _ _ _ _).
Qed.

(** C3: whenever the bytes of a message do not unmarshal as a request
    envelope, the dispatcher returns the literal empty object, it does
    not panic, it leaves the client as it is and asks for no
    deregistration (its only effects are the limiter slot and the error
    log); the empty object is then written to the connection. *)
Theorem C3_malformed_request (ws_WriteMessage : ptr → bytes → bool)
    (self : ptr) (client : clientType) (reqTransJson : bytes) (err : goerror) :
  json_Unmarshal reqTransJson = inl err →
  value (handleTransaction self client reqTransJson) = Returned emptyObject
  ∧ client_after (handleTransaction self client reqTransJson) = client
  ∧ effects (handleTransaction self client reqTransJson) =
      [EvAcquire; EvLog LogError "failed to unmarshal transaction"; EvRelease]
  ∧ (ws_WriteMessage self emptyObject = true →
     effects (serve ws_WriteMessage self client reqTransJson) =
       [EvAcquire; EvLog LogError "failed to unmarshal transaction"; EvRelease;
        EvWsWrite self emptyObject]).
Proof.
  intros Hparse. unfold serve, write, handleTransaction, dispatch.
  rewrite Hparse. simpl. repeat split; try done.
  by intros ->.
Qed.

(** C4: a valid transaction that is not an authentication transaction,
    on a client whose [fixedToken] is set, is answered with the empty
    object; the client (so its [loginId] and [admin]) is unchanged,
    [request.ExecTransaction] is not called and no deregistration is
    asked for. *)
Theorem C4_fixed_token_request (self : ptr) (client : clientType)
    (reqTransJson : bytes) (reqTrans : RequestTransaction) :
  json_Unmarshal reqTransJson = inr reqTrans →
  authRequest reqTrans = false →
  fixedToken client = true →
  let r := handleTransaction self client reqTransJson in
  value r = Returned emptyObject
  ∧ loginId (client_after r) = loginId client
  ∧ admin (client_after r) = admin client
  ∧ client_after r = client
  ∧ (∀ c rt, EvExecTransaction c rt ∉ effects r)
  ∧ (∀ p, EvClientDel p ∉ effects r).
Proof.
  intros Hparse Hauth Hfixed. unfold handleTransaction, dispatch.
  rewrite Hparse, Hauth, Hfixed. simpl.
  repeat split; try done; intros; absent.
Qed.

(** The final marshalling logs at most an error. *)
Lemma marshalResponse_effects (resTrans : ResponseTransaction) :
  (marshalResponse resTrans).2 = []
  ∨ (marshalResponse resTrans).2 = [EvLog LogError "cannot marshal responses"].
Proof. unfold marshalResponse. case_match; simpl; auto. Qed.

(** What [handleTransaction] returns once the body has reached the final
    marshalling. *)
Lemma handleTransaction_marshal (self : ptr) (client : clientType)
    (reqTransJson : bytes) (resTrans : ResponseTransaction) :
  value (dispatch self client reqTransJson) = Marshal resTrans →
  value (handleTransaction self client reqTransJson) = (marshalResponse resTrans).1
  ∧ effects (handleTransaction self client reqTransJson) =
      [EvAcquire] ++ effects (dispatch self client reqTransJson)
        ++ (marshalResponse resTrans).2 ++ [EvRelease].
Proof.
  intros Hstage. unfold handleTransaction. rewrite Hstage.
  by destruct (marshalResponse resTrans).
Qed.

(** C7: when the authentication flow that an authentication transaction
    delegates to returns an error, a bad attempt is recorded for the
    address of the client, and the error of the response envelope is the
    text of the error if [CheckForLicenseErrCode] holds of it and
    "AUTH_ERROR" otherwise; the envelope has the transaction number of
    the request and no response entry, and it is what is marshalled. *)
Theorem C7_auth_failure (self : ptr) (client client1 : clientType)
    (reqTransJson : bytes) (reqTrans : RequestTransaction) (req : Request)
    (resPayload : option payloadT) (err : goerror) (called : list event) :
  json_Unmarshal reqTransJson = inr reqTrans →
  Requests reqTrans = [req] →
  Ressource req = "auth" →
  CheckByHost (address client) = false →
  authSwitch req client = (resPayload, Some err, client1, called) →
  let r := handleTransaction self client reqTransJson in
  let resTrans :=
    {| Res_TransactionNr := Req_TransactionNr reqTrans;
       Res_Error := if CheckForLicenseErrCode err then err_Error err else "AUTH_ERROR";
       Responses := [] |} in
  EvBadAttemptByHost (address client) ∈ effects r
  ∧ value (dispatch self client reqTransJson) = Marshal resTrans
  ∧ value r = (marshalResponse resTrans).1.
Proof.
  intros Hparse Hreqs Hres Hfree Hflow.
  pose proof (dispatch_auth self client reqTransJson reqTrans req
                Hparse Hreqs Hres Hfree) as Hd.
  pose proof (authSwitch_address req client) as Haddr.
  rewrite Hflow in Hd, Haddr. simpl in Hd, Haddr.
  assert (value (dispatch self client reqTransJson) = Marshal
    {| Res_TransactionNr := Req_TransactionNr reqTrans;
       Res_Error := if CheckForLicenseErrCode err then err_Error err else "AUTH_ERROR";
       Responses := [] |}) as Hstage by (by rewrite Hd).
  destruct (handleTransaction_marshal _ _ _ _ Hstage) as [Hval Heff].
  simpl. split; [| done].
  rewrite Heff, Hd, Haddr. simpl. present.
Qed.

(** C10: an authentication transaction on a host that is not blocked
    whose action is none of "token", "tokenFixed" and "user" is a
    success: no flow is called and no bad attempt is recorded, the error
    of the envelope is empty, the client is unchanged, and the envelope
    has exactly one response entry, whose payload is the JSON literal
    null. *)
Theorem C10_unknown_action (self : ptr) (client : clientType)
    (reqTransJson : bytes) (reqTrans : RequestTransaction) (req : Request) :
  json_Unmarshal reqTransJson = inr reqTrans →
  Requests reqTrans = [req] →
  Ressource req = "auth" →
  CheckByHost (address client) = false →
  Action req ≠ "token" → Action req ≠ "tokenFixed" → Action req ≠ "user" →
  let r := handleTransaction self client reqTransJson in
  let resTrans :=
    {| Res_TransactionNr := Req_TransactionNr reqTrans;
       Res_Error := "";
       Responses := [{| Res_Payload := "null" |}] |} in
  value (dispatch self client reqTransJson) = Marshal resTrans
  ∧ value r = (marshalResponse resTrans).1
  ∧ client_after r = client
  ∧ effects r =
      [EvAcquire; EvLog LogInfo "TRANSACTION started"; EvCheckByHost (address client);
       EvLog LogInfo "authenticated client"]
        ++ (marshalResponse resTrans).2 ++ [EvRelease]
  ∧ (∀ host, EvBadAttemptByHost host ∉ effects r).
Proof.
  intros Hparse Hreqs Hres Hfree Htoken Hfixed Huser.
  pose proof (dispatch_auth self client reqTransJson reqTrans req
                Hparse Hreqs Hres Hfree) as Hd.
  unfold authSwitch in Hd.
  apply String.eqb_neq in Htoken, Hfixed, Huser.
  rewrite Htoken, Hfixed, Huser in Hd. simpl in Hd.
  assert (value (dispatch self client reqTransJson) = Marshal
    {| Res_TransactionNr := Req_TransactionNr reqTrans;
       Res_Error := "";
       Responses := [{| Res_Payload := "null" |}] |}) as Hstage by (by rewrite Hd).
  destruct (handleTransaction_marshal _ _ _ _ Hstage) as [Hval Heff].
  simpl. rewrite Heff, Hd. simpl.
  repeat split; try done.
  - unfold handleTransaction. rewrite Hd. simpl. by case_match.
  - intros host.
    destruct (marshalResponse_effects
      {| Res_TransactionNr := Req_TransactionNr reqTrans;
         Res_Error := "";
         Responses := [{| Res_Payload := "null" |}] |}) as [-> | ->]; absent.
Qed.

(** The two early returns of a valid transaction. *)
Lemma dispatch_blocked (self : ptr) (client : clientType) (reqTransJson : bytes)
    (reqTrans : RequestTransaction) :
  json_Unmarshal reqTransJson = inr reqTrans →
  authRequest reqTrans = true →
  CheckByHost (address client) = true →
  dispatch self client reqTransJson =
    mkRun (Left (Returned emptyObject)) client
      [EvLog LogInfo "TRANSACTION started"; EvCheckByHost (address client);
       EvClientDel self].
Proof.
  intros Hparse Hauth Hblocked.
  destruct (authRequest_first _ Hauth) as (req & Hfirst & _).
  unfold dispatch. by rewrite Hparse, Hauth, Hfirst, Hblocked.
Qed.

Lemma dispatch_fixedToken (self : ptr) (client : clientType) (reqTransJson : bytes)
    (reqTrans : RequestTransaction) :
  json_Unmarshal reqTransJson = inr reqTrans →
  authRequest reqTrans = false →
  fixedToken client = true →
  dispatch self client reqTransJson =
    mkRun (Left (Returned emptyObject)) client
      [EvLog LogInfo "TRANSACTION started"; EvLog LogWarning "blocked client request"].
Proof.
  intros Hparse Hauth Hfixed. unfold dispatch. by rewrite Hparse, Hauth, Hfixed.
Qed.

(** The envelope of an authentication transaction keeps the transaction
    number it starts with. *)
Lemma authResult_TransactionNr (client : clientType) (resTrans : ResponseTransaction)
    (resPayload : option payloadT) (err : option goerror) :
  Res_TransactionNr (authResult client resTrans resPayload err).1
  = Res_TransactionNr resTrans.
Proof. unfold authResult. repeat case_match; done. Qed.

(** C2, as the code has it: a request envelope that parses is answered
    either with the empty object, which carries no transaction number
    (a transaction that is not an authentication transaction on a
    fixed-token client, and an authentication transaction from a blocked
    host), or with what the final marshalling makes of a response
    envelope (the empty object again if it fails).  For an
    authentication transaction that envelope carries the transaction
    number of the request; for any other transaction it is the envelope
    that [request.ExecTransaction] returns, which was handed an envelope
    with the transaction number of the request. *)
Theorem C2_transaction_number (self : ptr) (client : clientType)
    (reqTransJson : bytes) (reqTrans : RequestTransaction) :
  json_Unmarshal reqTransJson = inr reqTrans →
  let r := handleTransaction self client reqTransJson in
  (value r = Returned emptyObject
   ∧ value (dispatch self client reqTransJson) = Left (Returned emptyObject)
   ∧ (authRequest reqTrans = false ∧ fixedToken client = true
      ∨ authRequest reqTrans = true ∧ CheckByHost (address client) = true))
  ∨ (∃ resTrans,
       value (dispatch self client reqTransJson) = Marshal resTrans
       ∧ value r = (marshalResponse resTrans).1
       ∧ (authRequest reqTrans = true →
          CheckByHost (address client) = false
          ∧ Res_TransactionNr resTrans = Req_TransactionNr reqTrans)
       ∧ (authRequest reqTrans = false →
          fixedToken client = false
          ∧ resTrans = ExecTransaction (ctx client) (loginId client) (admin client)
                         (noAuth client) reqTrans (resTrans_for reqTrans))).
Proof.
  intros Hparse r. subst r.
  destruct (authRequest reqTrans) eqn:Hauth.
  - destruct (CheckByHost (address client)) eqn:Hblocked.
    + left. pose proof (dispatch_blocked self client _ _ Hparse Hauth Hblocked) as Hd.
      unfold handleTransaction. rewrite Hd. simpl. auto.
    + right. destruct (proj1 (authRequest_single _) Hauth) as (req & Hreqs & Hres).
      pose proof (dispatch_auth self client _ _ _ Hparse Hreqs Hres Hblocked) as Hd.
      destruct (authSwitch req client) as [[[resPayload err] client1] called].
      pose proof (authResult_TransactionNr client1 (resTrans_for reqTrans)
                    resPayload err) as Hnr.
      destruct (authResult client1 (resTrans_for reqTrans) resPayload err)
        as [resTrans1 accounted].
      exists resTrans1.
      assert (value (dispatch self client reqTransJson) = Marshal resTrans1)
        as Hstage by (by rewrite Hd).
      destruct (handleTransaction_marshal _ _ _ _ Hstage) as [Hval _].
      repeat split; try done.
  - destruct (fixedToken client) eqn:Hfixed.
    + left. pose proof (dispatch_fixedToken self client _ _ Hparse Hauth Hfixed) as Hd.
      unfold handleTransaction. rewrite Hd. simpl. auto.
    + right. eexists.
      assert (value (dispatch self client reqTransJson) = Marshal
                (ExecTransaction (ctx client) (loginId client) (admin client)
                   (noAuth client) reqTrans (resTrans_for reqTrans))) as Hstage.
      { unfold dispatch. by rewrite Hparse, Hauth, Hfixed. }
      destruct (handleTransaction_marshal _ _ _ _ Hstage) as [Hval _].
      repeat split; try done.
Qed.

(** C1, as the code has it: an authentication transaction from a host
    that [bruteforce.CheckByHost] reports as blocked makes the dispatcher
    ask the hub to deregister the client and return at once, without
    calling an authentication flow and without recording a bad attempt;
    what it returns is the empty object, and the function started by
    [read] hands that to [write], which sends it if the transport still
    takes it and asks for deregistration again if not. *)
Theorem C1_blocked_host (ws_WriteMessage : ptr → bytes → bool)
    (self : ptr) (client : clientType)
    (reqTransJson : bytes) (reqTrans : RequestTransaction) :
  json_Unmarshal reqTransJson = inr reqTrans →
  authRequest reqTrans = true →
  CheckByHost (address client) = true →
  let r := handleTransaction self client reqTransJson in
  value r = Returned emptyObject
  ∧ client_after r = client
  ∧ effects r =
      [EvAcquire; EvLog LogInfo "TRANSACTION started"; EvCheckByHost (address client);
       EvClientDel self; EvRelease]
  ∧ effects (serve ws_WriteMessage self client reqTransJson) =
      effects r ++ EvWsWrite self emptyObject ::
        (if ws_WriteMessage self emptyObject then [] else [EvClientDel self]).
Proof.
  intros Hparse Hauth Hblocked.
  pose proof (dispatch_blocked self client _ _ Hparse Hauth Hblocked) as Hd.
  unfold serve, write, handleTransaction. rewrite Hd. simpl.
  repeat split; try done. by case_match.
Qed.

(** The body of the dispatcher never touches the limiter. *)
Lemma dispatch_no_limiter (self : ptr) (client : clientType) (reqTransJson : bytes) :
  (EvAcquire ∉ effects (dispatch self client reqTransJson))
  ∧ (EvRelease ∉ effects (dispatch self client reqTransJson)).
Proof.
  unfold dispatch, authSwitch, authResult.
  repeat case_match; simplify_eq/=; split; absent.
Qed.

(** A call of [handleTransaction] takes a slot first and gives it back
    last, and does nothing else with the limiter, whatever it returns. *)
Lemma handleTransaction_bracket (self : ptr) (client : clientType) (reqTransJson : bytes) :
  ∃ body, (effects (handleTransaction self client reqTransJson)
           = EvAcquire :: (body ++ [EvRelease]))
          ∧ (EvAcquire ∉ body) ∧ (EvRelease ∉ body).
Proof.
  destruct (dispatch_no_limiter self client reqTransJson) as [Hacq Hrel].
  unfold handleTransaction.
  destruct (value (dispatch self client reqTransJson)) as [o | resTrans].
  - by exists (effects (dispatch self client reqTransJson)).
  - pose proof (marshalResponse_effects resTrans) as Htail.
    destruct (marshalResponse resTrans) as [o tail]. simpl in *.
    exists (effects (dispatch self client reqTransJson) ++ tail).
    rewrite <- app_assoc. split; [done|].
    rewrite !elem_of_app. destruct Htail as [-> | ->]; split; intros [?|Hin]; try done;
      revert Hin; absent.
Qed.

End DispatcherFacts.

(** ** The dispatcher on the test double *)

Lemma C3_malformed_request_witness :
  value (@handleTransaction demo 1%positive demo_client "garbage") = Returned emptyObject
  ∧ client_after (@handleTransaction demo 1%positive demo_client "garbage") = demo_client
  ∧ effects (@handleTransaction demo 1%positive demo_client "garbage") =
      [EvAcquire; EvLog LogError "failed to unmarshal transaction"; EvRelease]
  ∧ (true = true →
     effects (@serve demo (λ _ _, true) 1%positive demo_client "garbage") =
       [EvAcquire; EvLog LogError "failed to unmarshal transaction"; EvRelease;
        EvWsWrite 1%positive emptyObject]).
Proof.
  exact (@C3_malformed_request demo (λ _ _, true) 1%positive demo_client "garbage"
           "invalid character" eq_refl).
Defined.

Lemma C4_fixed_token_request_witness :
  value (@handleTransaction demo 3%positive demo_fixed "data get") = Returned emptyObject
  ∧ loginId (client_after (@handleTransaction demo 3%positive demo_fixed "data get")) = 42
  ∧ admin (client_after (@handleTransaction demo 3%positive demo_fixed "data get")) = false
  ∧ client_after (@handleTransaction demo 3%positive demo_fixed "data get") = demo_fixed
  ∧ (∀ c rt, EvExecTransaction c rt
             ∉ effects (@handleTransaction demo 3%positive demo_fixed "data get"))
  ∧ (∀ p, EvClientDel p
          ∉ effects (@handleTransaction demo 3%positive demo_fixed "data get")).
Proof.
  exact (@C4_fixed_token_request demo 3%positive demo_fixed "data get"
           (demo_request "data" "get" "") eq_refl eq_refl eq_refl).
Defined.

Lemma C7_auth_failure_witness :
  EvBadAttemptByHost "198.51.100.4"
    ∈ effects (@handleTransaction demo 1%positive demo_client "auth user guess")
  ∧ value (@dispatch demo 1%positive demo_client "auth user guess") =
      Marshal {| Res_TransactionNr := 7; Res_Error := "AUTH_ERROR"; Responses := [] |}
  ∧ value (@handleTransaction demo 1%positive demo_client "auth user guess") =
      Returned "{transactionNr:7,error:AUTH_ERROR,responses:[]}".
Proof.
  exact (@C7_auth_failure demo 1%positive demo_client demo_client "auth user guess"
           (demo_request "auth" "user" "guess")
           {| Ressource := "auth"; Action := "user"; Payload := "guess" |}
           None "wrong password" [EvLoginAuthUser "guess"]
           eq_refl eq_refl eq_refl eq_refl eq_refl).
Defined.

(** A license error is handed to the client as it is, and counts as a bad
    attempt all the same. *)
Example license_error_is_surfaced :
  value (@handleTransaction demo 1%positive demo_client "auth tokenFixed") =
    Returned "{transactionNr:7,error:{ERR_LIC_001} no valid license,responses:[]}"
  ∧ effects (@handleTransaction demo 1%positive demo_client "auth tokenFixed") =
      [EvAcquire; EvLog LogInfo "TRANSACTION started"; EvCheckByHost "198.51.100.4";
       EvLoginAuthTokenFixed ""; EvLog LogWarning "failed to authenticate user";
       EvBadAttemptByHost "198.51.100.4"; EvRelease].
Proof. by vm_compute. Qed.

Lemma C10_unknown_action_witness :
  value (@dispatch demo 1%positive demo_client "auth ping") =
    Marshal {| Res_TransactionNr := 7; Res_Error := "";
               Responses := [{| Res_Payload := "null" |}] |}
  ∧ value (@handleTransaction demo 1%positive demo_client "auth ping") =
      Returned "{transactionNr:7,error:,responses:[null]}"
  ∧ client_after (@handleTransaction demo 1%positive demo_client "auth ping") = demo_client
  ∧ effects (@handleTransaction demo 1%positive demo_client "auth ping") =
      [EvAcquire; EvLog LogInfo "TRANSACTION started"; EvCheckByHost "198.51.100.4";
       EvLog LogInfo "authenticated client"; EvRelease]
  ∧ (∀ host, EvBadAttemptByHost host
             ∉ effects (@handleTransaction demo 1%positive demo_client "auth ping")).
Proof.
  refine (@C10_unknown_action demo 1%positive demo_client "auth ping"
            (demo_request "auth" "ping" "")
            {| Ressource := "auth"; Action := "ping"; Payload := "" |}
            eq_refl eq_refl eq_refl eq_refl _ _ _); discriminate.
Defined.

(** C2 fails as it is stated: the request "data get" parses, with
    transaction number 7, and a fixed-token client is answered with the
    empty object, which is not the marshalling of any envelope with that
    number. *)
Lemma C2_counterexample :
  @json_Unmarshal demo "data get" = inr (demo_request "data" "get" "")
  ∧ Req_TransactionNr (demo_request "data" "get" "") = 7
  ∧ value (@handleTransaction demo 3%positive demo_fixed "data get") = Returned "{}"
  ∧ ¬ @carriesTransactionNr demo "{}" 7.
Proof.
  repeat split. intros (resTrans & _ & Hm). discriminate Hm.
Qed.

Lemma C2_transaction_number_witness :
  value (@dispatch demo 1%positive demo_client "auth user secret") =
    Marshal {| Res_TransactionNr := 7; Res_Error := "";
               Responses := [{| Res_Payload := "token" |}] |}
  ∧ @carriesTransactionNr demo "{transactionNr:7,error:,responses:[token]}" 7
  ∧ value (@handleTransaction demo 1%positive demo_client "auth user secret") =
      Returned "{transactionNr:7,error:,responses:[token]}".
Proof.
  destruct (@C2_transaction_number demo 1%positive demo_client "auth user secret"
              (demo_request "auth" "user" "secret") eq_refl)
    as [(_ & Hleft & _) | (resTrans & Hstage & Hval & Hauth & _)].
  - discriminate Hleft.
  - destruct (Hauth eq_refl) as [_ Hnr].
    injection Hstage as <-.
    repeat split. by eexists.
Defined.

(** C1 fails as it is stated: the host 203.0.113.9 is blocked, and the
    empty object that the dispatcher returns for its authentication
    transaction is written to the connection when the transport still
    takes the write. *)
Lemma C1_counterexample :
  @json_Unmarshal demo "auth user secret" = inr (demo_request "auth" "user" "secret")
  ∧ authRequest (demo_request "auth" "user" "secret") = true
  ∧ @CheckByHost demo (address demo_blocked) = true
  ∧ effects (@serve demo (λ _ _, true) 2%positive demo_blocked "auth user secret") =
      [EvAcquire; EvLog LogInfo "TRANSACTION started"; EvCheckByHost "203.0.113.9";
       EvClientDel 2%positive; EvRelease; EvWsWrite 2%positive "{}"]
  ∧ EvWsWrite 2%positive "{}"
      ∈ effects (@serve demo (λ _ _, true) 2%positive demo_blocked "auth user secret").
Proof.
  repeat split. apply list_elem_of_In. vm_compute. intuition.
Qed.

Lemma C1_blocked_host_witness :
  value (@handleTransaction demo 2%positive demo_blocked "auth user secret")
    = Returned emptyObject
  ∧ client_after (@handleTransaction demo 2%positive demo_blocked "auth user secret")
    = demo_blocked
  ∧ effects (@handleTransaction demo 2%positive demo_blocked "auth user secret") =
      [EvAcquire; EvLog LogInfo "TRANSACTION started"; EvCheckByHost "203.0.113.9";
       EvClientDel 2%positive; EvRelease]
  ∧ effects (@serve demo (λ _ _, false) 2%positive demo_blocked "auth user secret") =
      [EvAcquire; EvLog LogInfo "TRANSACTION started"; EvCheckByHost "203.0.113.9";
       EvClientDel 2%positive; EvRelease; EvWsWrite 2%positive emptyObject;
       EvClientDel 2%positive].
Proof.
  exact (@C1_blocked_host demo (λ _ _, false) 2%positive demo_blocked "auth user secret"
           (demo_request "auth" "user" "secret") eq_refl eq_refl eq_refl).
Defined.

(** * Properties of the hub *)

Section HubFacts.

Context `{Collaborators}.
Variable json_Marshal_payload : unreqPayload → goerror + bytes.
Variable json_Marshal_unreq : UnreqResponseTransaction → goerror + bytes.
Variable mem : ptr → clientType.
Variable rangeOrder : gmap ptr bool → list ptr.

Local Abbreviation visit := (visit mem).
Local Abbreviation rangeClients := (rangeClients mem rangeOrder).
Local Abbreviation hub_step :=
  (hub_step json_Marshal_payload json_Marshal_unreq mem rangeOrder).
Local Abbreviation hub_run :=
  (hub_run json_Marshal_payload json_Marshal_unreq mem rangeOrder).
Local Abbreviation render := (render json_Marshal_payload json_Marshal_unreq).
Local Abbreviation prepareUnrequested :=
  (prepareUnrequested json_Marshal_payload json_Marshal_unreq).

(** *** Removal *)

(** Deregistration is idempotent: a client that is not in the map leaves
    the hub as it is and nothing is published. *)
Lemma removeClient_absent (h : hubType) (client : ptr) :
  clients h !! client = None → removeClient h client = (h, []).
Proof. intros Hnone. unfold removeClient. by rewrite Hnone. Qed.

Lemma removeClient_present (h : hubType) (client : ptr) (b : bool) :
  clients h !! client = Some b →
  removeClient h client =
    ({| clients := delete client (clients h) |},
     [HubLog LogInfo "disconnecting client";
      HubCloseMessage client; HubWsClose client; HubCtxCancel client;
      HubSetWebsocketClientCount (size (delete client (clients h)))]).
Proof. intros Hsome. unfold removeClient. by rewrite Hsome. Qed.

Lemma removeClient_lookup (h : hubType) (client p : ptr) :
  clients (removeClient h client).1 !! p =
    if bool_decide (p = client) then None else clients h !! p.
Proof.
  unfold removeClient. case_bool_decide as Hp.
  - subst p. destruct (clients h !! client) eqn:Hc; simpl; [|done].
    apply lookup_delete_eq.
  - destruct (clients h !! client) eqn:Hc; simpl; [|done].
    by apply lookup_delete_ne.
Qed.

(** *** The range over the clients *)

(** The login filter is what the loop skips on. *)
Lemma skipped_loginMatch (event : ClusterEvent) (client : ptr) :
  negb (skipped mem event client) = loginMatch mem event client.
Proof.
  unfold skipped, loginMatch.
  by destruct (LoginId event =? 0), (LoginId event =? loginId (mem client)).
Qed.

(** One turn of the loop removes the client it visits, and only that
    one, when the client passes the login filter and is to be kicked. *)
Lemma visit_lookup (event : ClusterEvent) (jsonMsg : bytes)
    (acc : hubType * list hubEffect) (client p : ptr) :
  clients (visit event jsonMsg acc client).1 !! p =
    if bool_decide (p = client) && loginMatch mem event client
         && kicked mem event client
    then None else clients acc.1 !! p.
Proof.
  rewrite <- skipped_loginMatch. unfold visit.
  destruct acc as [h done]. simpl.
  destruct (clients h !! client) eqn:Hc.
  - destruct (skipped mem event client); simpl.
    + by rewrite andb_false_r.
    + rewrite andb_true_r. destruct (kicked mem event client).
      * rewrite andb_true_r. pose proof (removeClient_lookup h client p) as Hl.
        destruct (removeClient h client) as [h' removed]. done.
      * by rewrite andb_false_r.
  - case_bool_decide as Hp; simpl; [|done]. subst p.
    by destruct (_ && _).
Qed.

Lemma foldl_visit_lookup (event : ClusterEvent) (jsonMsg : bytes) (order : list ptr)
    (acc : hubType * list hubEffect) (p : ptr) :
  clients (foldl (visit event jsonMsg) acc order).1 !! p =
    if bool_decide (p ∈ order) && loginMatch mem event p && kicked mem event p
    then None else clients acc.1 !! p.
Proof.
  revert acc. induction order as [|client order IH]; intros acc; simpl.
  - done.
  - rewrite IH, visit_lookup.
    destruct (decide (p = client)) as [-> | Hne].
    + rewrite (bool_decide_eq_true_2 (client = client)) by done.
      rewrite (bool_decide_eq_true_2 (client ∈ client :: order)) by apply list_elem_of_here.
      by destruct (bool_decide (client ∈ order)), (loginMatch mem event client),
           (kicked mem event client).
    + rewrite (bool_decide_eq_false_2 (p = client)) by done. simpl.
      assert (bool_decide (p ∈ client :: order) = bool_decide (p ∈ order)) as ->.
      { apply bool_decide_ext. rewrite elem_of_cons.
        split; [by intros [?|?] | by right]. }
      done.
Qed.

(** The keys that a range produces are the keys of the map, each once. *)
Lemma rangeOrder_keys (m : gmap ptr bool) (p : ptr) :
  rangeOrder m ≡ₚ (map_to_list m).*1 →
  p ∈ rangeOrder m ↔ is_Some (m !! p).
Proof.
  intros Hperm. rewrite Hperm, list_elem_of_fmap. split.
  - intros ([k b] & -> & Hin). apply elem_of_map_to_list in Hin. by exists b.
  - intros [b Hb]. exists (p, b). split; [done|]. by apply elem_of_map_to_list.
Qed.

Lemma rangeOrder_NoDup (m : gmap ptr bool) :
  rangeOrder m ≡ₚ (map_to_list m).*1 → NoDup (rangeOrder m).
Proof. intros ->. apply NoDup_fst_map_to_list. Qed.

(** A removal hands nothing to a writer and renders nothing. *)
Lemma removeClient_quiet (h : hubType) (client : ptr) :
  handed (removeClient h client).2 = [] ∧ rendered (removeClient h client).2 = [].
Proof. unfold removeClient. by case_match. Qed.

Lemma handed_app (tr1 tr2 : list hubEffect) :
  handed (tr1 ++ tr2) = handed tr1 ++ handed tr2.
Proof. apply omap_app. Qed.

Lemma rendered_app (tr1 tr2 : list hubEffect) :
  rendered (tr1 ++ tr2) = rendered tr1 ++ rendered tr2.
Proof. apply omap_app. Qed.

(** One turn of the range of a kick event hands nothing to a writer and
    renders nothing, and so does the whole range. *)
Lemma visit_kick_quiet (event : ClusterEvent) (jsonMsg : bytes)
    (acc : hubType * list hubEffect) (client : ptr) :
  Kick event || KickNonAdmin event = true →
  handed (visit event jsonMsg acc client).2 = handed acc.2
  ∧ rendered (visit event jsonMsg acc client).2 = rendered acc.2.
Proof.
  intros Hkick. unfold visit. destruct acc as [h done].
  rewrite Hkick. simpl.
  destruct (clients h !! client); [|done].
  destruct (skipped mem event client); [done|].
  destruct (kicked mem event client); [|by rewrite app_nil_r].
  pose proof (removeClient_quiet h client) as [Hh Hr].
  destruct (removeClient h client) as [h' removed]. simpl in *.
  rewrite handed_app, rendered_app. simpl.
  rewrite Hh, Hr. by rewrite !app_nil_r.
Qed.

Lemma foldl_visit_kick_quiet (event : ClusterEvent) (jsonMsg : bytes)
    (order : list ptr) (acc : hubType * list hubEffect) :
  Kick event || KickNonAdmin event = true →
  handed (foldl (visit event jsonMsg) acc order).2 = handed acc.2
  ∧ rendered (foldl (visit event jsonMsg) acc order).2 = rendered acc.2.
Proof.
  intros Hkick. revert acc. induction order as [|client order IH]; intros acc; simpl.
  - done.
  - destruct (IH (visit event jsonMsg acc client)) as [-> ->].
    by apply visit_kick_quiet.
Qed.

(** C5: a cluster event with the kick flag or the kick-non-admin flag
    removes from the live set exactly the clients that pass the login
    filter of the event (every client when the login of the event is 0,
    else the clients of that login) and, when only the kick-non-admin
    flag is set, are not admins; every other client stays as it is, and
    nothing is rendered or handed to a writer. *)
Theorem C5_kick (h : hubType) (event : ClusterEvent) :
  rangeOrder (clients h) ≡ₚ (map_to_list (clients h)).*1 →
  Kick event || KickNonAdmin event = true →
  let after := hub_step h (WebsocketClientEvent event) in
  (∀ p, clients after.1 !! p =
        if ((LoginId event =? 0) || (LoginId event =? loginId (mem p)))
           && (Kick event || negb (admin (mem p)))
        then None else clients h !! p)
  ∧ handed after.2 = []
  ∧ rendered after.2 = [].
Proof.
  intros Hperm Hkick. simpl. unfold clusterEvent. rewrite Hkick. simpl.
  unfold rangeClients. split.
  - intros p. rewrite foldl_visit_lookup. simpl.
    fold (loginMatch mem event p).
    assert (kicked mem event p = (Kick event || negb (admin (mem p)))) as ->.
    { unfold kicked. by destruct (Kick event), (KickNonAdmin event), (admin (mem p)). }
    destruct (decide (p ∈ rangeOrder (clients h))) as [Hin | Hout].
    + by rewrite (bool_decide_eq_true_2 _ Hin).
    + rewrite (bool_decide_eq_false_2 _ Hout). simpl.
      rewrite (rangeOrder_keys _ _ Hperm) in Hout.
      apply eq_None_not_Some in Hout. rewrite Hout. by case_match.
  - by apply (foldl_visit_kick_quiet event "" _ (h, [])).
Qed.

(** *** Broadcasts *)

(** The hub renders once for every notification that the event carries,
    in their order. *)
Lemma render_rendered (event : ClusterEvent) :
  rendered (render event).2 = (notifications event).*1.
Proof.
  unfold render, notifications, renderIf.
  by destruct (negb (CollectionChanged event =? uuid_Nil)%N), (ConfigChanged event),
    (negb (FilesCopiedAttributeId event =? uuid_Nil)%N),
    (negb (FileRequestedAttributeId event =? uuid_Nil)%N),
    (Renew event), (SchemaLoading event), (SchemaLoaded event).
Qed.

(** For an event that carries one notification, the rendering is the one
    call of [prepareUnrequested] for it. *)
Lemma render_single (event : ClusterEvent) (ressource : string) (payload : unreqPayload) :
  notifications event = [(ressource, payload)] →
  render event =
    ((prepareUnrequested ressource payload).1, (prepareUnrequested ressource payload).2,
     [HubPrepareUnrequested ressource]).
Proof.
  unfold render, notifications, renderIf.
  destruct (negb (CollectionChanged event =? uuid_Nil)%N), (ConfigChanged event),
    (negb (FilesCopiedAttributeId event =? uuid_Nil)%N),
    (negb (FileRequestedAttributeId event =? uuid_Nil)%N),
    (Renew event), (SchemaLoading event), (SchemaLoaded event);
    simpl; intros Hn; try discriminate Hn; by simplify_eq.
Qed.

(** The range of an event without kick flag leaves the hub as it is and
    hands the message to the clients that pass the login filter, in the
    order of the range. *)
Lemma foldl_visit_broadcast (event : ClusterEvent) (jsonMsg : bytes)
    (order : list ptr) (h : hubType) (done : list hubEffect) :
  Kick event || KickNonAdmin event = false →
  (∀ p, p ∈ order → is_Some (clients h !! p)) →
  foldl (visit event jsonMsg) (h, done) order =
    (h, done ++ ((λ p, HubGoWrite p jsonMsg)
                   <$> filter (λ p, loginMatch mem event p = true) order)).
Proof.
  intros Hkick. revert done.
  induction order as [|client order IH]; intros done Hkeys.
  - simpl. by rewrite app_nil_r.
  - cbn [foldl]. destruct (Hkeys client) as [b Hb]; [apply list_elem_of_here|].
    assert (visit event jsonMsg (h, done) client =
            (h, done ++ if loginMatch mem event client
                        then [HubGoWrite client jsonMsg] else [])) as ->.
    { unfold visit, kicked. rewrite Hb, Hkick.
      rewrite <- skipped_loginMatch.
      apply orb_false_iff in Hkick as [-> ->]. simpl.
      destruct (skipped mem event client); simpl; [by rewrite app_nil_r | done]. }
    rewrite IH by (intros p Hp; apply Hkeys; by apply list_elem_of_further).
    rewrite filter_cons. f_equal.
    destruct (loginMatch mem event client) eqn:Hm.
    + rewrite decide_True by done. by rewrite <- app_assoc.
    + rewrite decide_False by (by intros ?). by rewrite app_nil_r.
Qed.

Lemma handed_fmap_GoWrite (jsonMsg : bytes) (l : list ptr) :
  handed ((λ p, HubGoWrite p jsonMsg) <$> l) = (λ p, (p, jsonMsg)) <$> l.
Proof. induction l as [|p l IH]; simpl; [done|]. unfold handed in *. simpl. by f_equal. Qed.

Lemma rendered_fmap_GoWrite (jsonMsg : bytes) (l : list ptr) :
  rendered ((λ p, HubGoWrite p jsonMsg) <$> l) = [].
Proof. induction l as [|p l IH]; simpl; done. Qed.

(** C6, as the code has it: for an event without kick flag that carries
    exactly one notification, the hub renders the message exactly once,
    whatever the live set is, and leaves the live set as it is.  When
    the rendering succeeds, the rendered bytes are handed to the writer
    of every client that passes the login filter, once each, and to no
    other client; when it fails, the error is logged and nothing is
    handed to any client. *)
Theorem C6_broadcast (h : hubType) (event : ClusterEvent)
    (ressource : string) (payload : unreqPayload) :
  rangeOrder (clients h) ≡ₚ (map_to_list (clients h)).*1 →
  Kick event || KickNonAdmin event = false →
  notifications event = [(ressource, payload)] →
  let after := hub_step h (WebsocketClientEvent event) in
  after.1 = h
  ∧ rendered after.2 = [ressource]
  ∧ match (prepareUnrequested ressource payload).2 with
    | Some _ =>
        after.2 = [HubPrepareUnrequested ressource;
                   HubLog LogError "could not prepare unrequested transaction"]
        ∧ handed after.2 = []
    | None =>
        handed after.2 =
          (λ p, (p, (prepareUnrequested ressource payload).1))
            <$> filter (λ p, loginMatch mem event p = true) (rangeOrder (clients h))
        ∧ NoDup (handed after.2)
        ∧ (∀ p message,
             (p, message) ∈ handed after.2 ↔
             is_Some (clients h !! p)
             ∧ ((LoginId event =? 0) || (LoginId event =? loginId (mem p))) = true
             ∧ message = (prepareUnrequested ressource payload).1)
    end.
Proof.
  intros Hperm Hkick Hone. simpl. unfold clusterEvent. rewrite Hkick. simpl.
  rewrite (render_single _ _ _ Hone).
  destruct (prepareUnrequested ressource payload) as [jsonMsg [err|]] eqn:Hprep; simpl.
  - done.
  - unfold rangeClients.
    rewrite (foldl_visit_broadcast event jsonMsg _ h [] Hkick)
      by (intros p Hp; by apply (rangeOrder_keys _ _ Hperm)).
    simpl. rewrite rendered_fmap_GoWrite.
    change (handed (HubPrepareUnrequested ressource :: ?l)) with (handed l).
    rewrite handed_fmap_GoWrite.
    split; [done|]. split; [done|]. split; [done|]. split.
    + apply NoDup_fmap_2; [by intros ?? [=] |].
      apply NoDup_filter, (rangeOrder_NoDup _ Hperm).
    + intros p message. rewrite list_elem_of_fmap. split.
      * intros (q & Heq & [Hm Hin]%list_elem_of_filter). simplify_eq.
        split; [by apply (rangeOrder_keys _ _ Hperm) | done].
      * intros (Hsome & Hm & ->). exists p. split; [done|].
        apply list_elem_of_filter. split; [done|].
        by apply (rangeOrder_keys _ _ Hperm).
Qed.

(** *** The connection count *)

Lemma hub_run_cons (h : hubType) (m : hubMsg) (rest : list hubMsg) :
  hub_run h (m :: rest) =
    ((hub_run (hub_step h m).1 rest).1,
     (hub_step h m).2 ++ (hub_run (hub_step h m).1 rest).2).
Proof.
  simpl. destruct (hub_step h m) as [h1 tr1]. simpl.
  by destruct (hub_run h1 rest).
Qed.

Lemma published_app (tr1 tr2 : list hubEffect) :
  published (tr1 ++ tr2) = published tr1 ++ published tr2.
Proof. apply omap_app. Qed.

(** Registrations of clients that are not yet live and deregistrations
    of clients that are live: the live set grows by the ones and shrinks
    by the others. *)
Lemma hub_run_size (h : hubType) (msgs : list hubMsg) :
  Forall (λ m, isRegistration m = true) msgs →
  NoDup (registrations msgs) →
  NoDup (deregistrations msgs) →
  (∀ client, client ∈ registrations msgs → clients h !! client = None) →
  (∀ before client rest, msgs = before ++ ClientDel client :: rest →
     is_Some (clients h !! client) ∨ client ∈ registrations before) →
  (size (clients (hub_run h msgs).1) + length (deregistrations msgs)
   = size (clients h) + length (registrations msgs))%nat.
Proof.
  intros Hreg. revert h.
  induction Hreg as [|m rest Hm _ IH]; intros h Hadds Hdels Hfresh Hlive.
  - simpl. lia.
  - rewrite hub_run_cons. cbn [fst].
    destruct m as [client | client | event]; [| | done].
    + (* a registration *)
      change (registrations (ClientAdd client :: rest))
        with (client :: registrations rest) in *.
      change (deregistrations (ClientAdd client :: rest))
        with (deregistrations rest) in *.
      apply NoDup_cons in Hadds as [Hnew Hadds].
      cbn [length]. rewrite IH; try done.
      * simpl. rewrite map_size_insert_None by (apply Hfresh, list_elem_of_here). lia.
      * intros c Hc. simpl. rewrite lookup_insert_ne by (by intros ->).
        by apply Hfresh, list_elem_of_further.
      * intros before c rest' ->. simpl.
        destruct (Hlive (ClientAdd client :: before) c rest' eq_refl) as [Hsome | Hin].
        -- left. destruct (decide (client = c)) as [-> | Hne].
           ++ rewrite lookup_insert_eq. by eexists.
           ++ by rewrite lookup_insert_ne.
        -- change (registrations (ClientAdd client :: before))
             with (client :: registrations before) in Hin.
           apply elem_of_cons in Hin as [-> | Hin]; [|by right].
           left. rewrite lookup_insert_eq. by eexists.
    + (* a deregistration *)
      change (registrations (ClientDel client :: rest))
        with (registrations rest) in *.
      change (deregistrations (ClientDel client :: rest))
        with (client :: deregistrations rest) in *.
      apply NoDup_cons in Hdels as [Hnew Hdels].
      destruct (Hlive [] client rest eq_refl) as [[b Hb] | Hin];
        [| by apply elem_of_nil in Hin].
      change (hub_step h (ClientDel client)) with (removeClient h client).
      rewrite (removeClient_present _ _ _ Hb). cbn [fst length].
      pose proof (map_size_delete_Some client (clients h) (mk_is_Some _ _ Hb)) as Hsize.
      pose proof (map_size_ne_0_lookup_2 (clients h) client (mk_is_Some _ _ Hb)) as Hpos.
      specialize (IH {| clients := delete client (clients h) |} Hadds Hdels).
      simpl in IH. rewrite Hsize in IH.
      cut (size (clients
             (hub_run {| clients := delete client (clients h) |} rest).1)
           + length (deregistrations rest)
           = pred (size (clients h)) + length (registrations rest))%nat; [lia|].
      apply IH.
      * intros c Hc. rewrite lookup_delete. case_decide; [done | by apply Hfresh].
      * intros before c rest' ->.
        assert (c ≠ client) as Hne.
        { intros ->. apply Hnew. unfold deregistrations. rewrite omap_app.
          apply elem_of_app. right. simpl. apply list_elem_of_here. }
        destruct (Hlive (ClientDel client :: before) c rest' eq_refl) as [Hsome | Hin].
        -- left. by rewrite lookup_delete_ne.
        -- by right.
Qed.

End HubFacts.

(** ** The hub on the test double *)

Lemma C5_kick_witness :
  let after :=
    demo_hub_step demo_hub (WebsocketClientEvent (demo_event 5 false true false false false)) in
  (∀ p, clients after.1 !! p =
        if ((5 =? 0) || (5 =? loginId (demo_mem p))) && (false || negb (admin (demo_mem p)))
        then None else clients demo_hub !! p)
  ∧ handed after.2 = []
  ∧ rendered after.2 = [].
Proof.
  exact (@C5_kick demo demo_Marshal_payload demo_Marshal_unreq demo_mem demo_rangeOrder
           demo_hub (demo_event 5 false true false false false)
           (reflexivity _) eq_refl).
Defined.

(** Of the clients of login 5, the kick of the non-admins removes the user
    and keeps the admin; the client of login 9 stays. *)
Example kick_non_admin_of_login_5 :
  map_to_list
    (clients (demo_hub_step demo_hub
                (WebsocketClientEvent (demo_event 5 false true false false false))).1)
  = [(3%positive, true); (1%positive, true)].
Proof. by vm_compute. Qed.

Lemma C6_broadcast_witness :
  let after :=
    demo_hub_step demo_hub (WebsocketClientEvent (demo_event 5 false false true false false)) in
  after.1 = demo_hub
  ∧ rendered after.2 = ["config_changed"]
  ∧ handed after.2 =
      [(2%positive,
        "{transactionNr:0,responses:[{ressource:config_changed,payload:null,result:OK}]}");
       (1%positive,
        "{transactionNr:0,responses:[{ressource:config_changed,payload:null,result:OK}]}")].
Proof.
  destruct (@C6_broadcast demo demo_Marshal_payload demo_Marshal_unreq demo_mem
              demo_rangeOrder demo_hub (demo_event 5 false false true false false)
              "config_changed" PayNil (reflexivity _) eq_refl eq_refl)
    as (Hhub & Hrendered & Hhanded & _).
  split; [exact Hhub|]. split; [exact Hrendered|]. exact Hhanded.
Defined.

(** C6 fails as it is stated: an event without kick flag that carries no
    notification is not rendered at all, and the empty message is handed
    to the clients that pass the login filter; an event that carries two
    notifications is rendered twice. *)
Lemma C6_counterexample :
  let quiet :=
    demo_hub_step demo_hub (WebsocketClientEvent (demo_event 5 false false false false false)) in
  let double :=
    demo_hub_step demo_hub (WebsocketClientEvent (demo_event 5 false false true true false)) in
  rendered quiet.2 = []
  ∧ handed quiet.2 = [(2%positive, ""); (1%positive, "")]
  ∧ rendered double.2 = ["config_changed"; "reauthorized"].
Proof. by vm_compute. Qed.

(** * Properties of the limiter *)

Section LimiterFacts.

(** Replacing the place of one call changes the number of calls in
    processing by what the old and the new place count. *)
Lemma processing_insert (l : list callState) (i : nat) (c c' : callState) :
  l !! i = Some c →
  (length (filter (λ c, isProcessing c = true) (<[i := c']> l)) + Nat.b2n (isProcessing c)
   = length (filter (λ c, isProcessing c = true) l) + Nat.b2n (isProcessing c'))%nat.
Proof.
  revert i. induction l as [|x l IH]; intros i Hi; [done|].
  destruct i as [|i]; simpl in *.
  - simplify_eq. rewrite !filter_cons.
    destruct (isProcessing c) eqn:Hc, (isProcessing c') eqn:Hc';
      repeat case_decide; simpl; try congruence; lia.
  - specialize (IH i Hi). rewrite !filter_cons.
    case_decide; simpl; lia.
Qed.

Lemma limiterStep_inv (s s' : limiterSystem) (a : limiterAction) :
  limiterInv s → limiterStep s a = Some s' → limiterInv s'.
Proof.
  unfold limiterInv, inProcessing. intros [Hcount Hcap] Hstep.
  destruct a as [| i | i o]; simpl in Hstep.
  - simplify_eq/=. rewrite filter_app, length_app. simpl. split; [lia | done].
  - destruct (calls s !! i) as [[| |]|] eqn:Hi; try done.
    case_match eqn:Hfree; [|done]. simplify_eq/=.
    apply Nat.ltb_lt in Hfree.
    pose proof (processing_insert _ _ _ Processing Hi) as Hins. simpl in Hins.
    rewrite length_app. simpl. split; lia.
  - destruct (calls s !! i) as [[| |]|] eqn:Hi; try done.
    destruct (hubRequestLimit s) as [|b rest] eqn:Hbuf; [done|]. simplify_eq/=.
    pose proof (processing_insert _ _ _ (Exited o) Hi) as Hins. simpl in Hins.
    split; lia.
Qed.

Lemma limiterRun_inv (acts : list limiterAction) (s s' : limiterSystem) :
  limiterInv s → limiterRun s acts = Some s' → limiterInv s'.
Proof.
  revert s. induction acts as [|a acts IH]; intros s Hinv Hrun; simpl in Hrun.
  - by simplify_eq.
  - destruct (limiterStep s a) as [s1|] eqn:Hstep; [|done].
    eapply IH; [|done]. by eapply limiterStep_inv.
Qed.


End LimiterFacts.


(** With ten calls in processing the eleventh cannot take a slot; once
    one of the ten has ended, here by a panic, it can. *)
Example eleventh_call_waits :
  inProcessing demo_busy = 10%nat
  ∧ limiterStep demo_busy (Acquire 10) = None
  ∧ (∃ s', limiterStep demo_busy (Release 3 (Panicked "runtime error")) = Some s'
           ∧ inProcessing s' = 9%nat
           ∧ is_Some (limiterStep s' (Acquire 10))).
Proof.
  split; [by vm_compute|]. split; [by vm_compute|].
  eexists. split; [reflexivity|]. split; [by vm_compute|].
  vm_compute. by eexists.
Qed.

(** * Further properties of the dispatcher *)

Section DispatcherPaths.

Context `{Collaborators}.

(** The two paths that the earlier lemmas leave out. *)
Lemma dispatch_malformed (self : ptr) (client : clientType) (reqTransJson : bytes)
    (err : goerror) :
  json_Unmarshal reqTransJson = inl err →
  dispatch self client reqTransJson =
    mkRun (Left (Returned emptyObject)) client
      [EvLog LogError "failed to unmarshal transaction"].
Proof. intros Hparse. unfold dispatch. by rewrite Hparse. Qed.

Lemma dispatch_exec (self : ptr) (client : clientType) (reqTransJson : bytes)
    (reqTrans : RequestTransaction) :
  json_Unmarshal reqTransJson = inr reqTrans →
  authRequest reqTrans = false →
  fixedToken client = false →
  dispatch self client reqTransJson =
    mkRun
      (Marshal (ExecTransaction (ctx client) (loginId client) (admin client)
                  (noAuth client) reqTrans (resTrans_for reqTrans)))
      client
      [EvLog LogInfo "TRANSACTION started"; EvExecTransaction (ctx client) reqTrans].
Proof. intros Hparse Hauth Hfixed. unfold dispatch. by rewrite Hparse, Hauth, Hfixed. Qed.

(** The switch calls at most one flow and does nothing else. *)
Lemma authSwitch_called (req : Request) (client : clientType) :
  (authSwitch req client).2 = []
  ∨ ∃ e, (authSwitch req client).2 = [e] ∧ isFlow e = true.
Proof.
  unfold authSwitch. repeat case_match; simpl; eauto.
Qed.

(** What the switch can change of the client: never the address or the
    context; the flows for "token" and "user" not the fixed-token flag,
    the flow for "tokenFixed" neither the admin flag nor the no-auth flag,
    and any other action nothing at all. *)
Lemma authSwitch_frame (req : Request) (client : clientType) :
  let client1 := (authSwitch req client).1.2 in
  address client1 = address client
  ∧ ctx client1 = ctx client
  ∧ (Action req ≠ "tokenFixed" → fixedToken client1 = fixedToken client)
  ∧ (Action req = "tokenFixed" → admin client1 = admin client ∧ noAuth client1 = noAuth client)
  ∧ (Action req ≠ "token" → Action req ≠ "tokenFixed" → Action req ≠ "user" →
     authSwitch req client = (None, None, client, [])).
Proof.
  unfold authSwitch.
  destruct (String.eqb_spec (Action req) "token") as [Ht | Ht].
  { rewrite Ht. repeat case_match; simpl; repeat split; done. }
  destruct (String.eqb_spec (Action req) "tokenFixed") as [Hf | Hf].
  { repeat case_match; simpl; repeat split; done. }
  destruct (String.eqb_spec (Action req) "user") as [Hu | Hu].
  { repeat case_match; simpl; repeat split; done. }
  simpl. repeat split; done.
Qed.

(** What is accounted for after the switch. *)
Lemma authResult_accounted (client : clientType) (resTrans : ResponseTransaction)
    (resPayload : option payloadT) (err : option goerror) :
  (authResult client resTrans resPayload err).2 =
    match err with
    | Some _ => [EvLog LogWarning "failed to authenticate user";
                 EvBadAttemptByHost (address client)]
    | None => []
    end.
Proof. unfold authResult. by repeat case_match. Qed.

(** The events of a flow are none of the observed ones. *)
Lemma flow_unobserved (called : list event) :
  called = [] ∨ (∃ e, called = [e] ∧ isFlow e = true) →
  written called = [] ∧ badAttempts called = [] ∧ hostChecks called = []
  ∧ executed called = [] ∧ deregistrationsAsked called = [].
Proof.
  intros [-> | (e & -> & He)]; [done|]. by destruct e.
Qed.

Lemma written_app (tr1 tr2 : list event) :
  written (tr1 ++ tr2) = written tr1 ++ written tr2.
Proof. apply omap_app. Qed.

Lemma badAttempts_app (tr1 tr2 : list event) :
  badAttempts (tr1 ++ tr2) = badAttempts tr1 ++ badAttempts tr2.
Proof. apply omap_app. Qed.

Lemma hostChecks_app (tr1 tr2 : list event) :
  hostChecks (tr1 ++ tr2) = hostChecks tr1 ++ hostChecks tr2.
Proof. apply omap_app. Qed.

Lemma executed_app (tr1 tr2 : list event) :
  executed (tr1 ++ tr2) = executed tr1 ++ executed tr2.
Proof. apply omap_app. Qed.

Lemma deregistrationsAsked_app (tr1 tr2 : list event) :
  deregistrationsAsked (tr1 ++ tr2) = deregistrationsAsked tr1 ++ deregistrationsAsked tr2.
Proof. apply omap_app. Qed.

Lemma flowsCalled_app (tr1 tr2 : list event) :
  flowsCalled (tr1 ++ tr2) = flowsCalled tr1 ++ flowsCalled tr2.
Proof. apply filter_app. Qed.

(** The log line after the authentication branch and the events of the
    final marshalling are none of the observed ones either. *)
Lemma tail_unobserved (tail : list event) :
  tail = [] ∨ (∃ l msg, tail = [EvLog l msg]) →
  written tail = [] ∧ badAttempts tail = [] ∧ hostChecks tail = []
  ∧ executed tail = [] ∧ deregistrationsAsked tail = [] ∧ flowsCalled tail = [].
Proof. by intros [-> | (l & msg & ->)]. Qed.

Lemma marshalResponse_tail (resTrans : ResponseTransaction) :
  (marshalResponse resTrans).2 = []
  ∨ (∃ l msg, (marshalResponse resTrans).2 = [EvLog l msg]).
Proof. destruct (marshalResponse_effects resTrans) as [-> | ->]; eauto. Qed.

(** The five ways through [handleTransaction], with what each returns,
    leaves of the client and does. *)
Lemma handleTransaction_paths (self : ptr) (client : clientType) (reqTransJson : bytes) :
  let r := handleTransaction self client reqTransJson in
  (∃ err, json_Unmarshal reqTransJson = inl err
     ∧ value r = Returned emptyObject ∧ client_after r = client
     ∧ effects r = [EvAcquire; EvLog LogError "failed to unmarshal transaction";
                    EvRelease])
  ∨ (∃ reqTrans, json_Unmarshal reqTransJson = inr reqTrans
       ∧ authRequest reqTrans = false ∧ fixedToken client = true
       ∧ value r = Returned emptyObject ∧ client_after r = client
       ∧ effects r = [EvAcquire; EvLog LogInfo "TRANSACTION started";
                      EvLog LogWarning "blocked client request"; EvRelease])
  ∨ (∃ reqTrans, json_Unmarshal reqTransJson = inr reqTrans
       ∧ authRequest reqTrans = false ∧ fixedToken client = false
       ∧ value r =
           (marshalResponse
              (ExecTransaction (ctx client) (loginId client) (admin client)
                 (noAuth client) reqTrans (resTrans_for reqTrans))).1
       ∧ client_after r = client
       ∧ effects r =
           [EvAcquire; EvLog LogInfo "TRANSACTION started";
            EvExecTransaction (ctx client) reqTrans]
           ++ (marshalResponse
                 (ExecTransaction (ctx client) (loginId client) (admin client)
                    (noAuth client) reqTrans (resTrans_for reqTrans))).2
           ++ [EvRelease])
  ∨ (∃ reqTrans, json_Unmarshal reqTransJson = inr reqTrans
       ∧ authRequest reqTrans = true ∧ CheckByHost (address client) = true
       ∧ value r = Returned emptyObject ∧ client_after r = client
       ∧ effects r = [EvAcquire; EvLog LogInfo "TRANSACTION started";
                      EvCheckByHost (address client); EvClientDel self; EvRelease])
  ∨ (∃ reqTrans req, json_Unmarshal reqTransJson = inr reqTrans
       ∧ Requests reqTrans = [req] ∧ Ressource req = "auth"
       ∧ CheckByHost (address client) = false
       ∧ ∃ resTrans1 tail,
           resTrans1 =
             (authResult (authSwitch req client).1.2 (resTrans_for reqTrans)
                (authSwitch req client).1.1.1 (authSwitch req client).1.1.2).1
           ∧ (tail = [] ∨ ∃ l msg, tail = [EvLog l msg])
           ∧ value (dispatch self client reqTransJson) = Marshal resTrans1
           ∧ value r = (marshalResponse resTrans1).1
           ∧ client_after r = (authSwitch req client).1.2
           ∧ effects r =
               [EvAcquire; EvLog LogInfo "TRANSACTION started";
                EvCheckByHost (address client)]
               ++ (authSwitch req client).2
               ++ (authResult (authSwitch req client).1.2 (resTrans_for reqTrans)
                     (authSwitch req client).1.1.1 (authSwitch req client).1.1.2).2
               ++ tail ++ (marshalResponse resTrans1).2 ++ [EvRelease]).
Proof.
  cbn zeta.
  destruct (json_Unmarshal reqTransJson) as [perr | reqTrans] eqn:Hparse.
  { left. exists perr. unfold handleTransaction.
    rewrite (dispatch_malformed _ _ _ _ Hparse). by simpl. }
  right. destruct (authRequest reqTrans) eqn:Hauth.
  - right. right. destruct (CheckByHost (address client)) eqn:Hblocked.
    + left. exists reqTrans. unfold handleTransaction.
      rewrite (dispatch_blocked _ _ _ _ Hparse Hauth Hblocked). by simpl.
    + right. destruct (proj1 (authRequest_single reqTrans) Hauth) as (req & Hreqs & Hres).
      exists reqTrans, req. do 4 (split; [done|]).
      pose proof (dispatch_auth self client _ _ _ Hparse Hreqs Hres Hblocked) as Hd.
      destruct (authSwitch req client) as [[[resPayload err] client1] called]. simpl.
      destruct (authResult client1 (resTrans_for reqTrans) resPayload err)
        as [resTrans1 accounted]. simpl.
      exists resTrans1,
        (if String.eqb (Res_Error resTrans1) ""
         then [EvLog LogInfo "authenticated client"] else []).
      split; [done|]. split; [case_match; eauto|].
      assert (value (dispatch self client reqTransJson) = Marshal resTrans1)
        as Hstage by (by rewrite Hd).
      destruct (handleTransaction_marshal _ _ _ _ Hstage) as [Hval Heff].
      split; [done|]. split; [done|]. split.
      * unfold handleTransaction. rewrite Hd. cbn [value client_after].
        by destruct (marshalResponse resTrans1).
      * rewrite Heff, Hd. simpl. by rewrite <- !app_assoc.
  - destruct (fixedToken client) eqn:Hfixed.
    + left. exists reqTrans. unfold handleTransaction.
      rewrite (dispatch_fixedToken _ _ _ _ Hparse Hauth Hfixed). by simpl.
    + right. left. exists reqTrans.
      pose proof (dispatch_exec self client _ _ Hparse Hauth Hfixed) as Hd.
      assert (value (dispatch self client reqTransJson) = Marshal
                (ExecTransaction (ctx client) (loginId client) (admin client)
                   (noAuth client) reqTrans (resTrans_for reqTrans)))
        as Hstage by (by rewrite Hd).
      destruct (handleTransaction_marshal _ _ _ _ Hstage) as [Hval Heff].
      do 3 (split; [done|]). split; [done|]. split.
      * unfold handleTransaction. rewrite Hd. cbn [value client_after].
        by destruct (marshalResponse _).
      * by rewrite Heff, Hd.
Qed.

End DispatcherPaths.

Section DispatcherMore.

Context `{Collaborators}.

Lemma marshalResponse_returned (resTrans : ResponseTransaction) :
  ∃ response, (marshalResponse resTrans).1 = Returned response.
Proof. unfold marshalResponse. case_match; simpl; eauto. Qed.

(** What a call of the dispatcher lets observe, path by path: the
    observations of the authentication path are those of what is accounted
    for after the switch. *)
Lemma handleTransaction_observed (self : ptr) (client : clientType) (reqTransJson : bytes) :
  let tr := effects (handleTransaction self client reqTransJson) in
  written tr = []
  ∧ (∃ response, value (handleTransaction self client reqTransJson) = Returned response)
  ∧ ((badAttempts tr = [] ∧ flowsCalled tr = [])
     ∨ ∃ reqTrans req, json_Unmarshal reqTransJson = inr reqTrans
         ∧ Requests reqTrans = [req] ∧ Ressource req = "auth"
         ∧ CheckByHost (address client) = false
         ∧ flowsCalled tr = (authSwitch req client).2
         ∧ badAttempts tr =
             match (authSwitch req client).1.1.2 with
             | Some _ => [address client]
             | None => []
             end)
  ∧ (deregistrationsAsked tr = []
     ∨ ∃ reqTrans, json_Unmarshal reqTransJson = inr reqTrans
         ∧ authRequest reqTrans = true ∧ CheckByHost (address client) = true
         ∧ deregistrationsAsked tr = [self]).
Proof.
  cbn zeta.
  destruct (handleTransaction_paths self client reqTransJson)
    as [(perr & Hparse & Hval & Hcl & Heff)
       |[(reqTrans & Hparse & Hauth & Hfixed & Hval & Hcl & Heff)
        |[(reqTrans & Hparse & Hauth & Hfixed & Hval & Hcl & Heff)
         |[(reqTrans & Hparse & Hauth & Hblocked & Hval & Hcl & Heff)
          |(reqTrans & req & Hparse & Hreqs & Hres & Hfree & resTrans1 & tail
            & Hres1 & Htail & Hstage & Hval & Hcl & Heff)]]]];
    rewrite Heff, Hval.
  - repeat split; eauto.
  - repeat split; eauto.
  - destruct (tail_unobserved _ (marshalResponse_tail
        (ExecTransaction (ctx client) (loginId client) (admin client)
           (noAuth client) reqTrans (resTrans_for reqTrans))))
      as (Hw & Hb & _ & _ & Hd & Hf).
    rewrite !written_app, !badAttempts_app, !flowsCalled_app,
      !deregistrationsAsked_app, Hw, Hb, Hd, Hf.
    repeat split; eauto using marshalResponse_returned.
  - repeat split; eauto. right. exists reqTrans. eauto.
  - destruct (tail_unobserved _ (marshalResponse_tail resTrans1))
      as (Hw & Hb & _ & _ & Hd & Hf).
    destruct (tail_unobserved _ Htail) as (Hw' & Hb' & _ & _ & Hd' & Hf').
    destruct (flow_unobserved _ (authSwitch_called req client))
      as (Hw'' & Hb'' & _ & _ & Hd'').
    pose proof (authSwitch_address req client) as Haddr.
    rewrite authResult_accounted.
    rewrite !written_app, !badAttempts_app, !flowsCalled_app,
      !deregistrationsAsked_app, Hw, Hb, Hd, Hf, Hw', Hb', Hd', Hf', Hw'', Hb'', Hd''.
    assert (flowsCalled (authSwitch req client).2 = (authSwitch req client).2) as ->.
    { destruct (authSwitch_called req client) as [-> | (e & -> & He)]; [done|].
      unfold flowsCalled. rewrite filter_cons. by rewrite decide_True. }
    split; [by destruct (authSwitch req client).1.1.2|].
    split; [eauto using marshalResponse_returned|].
    split; [|left; by destruct (authSwitch req client).1.1.2].
    right. exists reqTrans, req. do 4 (split; [done|]).
    destruct (authSwitch req client).1.1.2; simpl; rewrite ?Haddr, ?app_nil_r; done.
Qed.

Lemma handleTransaction_client (self : ptr) (client : clientType) (reqTransJson : bytes) :
  client_after (handleTransaction self client reqTransJson)
  = client_after (dispatch self client reqTransJson).
Proof.
  unfold handleTransaction.
  destruct (value (dispatch self client reqTransJson)) as [o | resTrans]; [done|].
  by destruct (marshalResponse resTrans).
Qed.

(** One call of [ws.WriteMessage] for each message, after the slot of the
    limiter has been given back.  Where the calls of the collaborators
    and the sends on the channels return, as they do in this model, a
    call of the dispatcher returns a response: its own code does not
    panic, the index of the first request is only used when there is one.
    Its effects begin with taking the slot and end with giving it back,
    and a call of [ws.WriteMessage] is not among them.  The function that
    [read] starts then calls [ws.WriteMessage] once, with that response,
    on the connection the message came from; if the transport accepts
    the message nothing else happens, and if it refuses it the response
    is not written again and the client asks for its own
    deregistration. *)
Theorem reply_written_once_after_release (ws_WriteMessage : ptr → bytes → bool)
    (self : ptr) (client : clientType) (reqTransJson : bytes) :
  ∃ response body,
    value (handleTransaction self client reqTransJson) = Returned response
    ∧ effects (handleTransaction self client reqTransJson)
      = EvAcquire :: body ++ [EvRelease]
    ∧ written body = [] ∧ (EvAcquire ∉ body) ∧ (EvRelease ∉ body)
    ∧ value (serve ws_WriteMessage self client reqTransJson) = Returned response
    ∧ client_after (serve ws_WriteMessage self client reqTransJson)
      = client_after (handleTransaction self client reqTransJson)
    ∧ effects (serve ws_WriteMessage self client reqTransJson)
      = EvAcquire :: body
        ++ [EvRelease; EvWsWrite self response]
        ++ (if ws_WriteMessage self response then [] else [EvClientDel self]).
Proof.
  destruct (handleTransaction_observed self client reqTransJson)
    as (Hw & (response & Hval) & _).
  destruct (handleTransaction_bracket self client reqTransJson)
    as (body & Heff & Hacq & Hrel).
  exists response, body. split; [done|]. split; [done|].
  cbn zeta in Hw. rewrite Heff in Hw.
  change (EvAcquire :: body ++ [EvRelease]) with ([EvAcquire] ++ body ++ [EvRelease]) in Hw.
  rewrite !written_app in Hw. simpl in Hw. rewrite app_nil_r in Hw.
  split; [done|]. split; [done|]. split; [done|].
  unfold serve, write. rewrite Hval. simpl. split; [done|]. split; [done|].
  rewrite Heff. simpl. rewrite <- app_assoc. by case_match.
Qed.

(** A transaction is an authentication transaction only if it has exactly
    one request: with none or with several, even if they name the
    resource "auth", no authentication flow is called, the brute-force
    check is not consulted, the client stays as it is, and unless the
    client is a fixed-token client the transaction goes to
    [request.ExecTransaction] once, with the context, login, admin flag
    and no-auth flag of the client. *)
Theorem several_requests_never_authenticate (self : ptr) (client : clientType)
    (reqTransJson : bytes) (reqTrans : RequestTransaction) :
  json_Unmarshal reqTransJson = inr reqTrans →
  length (Requests reqTrans) ≠ 1%nat →
  let r := handleTransaction self client reqTransJson in
  flowsCalled (effects r) = []
  ∧ hostChecks (effects r) = []
  ∧ badAttempts (effects r) = []
  ∧ deregistrationsAsked (effects r) = []
  ∧ client_after r = client
  ∧ executed (effects r) =
      (if fixedToken client then [] else [(ctx client, reqTrans)])
  ∧ (fixedToken client = false →
     value (dispatch self client reqTransJson) =
       Marshal (ExecTransaction (ctx client) (loginId client) (admin client)
                  (noAuth client) reqTrans (resTrans_for reqTrans))).
Proof.
  intros Hparse Hlen. cbn zeta.
  assert (authRequest reqTrans = false) as Hauth.
  { destruct (authRequest reqTrans) eqn:Hauth; [|done].
    apply authRequest_single in Hauth as (req & Hreqs & _).
    rewrite Hreqs in Hlen. done. }
  destruct (fixedToken client) eqn:Hfixed.
  - pose proof (dispatch_fixedToken self client _ _ Hparse Hauth Hfixed) as Hd.
    unfold handleTransaction. rewrite Hd. simpl. repeat split; done.
  - pose proof (dispatch_exec self client _ _ Hparse Hauth Hfixed) as Hd.
    assert (value (dispatch self client reqTransJson) = Marshal
              (ExecTransaction (ctx client) (loginId client) (admin client)
                 (noAuth client) reqTrans (resTrans_for reqTrans)))
      as Hstage by (by rewrite Hd).
    destruct (handleTransaction_marshal _ _ _ _ Hstage) as [_ Heff].
    rewrite handleTransaction_client, Heff, Hd.
    destruct (tail_unobserved _ (marshalResponse_tail
        (ExecTransaction (ctx client) (loginId client) (admin client)
           (noAuth client) reqTrans (resTrans_for reqTrans))))
      as (_ & Hb & Hc & He & Hdel & Hf).
    rewrite !flowsCalled_app, !hostChecks_app, !badAttempts_app,
      !deregistrationsAsked_app, !executed_app, Hb, Hc, He, Hdel, Hf.
    repeat split; done.
Qed.

(** What an authentication can change of a client: never its address or
    its context; with the action "token" or "user" (or an unknown one) not
    the fixed-token flag, so a fixed-token client stays one whatever
    credentials it presents; with the action "tokenFixed" neither the
    admin flag nor the no-auth flag. *)
Theorem authentication_frame (self : ptr) (client : clientType)
    (reqTransJson : bytes) (reqTrans : RequestTransaction) (req : Request) :
  json_Unmarshal reqTransJson = inr reqTrans →
  Requests reqTrans = [req] →
  Ressource req = "auth" →
  let after := client_after (handleTransaction self client reqTransJson) in
  address after = address client
  ∧ ctx after = ctx client
  ∧ (Action req ≠ "tokenFixed" → fixedToken after = fixedToken client)
  ∧ (Action req = "tokenFixed" → admin after = admin client ∧ noAuth after = noAuth client)
  ∧ (CheckByHost (address client) = true → after = client).
Proof.
  intros Hparse Hreqs Hres. cbn zeta. rewrite handleTransaction_client.
  assert (authRequest reqTrans = true) as Hauth by (apply authRequest_single; eauto).
  destruct (CheckByHost (address client)) eqn:Hblocked.
  - rewrite (dispatch_blocked _ _ _ _ Hparse Hauth Hblocked). simpl.
    repeat split; done.
  - pose proof (dispatch_auth self client _ _ _ Hparse Hreqs Hres Hblocked) as Hd.
    pose proof (authSwitch_frame req client) as (Ha & Hc & Hf & Hn & _).
    destruct (authSwitch req client) as [[[resPayload err] client1] called].
    destruct (authResult client1 (resTrans_for reqTrans) resPayload err)
      as [resTrans1 accounted].
    rewrite Hd. simpl in *. repeat split; try done; by apply Hn.
Qed.

(** A successful authentication: when the flow returns no error and its
    payload can be marshalled, the envelope carries the transaction number
    of the request, no error and the marshalled payload as its one
    response; the client is as the flow left it and no bad attempt is
    recorded. *)
Theorem authentication_success (self : ptr) (client client1 : clientType)
    (reqTransJson : bytes) (reqTrans : RequestTransaction) (req : Request)
    (resPayload : option payloadT) (called : list event) (payloadJson : bytes) :
  json_Unmarshal reqTransJson = inr reqTrans →
  Requests reqTrans = [req] →
  Ressource req = "auth" →
  CheckByHost (address client) = false →
  authSwitch req client = (resPayload, None, client1, called) →
  json_Marshal resPayload = inr payloadJson →
  let r := handleTransaction self client reqTransJson in
  let resTrans :=
    {| Res_TransactionNr := Req_TransactionNr reqTrans;
       Res_Error := "";
       Responses := [{| Res_Payload := payloadJson |}] |} in
  value (dispatch self client reqTransJson) = Marshal resTrans
  ∧ value r = (marshalResponse resTrans).1
  ∧ client_after r = client1
  ∧ badAttempts (effects r) = []
  ∧ deregistrationsAsked (effects r) = []
  ∧ flowsCalled (effects r) = called.
Proof.
  intros Hparse Hreqs Hres Hfree Hflow Hmarshal. cbn zeta.
  pose proof (dispatch_auth self client _ _ _ Hparse Hreqs Hres Hfree) as Hd.
  pose proof (authSwitch_called req client) as Hcalled.
  rewrite Hflow in Hd, Hcalled. unfold authResult in Hd. rewrite Hmarshal in Hd.
  simpl in Hd, Hcalled.
  assert (value (dispatch self client reqTransJson) = Marshal
    {| Res_TransactionNr := Req_TransactionNr reqTrans;
       Res_Error := "";
       Responses := [{| Res_Payload := payloadJson |}] |}) as Hstage by (by rewrite Hd).
  destruct (handleTransaction_marshal _ _ _ _ Hstage) as [Hval Heff].
  rewrite handleTransaction_client, Heff, Hd. simpl.
  destruct (tail_unobserved _ (marshalResponse_tail
    {| Res_TransactionNr := Req_TransactionNr reqTrans;
       Res_Error := "";
       Responses := [{| Res_Payload := payloadJson |}] |}))
    as (_ & Hb & _ & _ & Hdel & Hf).
  destruct (flow_unobserved _ Hcalled) as (_ & Hb' & _ & _ & Hdel').
  change (badAttempts (?a :: ?b :: ?c :: ?l)) with (badAttempts l).
  change (deregistrationsAsked (?a :: ?b :: ?c :: ?l)) with (deregistrationsAsked l).
  change (flowsCalled (?a :: ?b :: ?c :: ?l)) with (flowsCalled l).
  rewrite !badAttempts_app, !deregistrationsAsked_app, !flowsCalled_app,
    Hb, Hb', Hdel, Hdel', Hf.
  do 5 (split; [done|]). simpl. rewrite app_nil_r.
  destruct Hcalled as [-> | (e & -> & He)]; [done|].
  unfold flowsCalled. rewrite filter_cons. by rewrite decide_True.
Qed.

(** When the flow succeeds but its payload cannot be marshalled, the
    envelope carries the general error of the handler package and no
    response; no bad attempt is recorded, and the client stays as the flow
    left it: it is logged in although the transaction reports an error. *)
Theorem authentication_payload_unmarshallable (self : ptr) (client client1 : clientType)
    (reqTransJson : bytes) (reqTrans : RequestTransaction) (req : Request)
    (resPayload : option payloadT) (called : list event) (err : goerror) :
  json_Unmarshal reqTransJson = inr reqTrans →
  Requests reqTrans = [req] →
  Ressource req = "auth" →
  CheckByHost (address client) = false →
  authSwitch req client = (resPayload, None, client1, called) →
  json_Marshal resPayload = inl err →
  let r := handleTransaction self client reqTransJson in
  let resTrans :=
    {| Res_TransactionNr := Req_TransactionNr reqTrans;
       Res_Error := ErrGeneral;
       Responses := [] |} in
  value (dispatch self client reqTransJson) = Marshal resTrans
  ∧ value r = (marshalResponse resTrans).1
  ∧ client_after r = client1
  ∧ badAttempts (effects r) = [].
Proof.
  intros Hparse Hreqs Hres Hfree Hflow Hmarshal. cbn zeta.
  pose proof (dispatch_auth self client _ _ _ Hparse Hreqs Hres Hfree) as Hd.
  pose proof (authSwitch_called req client) as Hcalled.
  rewrite Hflow in Hd, Hcalled. unfold authResult in Hd. rewrite Hmarshal in Hd.
  simpl in Hd, Hcalled.
  assert (value (dispatch self client reqTransJson) = Marshal
    {| Res_TransactionNr := Req_TransactionNr reqTrans;
       Res_Error := ErrGeneral;
       Responses := [] |}) as Hstage by (by rewrite Hd).
  destruct (handleTransaction_marshal _ _ _ _ Hstage) as [Hval Heff].
  rewrite handleTransaction_client, Heff, Hd. simpl.
  destruct (tail_unobserved _ (marshalResponse_tail
    {| Res_TransactionNr := Req_TransactionNr reqTrans;
       Res_Error := ErrGeneral;
       Responses := [] |}))
    as (_ & Hb & _).
  destruct (flow_unobserved _ Hcalled) as (_ & Hb' & _).
  change (badAttempts (?a :: ?b :: ?c :: ?l)) with (badAttempts l).
  rewrite !badAttempts_app, Hb, Hb'.
  do 3 (split; [done|]). by case_match.
Qed.

(** Bad attempts are recorded for nothing but failed authentications: if a
    call of the dispatcher records a bad attempt for a host, then the host
    is the address of the client, it is the only bad attempt of the call,
    and the message was an authentication transaction from a host that is
    not blocked whose flow returned an error. *)
Theorem bad_attempt_only_after_failed_flow (self : ptr) (client : clientType)
    (reqTransJson : bytes) (host : string) :
  host ∈ badAttempts (effects (handleTransaction self client reqTransJson)) →
  host = address client
  ∧ badAttempts (effects (handleTransaction self client reqTransJson)) = [address client]
  ∧ ∃ reqTrans req err,
      json_Unmarshal reqTransJson = inr reqTrans
      ∧ Requests reqTrans = [req] ∧ Ressource req = "auth"
      ∧ CheckByHost (address client) = false
      ∧ (authSwitch req client).1.1.2 = Some err.
Proof.
  intros Hin.
  destruct (handleTransaction_observed self client reqTransJson)
    as (_ & _ & [[Hb _] | (reqTrans & req & Hparse & Hreqs & Hres & Hfree & _ & Hb)] & _);
    rewrite Hb in Hin |- *.
  - by apply elem_of_nil in Hin.
  - destruct (authSwitch req client).1.1.2 as [err|] eqn:Herr.
    + apply list_elem_of_singleton in Hin. split; [done|]. split; [done|].
      exists reqTrans, req, err. eauto.
    + by apply elem_of_nil in Hin.
Qed.

(** The dispatcher asks for the deregistration of no connection but its
    own, and of its own only when an authentication transaction comes from
    a blocked host; it then asks once. *)
Theorem deregistration_only_when_blocked (self : ptr) (client : clientType)
    (reqTransJson : bytes) (p : ptr) :
  p ∈ deregistrationsAsked (effects (handleTransaction self client reqTransJson)) →
  p = self
  ∧ deregistrationsAsked (effects (handleTransaction self client reqTransJson)) = [self]
  ∧ ∃ reqTrans,
      json_Unmarshal reqTransJson = inr reqTrans
      ∧ authRequest reqTrans = true
      ∧ CheckByHost (address client) = true.
Proof.
  intros Hin.
  destruct (handleTransaction_observed self client reqTransJson)
    as (_ & _ & _ & [Hd | (reqTrans & Hparse & Hauth & Hblocked & Hd)]);
    rewrite Hd in Hin |- *.
  - by apply elem_of_nil in Hin.
  - apply list_elem_of_singleton in Hin. eauto 10.
Qed.

(** When the response envelope itself cannot be marshalled, the client is
    answered with the empty object and the failure is logged; the
    connection is not torn down, and what the transaction did to the
    client stays: a login that succeeded is kept. *)
Theorem response_unmarshallable (self : ptr) (client : clientType)
    (reqTransJson : bytes) (resTrans : ResponseTransaction) (err : goerror) :
  value (dispatch self client reqTransJson) = Marshal resTrans →
  json_Marshal_resTrans resTrans = inl err →
  let r := handleTransaction self client reqTransJson in
  value r = Returned emptyObject
  ∧ client_after r = client_after (dispatch self client reqTransJson)
  ∧ deregistrationsAsked (effects r) = []
  ∧ effects r =
      [EvAcquire] ++ effects (dispatch self client reqTransJson)
        ++ [EvLog LogError "cannot marshal responses"; EvRelease].
Proof.
  intros Hstage Hfail. cbn zeta.
  destruct (handleTransaction_marshal _ _ _ _ Hstage) as [Hval Heff].
  unfold marshalResponse in Hval, Heff. rewrite Hfail in Hval, Heff. simpl in Hval, Heff.
  split; [done|]. split; [apply handleTransaction_client|]. split; [|done].
  destruct (handleTransaction_observed self client reqTransJson)
    as (_ & _ & _ & [Hd | (reqTrans & Hparse & Hauth & Hblocked & _)]); [done|].
  rewrite (dispatch_blocked _ _ _ _ Hparse Hauth Hblocked) in Hstage. done.
Qed.

End DispatcherMore.

(** ** More of the dispatcher on the test doubles *)

Lemma several_requests_never_authenticate_witness :
  let r := @handleTransaction demo_mute 1%positive demo_client "two requests" in
  flowsCalled (effects r) = []
  ∧ hostChecks (effects r) = []
  ∧ badAttempts (effects r) = []
  ∧ deregistrationsAsked (effects r) = []
  ∧ client_after r = demo_client
  ∧ executed (effects r) = [(1%positive, demo_pair)]
  ∧ (false = false →
     value (@dispatch demo_mute 1%positive demo_client "two requests") =
       Marshal {| Res_TransactionNr := 9; Res_Error := ""; Responses := [] |}).
Proof.
  exact (@several_requests_never_authenticate demo_mute 1%positive demo_client
           "two requests" demo_pair eq_refl ltac:(discriminate)).
Defined.

Lemma authentication_frame_witness :
  let after :=
    client_after (@handleTransaction demo 3%positive demo_fixed "auth user secret") in
  address after = "198.51.100.4"
  ∧ ctx after = 3%positive
  ∧ ("user" ≠ "tokenFixed" → fixedToken after = true)
  ∧ ("user" = "tokenFixed" → admin after = false ∧ noAuth after = false)
  ∧ (false = true → after = demo_fixed).
Proof.
  exact (@authentication_frame demo 3%positive demo_fixed "auth user secret"
           (demo_request "auth" "user" "secret")
           {| Ressource := "auth"; Action := "user"; Payload := "secret" |}
           eq_refl eq_refl eq_refl).
Defined.

Lemma authentication_success_witness :
  let r := @handleTransaction demo 1%positive demo_client "auth user secret" in
  value (@dispatch demo 1%positive demo_client "auth user secret") =
    Marshal {| Res_TransactionNr := 7; Res_Error := "";
               Responses := [{| Res_Payload := "token" |}] |}
  ∧ value r = Returned "{transactionNr:7,error:,responses:[token]}"
  ∧ client_after r =
      {| address := "198.51.100.4"; admin := false; ctx := 1; fixedToken := false;
         loginId := 42; noAuth := false |}
  ∧ badAttempts (effects r) = []
  ∧ deregistrationsAsked (effects r) = []
  ∧ flowsCalled (effects r) = [EvLoginAuthUser "secret"].
Proof.
  exact (@authentication_success demo 1%positive demo_client _ "auth user secret"
           (demo_request "auth" "user" "secret")
           {| Ressource := "auth"; Action := "user"; Payload := "secret" |}
           (Some "token") [EvLoginAuthUser "secret"] "token"
           eq_refl eq_refl eq_refl eq_refl eq_refl eq_refl).
Defined.

Lemma authentication_payload_unmarshallable_witness :
  let r := @handleTransaction demo_mute 1%positive demo_client "auth user secret" in
  value (@dispatch demo_mute 1%positive demo_client "auth user secret") =
    Marshal {| Res_TransactionNr := 7; Res_Error := "general error"; Responses := [] |}
  ∧ value r = Returned emptyObject
  ∧ loginId (client_after r) = 42
  ∧ badAttempts (effects r) = [].
Proof.
  destruct (@authentication_payload_unmarshallable demo_mute 1%positive demo_client _
              "auth user secret" (demo_request "auth" "user" "secret")
              {| Ressource := "auth"; Action := "user"; Payload := "secret" |}
              (Some "token") [EvLoginAuthUser "secret"] "json: unsupported value"
              eq_refl eq_refl eq_refl eq_refl eq_refl eq_refl)
    as (Hstage & Hval & Hclient & Hbad).
  split; [exact Hstage|]. split; [exact Hval|]. split; [by rewrite Hclient | exact Hbad].
Defined.

Lemma bad_attempt_only_after_failed_flow_witness :
  "198.51.100.4" = address demo_client
  ∧ badAttempts (effects (@handleTransaction demo 1%positive demo_client "auth user guess"))
    = [address demo_client]
  ∧ ∃ reqTrans req err,
      @json_Unmarshal demo "auth user guess" = inr reqTrans
      ∧ Requests reqTrans = [req] ∧ Ressource req = "auth"
      ∧ @CheckByHost demo (address demo_client) = false
      ∧ (@authSwitch demo req demo_client).1.1.2 = Some err.
Proof.
  apply (@bad_attempt_only_after_failed_flow demo 1%positive demo_client
           "auth user guess" "198.51.100.4").
  apply list_elem_of_In. vm_compute. by left.
Defined.

Lemma deregistration_only_when_blocked_witness :
  2%positive = 2%positive
  ∧ deregistrationsAsked
      (effects (@handleTransaction demo 2%positive demo_blocked "auth user secret"))
    = [2%positive]
  ∧ ∃ reqTrans,
      @json_Unmarshal demo "auth user secret" = inr reqTrans
      ∧ authRequest reqTrans = true
      ∧ @CheckByHost demo (address demo_blocked) = true.
Proof.
  apply (@deregistration_only_when_blocked demo 2%positive demo_blocked
           "auth user secret" 2%positive).
  apply list_elem_of_In. vm_compute. by left.
Defined.

Lemma response_unmarshallable_witness :
  let r := @handleTransaction demo_mute 1%positive demo_client "auth user secret" in
  value r = Returned emptyObject
  ∧ client_after r = client_after (@dispatch demo_mute 1%positive demo_client "auth user secret")
  ∧ deregistrationsAsked (effects r) = []
  ∧ effects r =
      [EvAcquire] ++ effects (@dispatch demo_mute 1%positive demo_client "auth user secret")
        ++ [EvLog LogError "cannot marshal responses"; EvRelease].
Proof.
  exact (@response_unmarshallable demo_mute 1%positive demo_client "auth user secret"
           {| Res_TransactionNr := 7; Res_Error := "general error"; Responses := [] |}
           "json: unsupported value" eq_refl eq_refl).
Defined.

(** * Properties of the listener and the reader *)

Section ListenerFacts.

Context `{Listener}.


(** [Handler] registers a client, and starts its reader, exactly when the
    request is not blocked, the upgrade succeeds and the remote address
    splits into host and port; the upgrade is attempted exactly when the
    request is not blocked; a socket that was obtained but is not
    registered is closed; and the client that is registered is not logged
    in (login 0, no admin, no fixed token, no missing authentication) and
    has the host without the port as its address. *)
Theorem Handler_outcomes (fresh : ptr) (newCtx : positive) (r : httpRequest) :
  let out := Handler fresh newCtx r in
  (HdUpgrade ∈ out.2 ↔ Check r = false)
  ∧ (Check r = true → out = (None, [HdAbortRequestNoLog ErrBruteforceBlock]))
  ∧ (is_Some out.1 ↔
     Check r = false
     ∧ ∃ ws host port, Upgrade r = inr ws ∧ SplitHostPort (RemoteAddr r) = inr (host, port))
  ∧ (out.1 = None →
     handlerToHub out.2 = [] ∧ (∀ p, HdGoRead p ∉ out.2)
     ∧ (∀ ws, Check r = false → Upgrade r = inr ws → HdWsClose ws ∈ out.2))
  ∧ (∀ client, out.1 = Some client →
     (∃ port, SplitHostPort (RemoteAddr r) = inr (address client, port))
     ∧ client = newClient (address client) newCtx
     ∧ handlerToHub out.2 = [ClientAdd fresh]
     ∧ ∃ before, out.2 = before ++ [HdClientAdd fresh; HdGoRead fresh]
                  ∧ ∀ p, HdGoRead p ∉ before).
Proof.
  cbn zeta. unfold Handler.
  destruct (Check r) eqn:Hcheck; simpl.
  { split; [|split; [|split; [|split]]].
    - split; [absent | done].
    - done.
    - split; [by intros [? ?] | by intros [? _]].
    - intros _. split; [done|]. split; [intros p; absent | done].
    - done. }
  destruct (Upgrade r) as [uerr | ws] eqn:Hup; simpl.
  { split; [|split; [|split; [|split]]].
    - split; [done | intros _; present].
    - done.
    - split; [by intros [? ?] | by intros (_ & ? & ? & ? & ? & _)].
    - intros _. split; [done|]. split; [intros p; absent | done].
    - done. }
  destruct (SplitHostPort (RemoteAddr r)) as [serr | [host port]] eqn:Hsplit; simpl.
  { split; [|split; [|split; [|split]]].
    - split; [done | intros _; present].
    - done.
    - split; [by intros [? ?] | by intros (_ & ? & ? & ? & _ & ?)].
    - intros _. split; [done|]. split; [intros p; absent|].
      intros ws' _ [= <-]. present.
    - done. }
  split; [|split; [|split; [|split]]].
  - split; [done | intros _; present].
  - done.
  - split; [intros _; eauto 10 | by eexists].
  - done.
  - intros client [= <-]. simpl. split; [eauto|]. split; [done|]. split; [done|].
    exists [HdUpgrade; HdLog LogInfo "new client connecting"]. split; [done|].
    intros p. absent.
Qed.

(** A connection that sends a request before it has authenticated has the
    request executed: the dispatcher hands it to [request.ExecTransaction]
    with login 0 and neither admin nor no-auth rights, and leaves it to
    that function to refuse it. *)
Theorem unauthenticated_request_is_delegated (fresh : ptr) (newCtx : positive)
    (r : httpRequest) (client : clientType) (reqTransJson : bytes)
    (reqTrans : RequestTransaction) :
  (Handler fresh newCtx r).1 = Some client →
  json_Unmarshal reqTransJson = inr reqTrans →
  authRequest reqTrans = false →
  let run := handleTransaction fresh client reqTransJson in
  executed (effects run) = [(newCtx, reqTrans)]
  ∧ value (dispatch fresh client reqTransJson) =
      Marshal (ExecTransaction newCtx 0 false false reqTrans (resTrans_for reqTrans))
  ∧ client_after run = client
  ∧ hostChecks (effects run) = [].
Proof.
  intros Haccepted Hparse Hauth. cbn zeta.
  assert (client = newClient (address client) newCtx) as Hnew.
  { unfold Handler in Haccepted. repeat case_match; simplify_eq/=; done. }
  assert (fixedToken client = false) as Hfixed by (by rewrite Hnew).
  pose proof (dispatch_exec fresh client _ _ Hparse Hauth Hfixed) as Hd.
  assert (value (dispatch fresh client reqTransJson) = Marshal
            (ExecTransaction (ctx client) (loginId client) (admin client)
               (noAuth client) reqTrans (resTrans_for reqTrans)))
    as Hstage by (by rewrite Hd).
  destruct (handleTransaction_marshal _ _ _ _ Hstage) as [_ Heff].
  rewrite handleTransaction_client, Heff, Hstage, Hd.
  destruct (tail_unobserved _ (marshalResponse_tail
      (ExecTransaction (ctx client) (loginId client) (admin client)
         (noAuth client) reqTrans (resTrans_for reqTrans))))
    as (_ & _ & Hc & He & _).
  rewrite !executed_app, !hostChecks_app, Hc, He.
  rewrite Hnew. simpl. done.
Qed.

End ListenerFacts.

Section ReaderFacts.

Context {E : Type}.

(** As long as no read fails, [read] starts one call for every message,
    in the order of arrival, asks for no deregistration and goes on
    reading. *)
Lemma read_messages (self : ptr) (messages : list bytes) :
  read self (inr <$> messages : list (E + bytes)) = (RdGo <$> messages, false).
Proof.
  induction messages as [|m messages IH]; csimpl; [done|]. by rewrite IH.
Qed.

(** [read] up to the first failed read. *)
Lemma read_first_error (self : ptr) (messages : list bytes) (err : E)
    (later : list (E + bytes)) :
  read self ((inr <$> messages) ++ inl err :: later)
  = ((RdGo <$> messages) ++ [RdClientDel self], true).
Proof.
  induction messages as [|m messages IH]; csimpl; [done|]. by rewrite IH.
Qed.

(** Of the calls that [read] starts none arrives at the hub. *)
Lemma readToHub_RdGo (messages : list bytes) :
  readToHub (RdGo <$> messages) = [].
Proof. by induction messages. Qed.

(** [read] starts a call for each message that arrives before the first
    failed read, in the order of arrival, and for none that would arrive
    after it; at the failed read it asks once for the deregistration of
    its own client and returns. *)
Theorem read_until_first_error (self : ptr) (messages : list bytes) (err : E)
    (later : list (E + bytes)) :
  let out := read self ((inr <$> messages) ++ inl err :: later) in
  out = ((RdGo <$> messages) ++ [RdClientDel self], true)
  ∧ dispatched out.1 = messages
  ∧ readToHub out.1 = [ClientDel self].
Proof.
  cbn zeta. rewrite read_first_error.
  split; [done|]. cbn [fst]. split.
  - unfold dispatched. rewrite omap_app. csimpl.
    rewrite app_nil_r. induction messages as [|m messages IH]; csimpl; [done|].
    by rewrite IH.
  - unfold readToHub at 1. rewrite omap_app. fold (readToHub (RdGo <$> messages)).
    by rewrite readToHub_RdGo.
Qed.

End ReaderFacts.

(** * Further properties of the hub *)

Section HubMore.

Context `{Collaborators}.
Variable json_Marshal_payload : unreqPayload → goerror + bytes.
Variable json_Marshal_unreq : UnreqResponseTransaction → goerror + bytes.
Variable mem : ptr → clientType.
Variable rangeOrder : gmap ptr bool → list ptr.

Local Abbreviation visit := (visit mem).
Local Abbreviation rangeClients := (rangeClients mem rangeOrder).
Local Abbreviation clusterEvent :=
  (clusterEvent json_Marshal_payload json_Marshal_unreq mem rangeOrder).
Local Abbreviation hub_step :=
  (hub_step json_Marshal_payload json_Marshal_unreq mem rangeOrder).
Local Abbreviation hub_run :=
  (hub_run json_Marshal_payload json_Marshal_unreq mem rangeOrder).
Local Abbreviation render := (render json_Marshal_payload json_Marshal_unreq).
Local Abbreviation prepareUnrequested :=
  (prepareUnrequested json_Marshal_payload json_Marshal_unreq).

Lemma closed_app (tr1 tr2 : list hubEffect) :
  closed (tr1 ++ tr2) = closed tr1 ++ closed tr2.
Proof. apply omap_app. Qed.

Lemma cancelled_app (tr1 tr2 : list hubEffect) :
  cancelled (tr1 ++ tr2) = cancelled tr1 ++ cancelled tr2.
Proof. apply omap_app. Qed.

Lemma hubType_eq (h h' : hubType) : clients h = clients h' → h = h'.
Proof. destruct h, h'. simpl. by intros ->. Qed.

(** Stretches of the loop compose. *)
Lemma gaugeShows_trans (h h1 h2 : hubType) (tr1 tr2 : list hubEffect) :
  gaugeShows h h1 tr1 → gaugeShows h1 h2 tr2 → gaugeShows h h2 (tr1 ++ tr2).
Proof.
  unfold gaugeShows. rewrite (published_app tr1 tr2), last_app.
  intros H1 H2. destruct (last (published tr2)); [done|]. by subst h2.
Qed.

Lemma removalsOnly_quiet (h : hubType) (tr : list hubEffect) :
  closed tr = [] → cancelled tr = [] → published tr = [] → removalsOnly h h tr.
Proof.
  intros Hc Hx Hp. unfold removalsOnly, gaugeShows. rewrite Hc, Hx, Hp.
  split; [done|]. split; [constructor|]. split; [by intros p ?%elem_of_nil|].
  split; [|done]. intros p. case_bool_decide as Hin; [by apply elem_of_nil in Hin | done].
Qed.

Lemma removalsOnly_trans (h h1 h2 : hubType) (tr1 tr2 : list hubEffect) :
  removalsOnly h h1 tr1 → removalsOnly h1 h2 tr2 → removalsOnly h h2 (tr1 ++ tr2).
Proof.
  intros (Hx1 & Hnd1 & Hlive1 & Hlook1 & Hg1) (Hx2 & Hnd2 & Hlive2 & Hlook2 & Hg2).
  unfold removalsOnly. rewrite closed_app, cancelled_app, Hx1, Hx2.
  split; [done|]. rewrite <- Hx1, <- Hx2.
  assert (∀ p, p ∈ closed tr2 → (p ∉ closed tr1) ∧ is_Some (clients h !! p)) as Hfresh.
  { intros p Hp. specialize (Hlive2 p Hp). rewrite Hlook1 in Hlive2.
    case_bool_decide; [by destruct Hlive2 | done]. }
  split; [|split; [|split]].
  - apply NoDup_app. split; [done|]. split; [|done].
    intros p Hp1 Hp2. by destruct (Hfresh p Hp2).
  - intros p [Hp | Hp]%elem_of_app; [by apply Hlive1 | by apply Hfresh].
  - intros p. rewrite Hlook2, Hlook1.
    destruct (decide (p ∈ closed tr2)) as [Hp2 | Hp2],
             (decide (p ∈ closed tr1)) as [Hp1 | Hp1].
    + rewrite !bool_decide_eq_true_2; [done | | done]. apply elem_of_app; auto.
    + rewrite !bool_decide_eq_true_2; [done | | done]. apply elem_of_app; auto.
    + rewrite (bool_decide_eq_false_2 _ Hp2), (bool_decide_eq_true_2 _ Hp1).
      rewrite bool_decide_eq_true_2; [done|]. apply elem_of_app; auto.
    + rewrite (bool_decide_eq_false_2 _ Hp2), (bool_decide_eq_false_2 _ Hp1).
      rewrite bool_decide_eq_false_2; [done|]. by intros [?|?]%elem_of_app.
  - by eapply gaugeShows_trans.
Qed.

(** A removal is such a stretch. *)
Lemma removeClient_removalsOnly (h : hubType) (client : ptr) :
  removalsOnly h (removeClient h client).1 (removeClient h client).2.
Proof.
  unfold removeClient. destruct (clients h !! client) as [b|] eqn:Hb; simpl.
  - unfold removalsOnly, gaugeShows. simpl.
    split; [done|]. split; [apply NoDup_singleton|].
    split; [intros p ->%list_elem_of_singleton; by eexists|].
    split; [|done]. intros p. case_bool_decide as Hp.
    + apply list_elem_of_singleton in Hp as ->. apply lookup_delete_eq.
    + apply lookup_delete_ne. intros ->. apply Hp, list_elem_of_here.
  - by apply removalsOnly_quiet.
Qed.

(** *** One turn of the range, and the whole range *)

(** What came before does not matter to a turn of the range. *)
Lemma visit_appends (event : ClusterEvent) (jsonMsg : bytes) (h : hubType)
    (done : list hubEffect) (client : ptr) :
  visit event jsonMsg (h, done) client =
    ((visit event jsonMsg (h, []) client).1,
     done ++ (visit event jsonMsg (h, []) client).2).
Proof.
  unfold visit. simpl.
  destruct (clients h !! client); [|by rewrite app_nil_r].
  destruct (skipped mem event client); [by rewrite app_nil_r|].
  destruct (kicked mem event client).
  - by destruct (removeClient h client).
  - done.
Qed.

Lemma foldl_visit_appends (event : ClusterEvent) (jsonMsg : bytes) (order : list ptr)
    (h : hubType) (done : list hubEffect) :
  foldl (visit event jsonMsg) (h, done) order =
    ((foldl (visit event jsonMsg) (h, []) order).1,
     done ++ (foldl (visit event jsonMsg) (h, []) order).2).
Proof.
  revert h done. induction order as [|client order IH]; intros h done.
  - simpl. by rewrite app_nil_r.
  - cbn [foldl]. rewrite (visit_appends event jsonMsg h done client).
    destruct (visit event jsonMsg (h, []) client) as [h1 tr1]. cbn [fst snd].
    rewrite (IH h1 (done ++ tr1)), (IH h1 tr1). cbn [fst snd].
    by rewrite app_assoc.
Qed.

(** The three things a turn of the range can do: nothing, hand the
    message to the client it visits, or kick that client. *)
Lemma visit_cases (event : ClusterEvent) (jsonMsg : bytes) (h : hubType) (client : ptr) :
  visit event jsonMsg (h, []) client = (h, [])
  ∨ (Kick event || KickNonAdmin event = false
     ∧ is_Some (clients h !! client) ∧ loginMatch mem event client = true
     ∧ visit event jsonMsg (h, []) client = (h, [HubGoWrite client jsonMsg]))
  ∨ (Kick event || KickNonAdmin event = true
     ∧ is_Some (clients h !! client) ∧ loginMatch mem event client = true
     ∧ kicked mem event client = true
     ∧ visit event jsonMsg (h, []) client =
         ((removeClient h client).1,
          HubLog LogInfo "kicking client" :: (removeClient h client).2)).
Proof.
  rewrite <- skipped_loginMatch. unfold visit. simpl.
  destruct (clients h !! client) as [b|] eqn:Hb; [|by left].
  destruct (skipped mem event client); [by left|].
  destruct (Kick event || KickNonAdmin event) eqn:Hk; simpl.
  - destruct (kicked mem event client) eqn:Hkicked; [|by left].
    right. right. do 4 (split; [done|]).
    by destruct (removeClient h client).
  - assert (kicked mem event client = false) as ->.
    { unfold kicked. by apply orb_false_iff in Hk as [-> ->]. }
    right. left. done.
Qed.

Lemma visit_removalsOnly (event : ClusterEvent) (jsonMsg : bytes) (h : hubType)
    (client : ptr) :
  removalsOnly h (visit event jsonMsg (h, []) client).1
    (visit event jsonMsg (h, []) client).2.
Proof.
  destruct (visit_cases event jsonMsg h client)
    as [-> | [(_ & _ & _ & ->) | (_ & _ & _ & _ & ->)]]; simpl.
  - by apply removalsOnly_quiet.
  - by apply removalsOnly_quiet.
  - apply (removalsOnly_trans h h _ [HubLog LogInfo "kicking client"]).
    + by apply removalsOnly_quiet.
    + apply removeClient_removalsOnly.
Qed.

(** The whole range registers nothing, renders nothing, and hands the
    message to nobody but live clients that pass the login filter, and to
    nobody at all when the event has a kick flag; without kick flag it
    removes nobody. *)
Lemma foldl_visit_summary (event : ClusterEvent) (jsonMsg : bytes) (order : list ptr)
    (h : hubType) :
  let out := foldl (visit event jsonMsg) (h, []) order in
  removalsOnly h out.1 out.2
  ∧ rendered out.2 = []
  ∧ (∀ p message, (p, message) ∈ handed out.2 →
       Kick event || KickNonAdmin event = false ∧ message = jsonMsg
       ∧ is_Some (clients h !! p) ∧ loginMatch mem event p = true)
  ∧ (Kick event || KickNonAdmin event = false →
     out.1 = h ∧ closed out.2 = [] ∧ published out.2 = []).
Proof.
  cbn zeta. revert h. induction order as [|client order IH]; intros h.
  - simpl. split; [by apply removalsOnly_quiet|]. split; [done|].
    split; [by intros p m ?%elem_of_nil | done].
  - cbn [foldl].
    pose proof (visit_removalsOnly event jsonMsg h client) as Hv.
    pose proof (visit_cases event jsonMsg h client) as Hcases.
    destruct (visit event jsonMsg (h, []) client) as [h1 tr1]. simpl in Hv.
    rewrite foldl_visit_appends. cbn [fst snd].
    destruct (IH h1) as (Hrest & Hrend & Hhand & Hframe).
    split; [by eapply removalsOnly_trans|].
    assert (rendered tr1 = []
            ∧ (∀ p message, (p, message) ∈ handed tr1 →
                 Kick event || KickNonAdmin event = false ∧ message = jsonMsg
                 ∧ is_Some (clients h !! p) ∧ loginMatch mem event p = true)
            ∧ (Kick event || KickNonAdmin event = false →
               h1 = h ∧ closed tr1 = [] ∧ published tr1 = [])) as (Hrend1 & Hhand1 & Hframe1).
    { destruct Hcases as [Heq | [(Hk & Hlive & Hm & Heq) | (Hk & _ & _ & _ & Heq)]];
        simplify_eq.
      - split; [done|]. split; [by intros p m ?%elem_of_nil | done].
      - split; [done|]. split; [|done].
        intros p m Hin.
        change (handed [HubGoWrite client jsonMsg]) with [(client, jsonMsg)] in Hin.
        apply list_elem_of_singleton in Hin as [= -> ->]. done.
      - destruct (removeClient_quiet h client) as [Hq Hr].
        split; [done|]. split; [|by rewrite Hk].
        intros p m Hin. change (handed (HubLog ?l ?s :: ?t)) with (handed t) in Hin.
        rewrite Hq in Hin. by apply elem_of_nil in Hin. }
    split; [by rewrite rendered_app, Hrend1, Hrend|]. split.
    + intros p message. rewrite handed_app. intros [Hin | Hin]%elem_of_app.
      * by apply Hhand1.
      * destruct (Hhand p message Hin) as (Hk & Hmsg & Hlive & Hm).
        do 2 (split; [done|]). split; [|done].
        destruct Hv as (_ & _ & _ & Hlook & _). rewrite Hlook in Hlive.
        by case_bool_decide; [destruct Hlive|].
    + intros Hk. destruct (Hframe1 Hk) as (-> & Hc1 & Hp1).
      destruct (Hframe Hk) as (-> & Hc & Hp).
      by rewrite closed_app, published_app, Hc1, Hc, Hp1, Hp.
Qed.

(** *** One turn of the hub loop *)

(** Rendering touches neither the clients nor the gauge. *)
Lemma render_quiet (event : ClusterEvent) :
  closed (render event).2 = [] ∧ cancelled (render event).2 = []
  ∧ published (render event).2 = [] ∧ handed (render event).2 = [].
Proof.
  unfold render, renderIf.
  by destruct (negb (CollectionChanged event =? uuid_Nil)%N), (ConfigChanged event),
    (negb (FilesCopiedAttributeId event =? uuid_Nil)%N),
    (negb (FileRequestedAttributeId event =? uuid_Nil)%N),
    (Renew event), (SchemaLoading event), (SchemaLoaded event).
Qed.

(** What a cluster event does, whatever it carries and in whatever order
    the range produces the clients. *)
Lemma clusterEvent_summary (h : hubType) (event : ClusterEvent) :
  let out := clusterEvent h event in
  removalsOnly h out.1 out.2
  ∧ (∀ p message, (p, message) ∈ handed out.2 →
       Kick event || KickNonAdmin event = false
       ∧ (render event).1 = (message, None)
       ∧ is_Some (clients h !! p) ∧ loginMatch mem event p = true)
  ∧ (Kick event || KickNonAdmin event = false →
     out.1 = h ∧ closed out.2 = [] ∧ published out.2 = [])
  ∧ (Kick event || KickNonAdmin event = true → handed out.2 = []).
Proof.
  cbn zeta. unfold clusterEvent, rangeClients.
  destruct (Kick event || KickNonAdmin event) eqn:Hk; simpl.
  - destruct (foldl_visit_summary event "" (rangeOrder (clients h)) h)
      as (Hrem & _ & Hhand & _).
    split; [done|]. split; [|split; [done|]].
    + intros p m Hin. destruct (Hhand p m Hin) as (Hk' & _). by rewrite Hk in Hk'.
    + intros _. destruct (handed _) as [|[p m] l] eqn:Hl; [done|].
      destruct (Hhand p m) as (Hk' & _); [apply list_elem_of_here|].
      by rewrite Hk in Hk'.
  - destruct (render_quiet event) as (Hrc & Hrx & Hrp & Hrh).
    destruct (render event) as [[jsonMsg err] shown] eqn:Hrender. simpl in *.
    destruct err as [err|].
    + cbn [fst snd].
      split; [apply removalsOnly_quiet; by rewrite ?closed_app, ?cancelled_app,
                ?published_app, ?Hrc, ?Hrx, ?Hrp|].
      rewrite handed_app, Hrh, closed_app, Hrc, published_app, Hrp. simpl.
      split; [by intros p m ?%elem_of_nil | done].
    + destruct (foldl_visit_summary event jsonMsg (rangeOrder (clients h)) h)
        as (Hrem & _ & Hhand & Hframe).
      destruct (foldl _ _ _) as [h' done]. cbn [fst snd] in *.
      split.
      * apply (removalsOnly_trans h h h' shown done); [|done].
        by apply removalsOnly_quiet.
      * rewrite handed_app, Hrh, closed_app, Hrc, published_app, Hrp. simpl.
        split; [|split; [intros _; by apply Hframe | done]].
        intros p m Hin. destruct (Hhand p m Hin) as (_ & -> & Hlive & Hm). done.
Qed.

(** A deregistration and a cluster event register nothing. *)
Lemma hub_step_removalsOnly (h : hubType) (m : hubMsg) :
  (∀ client, m ≠ ClientAdd client) →
  removalsOnly h (hub_step h m).1 (hub_step h m).2.
Proof.
  intros Hm. destruct m as [client | client | event]; simpl.
  - by destruct (Hm client).
  - apply removeClient_removalsOnly.
  - apply clusterEvent_summary.
Qed.

Lemma hub_step_gaugeShows (h : hubType) (m : hubMsg) :
  gaugeShows h (hub_step h m).1 (hub_step h m).2.
Proof.
  destruct m as [client | client | event].
  - done.
  - apply (hub_step_removalsOnly h (ClientDel client)). by intros c.
  - apply (hub_step_removalsOnly h (WebsocketClientEvent event)). by intros c.
Qed.

(** The gauge is always up to date: after any sequence of registrations,
    deregistrations and cluster events, in whatever order the ranges
    produce the clients, the last count that the hub has published is the
    size of the live set, and if it has published none the live set is the
    one it started with. *)
Theorem gauge_always_current (h : hubType) (msgs : list hubMsg) :
  match last (published (hub_run h msgs).2) with
  | Some n => n = size (clients (hub_run h msgs).1)
  | None => (hub_run h msgs).1 = h
  end.
Proof.
  change (gaugeShows h (hub_run h msgs).1 (hub_run h msgs).2).
  revert h. induction msgs as [|m msgs IH]; intros h; [done|].
  rewrite (hub_run_cons json_Marshal_payload json_Marshal_unreq mem rangeOrder).
  cbn [fst snd]. eapply gaugeShows_trans; [apply hub_step_gaugeShows | apply IH].
Qed.

(** *** Accounting for the live set *)

Lemma removeClient_size (h : hubType) (client : ptr) :
  (size (clients (removeClient h client).1) + length (closed (removeClient h client).2)
   = size (clients h))%nat.
Proof.
  unfold removeClient. destruct (clients h !! client) as [b|] eqn:Hb; simpl; [|lia].
  pose proof (map_size_delete_Some client (clients h) (mk_is_Some _ _ Hb)).
  pose proof (map_size_ne_0_lookup_2 (clients h) client (mk_is_Some _ _ Hb)). lia.
Qed.

Lemma foldl_visit_size (event : ClusterEvent) (jsonMsg : bytes) (order : list ptr)
    (h : hubType) :
  (size (clients (foldl (visit event jsonMsg) (h, []) order).1)
   + length (closed (foldl (visit event jsonMsg) (h, []) order).2)
   = size (clients h))%nat.
Proof.
  revert h. induction order as [|client order IH]; intros h; [simpl; lia|].
  cbn [foldl].
  assert (size (clients (visit event jsonMsg (h, []) client).1)
          + length (closed (visit event jsonMsg (h, []) client).2)
          = size (clients h))%nat as Hv.
  { destruct (visit_cases event jsonMsg h client)
      as [-> | [(_ & _ & _ & ->) | (_ & _ & _ & _ & ->)]]; simpl; try lia.
    apply removeClient_size. }
  destruct (visit event jsonMsg (h, []) client) as [h1 tr1].
  rewrite foldl_visit_appends. cbn [fst snd] in *.
  specialize (IH h1). rewrite closed_app, length_app. lia.
Qed.

Lemma hub_step_size (h : hubType) (m : hubMsg) :
  (∀ client, m ≠ ClientAdd client) →
  (size (clients (hub_step h m).1) + length (closed (hub_step h m).2)
   = size (clients h))%nat.
Proof.
  intros Hm. destruct m as [client | client | event]; simpl.
  - by destruct (Hm client).
  - apply removeClient_size.
  - destruct (render_quiet event) as (Hrc & _).
    unfold clusterEvent, rangeClients.
    destruct (Kick event || KickNonAdmin event); simpl.
    + apply foldl_visit_size.
    + destruct (render event) as [[jsonMsg err] shown]. simpl in Hrc.
      destruct err as [err|]; simpl.
      * rewrite closed_app, Hrc. simpl. lia.
      * pose proof (foldl_visit_size event jsonMsg (rangeOrder (clients h)) h) as Hs.
        destruct (foldl _ _ _) as [h' done]. simpl in *.
        rewrite closed_app, Hrc. simpl. lia.
Qed.

(** The invariant of a run that registers distinct clients that are not
    live already: what is closed is cancelled, closed once, and was live
    or registered; the live set is what was live or registered and has
    not been closed; and its size is accounted for. *)
Lemma hub_run_accounting (h : hubType) (msgs : list hubMsg) :
  NoDup (registrations msgs) →
  (∀ p, p ∈ registrations msgs → clients h !! p = None) →
  closed (hub_run h msgs).2 = cancelled (hub_run h msgs).2
  ∧ NoDup (closed (hub_run h msgs).2)
  ∧ (∀ p, p ∈ closed (hub_run h msgs).2 →
          is_Some (clients h !! p) ∨ p ∈ registrations msgs)
  ∧ (∀ p, is_Some (clients (hub_run h msgs).1 !! p) ↔
          (is_Some (clients h !! p) ∨ p ∈ registrations msgs)
          ∧ p ∉ closed (hub_run h msgs).2)
  ∧ (size (clients (hub_run h msgs).1) + length (closed (hub_run h msgs).2)
     = size (clients h) + length (registrations msgs))%nat.
Proof.
  revert h. induction msgs as [|m msgs IH]; intros h Hnd Hfresh.
  { simpl. split; [done|]. split; [constructor|]. split; [by intros p ?%elem_of_nil|].
    split; [|lia]. intros p. split.
    - intros Hp. split; [by left | apply not_elem_of_nil].
    - by intros [[? | ?%elem_of_nil] _]. }
  rewrite (hub_run_cons json_Marshal_payload json_Marshal_unreq mem rangeOrder).
  cbn [fst snd].
  destruct m as [client | client | event].
  - (* a registration *)
    change (registrations (ClientAdd client :: msgs))
      with (client :: registrations msgs) in *.
    apply NoDup_cons in Hnd as [Hnew Hnd].
    assert (clients h !! client = None) as Hc by apply Hfresh, list_elem_of_here.
    destruct (IH (hub_step h (ClientAdd client)).1 Hnd)
      as (Hx & Hcl & Hwas & Hlive & Hsize).
    { intros p Hp. simpl. rewrite lookup_insert_ne by (by intros ->).
      by apply Hfresh, list_elem_of_further. }
    simpl in *. split; [done|]. split; [done|]. split; [|split].
    + intros p Hp. destruct (Hwas p Hp) as [Hs | Hr].
      * destruct (decide (client = p)) as [-> | Hne].
        -- right. apply list_elem_of_here.
        -- left. by rewrite lookup_insert_ne in Hs.
      * right. by apply list_elem_of_further.
    + intros p. rewrite Hlive, elem_of_cons.
      destruct (decide (client = p)) as [-> | Hne].
      * rewrite lookup_insert_eq. split; intros [_ ?]; (split; [eauto|done]).
      * rewrite lookup_insert_ne by done. split.
        -- intros [[Hs | Hr] Hn]; (split; [|done]); auto.
        -- intros [[Hs | [-> | Hr]] Hn]; [|done|]; split; auto.
    + rewrite map_size_insert_None in Hsize by done. lia.
  - (* a deregistration *)
    change (registrations (ClientDel client :: msgs)) with (registrations msgs) in *.
    pose proof (hub_step_removalsOnly h (ClientDel client) ltac:(by intros c))
      as (Hx1 & Hnd1 & Hlive1 & Hlook1 & _).
    pose proof (hub_step_size h (ClientDel client) ltac:(by intros c)) as Hs1.
    destruct (IH (hub_step h (ClientDel client)).1 Hnd)
      as (Hx & Hcl & Hwas & Hlive & Hsize).
    { intros p Hp. rewrite Hlook1. case_bool_decide; [done | by apply Hfresh]. }
    rewrite closed_app, cancelled_app, Hx1, Hx, length_app. rewrite <- Hx1, <- Hx.
    split; [done|]. split; [|split; [|split; [|lia]]].
    + apply NoDup_app. split; [done|]. split; [|done].
      intros p Hp1 Hp2. destruct (Hwas p Hp2) as [Hs | Hr].
      * rewrite Hlook1, bool_decide_eq_true_2 in Hs by done. by destruct Hs.
      * specialize (Hlive1 p Hp1). rewrite (Hfresh p Hr) in Hlive1. by destruct Hlive1.
    + intros p [Hp | Hp]%elem_of_app; [left; by apply Hlive1|].
      destruct (Hwas p Hp) as [Hs | Hr]; [|by right].
      left. rewrite Hlook1 in Hs. case_bool_decide; [by destruct Hs | done].
    + intros p. rewrite Hlive, Hlook1, elem_of_app.
      case_bool_decide as Hp1.
      * split; [|tauto]. intros [[Hs | Hr] _]; [by destruct Hs|].
        specialize (Hlive1 p Hp1). rewrite (Hfresh p Hr) in Hlive1. by destruct Hlive1.
      * tauto.
  - (* a cluster event *)
    change (registrations (WebsocketClientEvent event :: msgs))
      with (registrations msgs) in *.
    pose proof (hub_step_removalsOnly h (WebsocketClientEvent event) ltac:(by intros c))
      as (Hx1 & Hnd1 & Hlive1 & Hlook1 & _).
    pose proof (hub_step_size h (WebsocketClientEvent event) ltac:(by intros c)) as Hs1.
    destruct (IH (hub_step h (WebsocketClientEvent event)).1 Hnd)
      as (Hx & Hcl & Hwas & Hlive & Hsize).
    { intros p Hp. rewrite Hlook1. case_bool_decide; [done | by apply Hfresh]. }
    rewrite closed_app, cancelled_app, Hx1, Hx, length_app. rewrite <- Hx1, <- Hx.
    split; [done|]. split; [|split; [|split; [|lia]]].
    + apply NoDup_app. split; [done|]. split; [|done].
      intros p Hp1 Hp2. destruct (Hwas p Hp2) as [Hs | Hr].
      * rewrite Hlook1, bool_decide_eq_true_2 in Hs by done. by destruct Hs.
      * specialize (Hlive1 p Hp1). rewrite (Hfresh p Hr) in Hlive1. by destruct Hlive1.
    + intros p [Hp | Hp]%elem_of_app; [left; by apply Hlive1|].
      destruct (Hwas p Hp) as [Hs | Hr]; [|by right].
      left. rewrite Hlook1 in Hs. case_bool_decide; [by destruct Hs | done].
    + intros p. rewrite Hlive, Hlook1, elem_of_app.
      case_bool_decide as Hp1.
      * split; [|tauto]. intros [[Hs | Hr] _]; [by destruct Hs|].
        specialize (Hlive1 p Hp1). rewrite (Hfresh p Hr) in Hlive1. by destruct Hlive1.
      * tauto.
Qed.

(** The live set is what was registered and not closed since.  When the
    hub is sent registrations of distinct clients that are not live
    already, between any deregistrations and cluster events, then every
    client it closes is closed once, and its context cancelled once, at
    that moment; the clients it closes were live at the start or
    registered; the live set at the end consists of the clients that were
    live at the start or registered and have not been closed; and its
    size is the size at the start plus the registrations minus the
    closings. *)
Theorem live_set_accounting (h : hubType) (msgs : list hubMsg) :
  NoDup (registrations msgs) →
  (∀ p, p ∈ registrations msgs → clients h !! p = None) →
  let out := hub_run h msgs in
  closed out.2 = cancelled out.2
  ∧ NoDup (closed out.2)
  ∧ (∀ p, p ∈ closed out.2 → is_Some (clients h !! p) ∨ p ∈ registrations msgs)
  ∧ (∀ p, is_Some (clients out.1 !! p) ↔
          (is_Some (clients h !! p) ∨ p ∈ registrations msgs) ∧ p ∉ closed out.2)
  ∧ (size (clients out.1) + length (closed out.2)
     = size (clients h) + length (registrations msgs))%nat.
Proof.
  intros Hnd Hfresh. cbn zeta.
  destruct (hub_run_accounting h msgs Hnd Hfresh) as (Hx & Hcl & Hwas & Hlive & Hsize).
  split; [exact Hx|]. split; [exact Hcl|]. split; [exact Hwas|].
  split; [exact Hlive | exact Hsize].
Qed.

(** *** The count of the gauge *)

(** The gauge is up to date after every run. *)
Lemma hub_run_gaugeShows (h : hubType) (msgs : list hubMsg) :
  gaugeShows h (hub_run h msgs).1 (hub_run h msgs).2.
Proof.
  revert h. induction msgs as [|m msgs IH]; intros h; [done|].
  rewrite (hub_run_cons json_Marshal_payload json_Marshal_unreq mem rangeOrder).
  cbn [fst snd]. eapply gaugeShows_trans; [apply hub_step_gaugeShows | apply IH].
Qed.

(** A turn of the loop that publishes nothing registers nothing, closes
    nothing and leaves the live set as it is. *)
Lemma hub_step_unpublished (h : hubType) (m : hubMsg) :
  published (hub_step h m).2 = [] →
  (∀ client, m ≠ ClientAdd client)
  ∧ (hub_step h m).1 = h ∧ closed (hub_step h m).2 = [].
Proof.
  intros Hpub.
  assert (∀ client, m ≠ ClientAdd client) as Hm.
  { intros client ->. done. }
  split; [done|].
  pose proof (hub_step_gaugeShows h m) as Hg. unfold gaugeShows in Hg.
  rewrite Hpub in Hg. simpl in Hg. split; [done|].
  pose proof (hub_step_size h m Hm) as Hsize. rewrite Hg in Hsize.
  destruct (closed (hub_step h m).2); [done | simpl in Hsize; lia].
Qed.

Lemma hub_run_unpublished (h : hubType) (msgs : list hubMsg) :
  published (hub_run h msgs).2 = [] →
  registrations msgs = [] ∧ closed (hub_run h msgs).2 = [].
Proof.
  revert h. induction msgs as [|m msgs IH]; intros h; [done|].
  rewrite (hub_run_cons json_Marshal_payload json_Marshal_unreq mem rangeOrder).
  cbn [fst snd]. rewrite (published_app (hub_step h m).2), closed_app.
  intros [Hstep Hrest]%app_eq_nil.
  destruct (hub_step_unpublished h m Hstep) as (Hm & _ & ->).
  destruct (IH _ Hrest) as [Hreg ->]. split; [|done].
  destruct m as [client | client | event]; [by destruct (Hm client) | done | done].
Qed.

(** Among registrations and deregistrations alone, a connection is
    closed only by a deregistration of it. *)
Lemma closed_deregistrations (h : hubType) (msgs : list hubMsg) (p : ptr) :
  Forall (λ m, isRegistration m = true) msgs →
  p ∈ closed (hub_run h msgs).2 → p ∈ deregistrations msgs.
Proof.
  intros Hreg. revert h. induction Hreg as [|m msgs Hm _ IH]; intros h.
  { by intros ?%elem_of_nil. }
  rewrite (hub_run_cons json_Marshal_payload json_Marshal_unreq mem rangeOrder).
  cbn [snd]. rewrite closed_app, elem_of_app.
  destruct m as [client | client | event]; [| | done].
  - intros [?%elem_of_nil | Hin]; [done|]. by apply (IH _ Hin).
  - change (deregistrations (ClientDel client :: msgs))
      with (client :: deregistrations msgs).
    intros [Hin | Hin]; [|apply list_elem_of_further; by apply (IH _ Hin)].
    simpl in Hin. unfold removeClient in Hin.
    destruct (clients h !! client); [|by apply elem_of_nil in Hin].
    simpl in Hin. apply list_elem_of_singleton in Hin as ->. apply list_elem_of_here.
Qed.

(** C8: after any sequence of messages to the hub loop that registers N
    distinct connections, with M the number of connections that were
    deregistered, that is removed from the live set, by a deregistration
    or by a kick, the live set has N-M connections and N-M is the count
    that the gauge of the cluster shows; if nothing was published,
    nothing was registered or removed.  The count is never negative and
    nothing is counted twice: a connection is removed at most once and
    only if it was registered, the live set is what was registered and
    not removed, and the deregistration of a connection that is not live
    changes nothing and publishes nothing.  Among registrations and
    deregistrations alone a connection is removed only by a
    deregistration of it, and M is the number of deregistrations when
    these are of distinct connections, each registered before. *)
Theorem C8_connection_count (msgs : list hubMsg) :
  NoDup (registrations msgs) →
  let after := hub_run hub msgs in
  let N := Z.of_nat (length (registrations msgs)) in
  let M := Z.of_nat (length (closed after.2)) in
  Z.of_nat (size (clients after.1)) = N - M
  ∧ match last (published after.2) with
    | Some n => Z.of_nat n = N - M
    | None => registrations msgs = [] ∧ closed after.2 = []
    end
  ∧ 0 ≤ N - M
  ∧ NoDup (closed after.2)
  ∧ (∀ p, p ∈ closed after.2 → p ∈ registrations msgs)
  ∧ (∀ p, is_Some (clients after.1 !! p) ↔ p ∈ registrations msgs ∧ p ∉ closed after.2)
  ∧ (∀ h client, clients h !! client = None →
       hub_step h (ClientDel client) = (h, []))
  ∧ (Forall (λ m, isRegistration m = true) msgs →
     (∀ p, p ∈ closed after.2 → p ∈ deregistrations msgs)
     ∧ (NoDup (deregistrations msgs) →
        (∀ before client rest, msgs = before ++ ClientDel client :: rest →
           client ∈ registrations before) →
        M = Z.of_nat (length (deregistrations msgs)))).
Proof.
  intros Hadds. cbn zeta.
  destruct (hub_run_accounting hub msgs Hadds) as (_ & Hcl & Hwas & Hlive & Hsize).
  { intros p _. apply lookup_empty. }
  change (size (clients hub)) with (size (∅ : gmap ptr bool)) in Hsize.
  rewrite map_size_empty in Hsize.
  assert (∀ p, ¬ is_Some (clients hub !! p)) as Hempty.
  { intros p [b Hb]. simpl in Hb. by rewrite lookup_empty in Hb. }
  split; [lia|]. split; [|split; [lia|]].
  { pose proof (hub_run_gaugeShows hub msgs) as Hg. unfold gaugeShows in Hg.
    destruct (last (published (hub_run hub msgs).2)) as [n|] eqn:Hlast.
    - subst n. lia.
    - apply last_None in Hlast. by apply hub_run_unpublished. }
  split; [done|]. split.
  { intros p Hp. destruct (Hwas p Hp) as [Hs | Hr]; [by destruct (Hempty p) | done]. }
  split.
  { intros p. rewrite Hlive. split.
    - intros [[Hs | Hr] Hn]; [by destruct (Hempty p) | done].
    - intros [Hr Hn]. split; [by right | done]. }
  split.
  { intros h client Hnone. by apply removeClient_absent. }
  intros Hreg. split.
  { intros p. by apply closed_deregistrations. }
  intros Hdels Hafter.
  pose proof (hub_run_size json_Marshal_payload json_Marshal_unreq mem rangeOrder
                hub msgs Hreg Hadds Hdels) as Hcount.
  change (size (clients hub)) with (size (∅ : gmap ptr bool)) in Hcount.
  rewrite map_size_empty in Hcount.
  cut (size (clients (hub_run hub msgs).1) + length (deregistrations msgs)
       = 0 + length (registrations msgs))%nat; [lia|].
  apply Hcount.
  - intros client _. apply lookup_empty.
  - intros before client rest Heq. right. by eapply Hafter.
Qed.

(** *** Nothing is handed to a closed connection *)

(** Within one turn of the loop the hub closes connections or hands out a
    message, never both. *)
Lemma hub_step_exclusive (h : hubType) (m : hubMsg) :
  closed (hub_step h m).2 = [] ∨ handed (hub_step h m).2 = [].
Proof.
  destruct m as [client | client | event].
  - by left.
  - right. apply removeClient_quiet.
  - destruct (clusterEvent_summary h event) as (_ & _ & Hframe & Hkick).
    destruct (Kick event || KickNonAdmin event).
    + right. by apply Hkick.
    + left. by apply Hframe.
Qed.

Lemma hub_step_not_handed (h : hubType) (m : hubMsg) (p : ptr) (message : bytes) :
  clients h !! p = None → (p, message) ∉ handed (hub_step h m).2.
Proof.
  intros Hdead Hin. destruct m as [client | client | event].
  - by apply elem_of_nil in Hin.
  - simpl in Hin. destruct (removeClient_quiet h client) as [Hq _].
    rewrite Hq in Hin. by apply elem_of_nil in Hin.
  - destruct (clusterEvent_summary h event) as (_ & Hhand & _).
    destruct (Hhand p message Hin) as (_ & _ & Hlive & _).
    rewrite Hdead in Hlive. by destruct Hlive.
Qed.

Lemma hub_step_stays_dead (h : hubType) (m : hubMsg) (p : ptr) :
  clients h !! p = None → m ≠ ClientAdd p →
  clients (hub_step h m).1 !! p = None.
Proof.
  intros Hdead Hm. destruct m as [client | client | event].
  - simpl. rewrite lookup_insert_ne; [done|]. by intros ->.
  - destruct (hub_step_removalsOnly h (ClientDel client) ltac:(by intros c))
      as (_ & _ & _ & Hlook & _).
    rewrite Hlook. by case_bool_decide.
  - destruct (hub_step_removalsOnly h (WebsocketClientEvent event) ltac:(by intros c))
      as (_ & _ & _ & Hlook & _).
    rewrite Hlook. by case_bool_decide.
Qed.

Lemma hub_step_closed_dead (h : hubType) (m : hubMsg) (p : ptr) :
  p ∈ closed (hub_step h m).2 → clients (hub_step h m).1 !! p = None.
Proof.
  intros Hin. destruct m as [client | client | event].
  - by apply elem_of_nil in Hin.
  - destruct (hub_step_removalsOnly h (ClientDel client) ltac:(by intros c))
      as (_ & _ & _ & Hlook & _).
    rewrite Hlook. by rewrite bool_decide_eq_true_2.
  - destruct (hub_step_removalsOnly h (WebsocketClientEvent event) ltac:(by intros c))
      as (_ & _ & _ & Hlook & _).
    rewrite Hlook. by rewrite bool_decide_eq_true_2.
Qed.

(** A client that is not live and is not registered is handed nothing. *)
Lemma hub_run_not_handed (h : hubType) (msgs : list hubMsg) (p : ptr) (message : bytes) :
  clients h !! p = None → p ∉ registrations msgs →
  (p, message) ∉ handed (hub_run h msgs).2.
Proof.
  revert h. induction msgs as [|m msgs IH]; intros h Hdead Hreg.
  - apply not_elem_of_nil.
  - rewrite (hub_run_cons json_Marshal_payload json_Marshal_unreq mem rangeOrder).
    cbn [snd]. rewrite handed_app. intros [Hin | Hin]%elem_of_app.
    + by eapply hub_step_not_handed.
    + eapply IH; [| |done].
      * apply hub_step_stays_dead; [done|]. intros ->. apply Hreg, list_elem_of_here.
      * intros Hp. apply Hreg. destruct m; simpl; try done. by apply list_elem_of_further.
Qed.

(** A run over two stretches of messages is the run over the first
    followed by the run over the second. *)
Lemma hub_run_app (h : hubType) (msgs1 msgs2 : list hubMsg) :
  hub_run h (msgs1 ++ msgs2) =
    ((hub_run (hub_run h msgs1).1 msgs2).1,
     (hub_run h msgs1).2 ++ (hub_run (hub_run h msgs1).1 msgs2).2).
Proof.
  revert h. induction msgs1 as [|m msgs1 IH]; intros h.
  { simpl. by destruct (hub_run h msgs2). }
  rewrite <- app_comm_cons.
  rewrite !(hub_run_cons json_Marshal_payload json_Marshal_unreq mem rangeOrder).
  rewrite IH. cbn [fst snd]. by rewrite <- app_assoc.
Qed.

(** The hub never hands a message to a connection after it has closed it,
    until the connection is registered again.  At any point of any run,
    after the messages [msgs1], whatever happened to the client [p]
    before: if the turn for the message [m] closes [p], and [p] is not
    registered by one of the messages [msgs2] that follow, then neither
    that turn nor any later one hands a message to [p]. *)
Theorem no_write_after_close (h : hubType) (msgs1 msgs2 : list hubMsg) (m : hubMsg)
    (p : ptr) (message : bytes) :
  let h1 := (hub_run h msgs1).1 in
  let turn := hub_step h1 m in
  let later := hub_run turn.1 msgs2 in
  p ∈ closed turn.2 →
  p ∉ registrations msgs2 →
  (hub_run h (msgs1 ++ m :: msgs2)).2 = (hub_run h msgs1).2 ++ turn.2 ++ later.2
  ∧ clients turn.1 !! p = None
  ∧ clients later.1 !! p = None
  ∧ (p, message) ∉ handed (turn.2 ++ later.2).
Proof.
  cbn zeta. intros Hclosed Hreg.
  pose proof (hub_step_closed_dead _ m p Hclosed) as Hdead.
  split; [|split; [done|split]].
  - rewrite hub_run_app. cbn [snd].
    by rewrite (hub_run_cons json_Marshal_payload json_Marshal_unreq mem rangeOrder).
  - revert Hdead Hreg. generalize (hub_step (hub_run h msgs1).1 m).1.
    induction msgs2 as [|m2 msgs2 IH]; intros h2 Hdead Hreg; [done|].
    rewrite (hub_run_cons json_Marshal_payload json_Marshal_unreq mem rangeOrder).
    cbn [fst]. apply IH.
    + apply hub_step_stays_dead; [done|]. intros ->. apply Hreg, list_elem_of_here.
    + intros Hp. apply Hreg. destruct m2; simpl; try done. by apply list_elem_of_further.
  - rewrite handed_app. intros [Hin | Hin]%elem_of_app.
    + destruct (hub_step_exclusive (hub_run h msgs1).1 m) as [Hnone | Hnone].
      * rewrite Hnone in Hclosed. by apply elem_of_nil in Hclosed.
      * rewrite Hnone in Hin. by apply elem_of_nil in Hin.
    + by eapply (hub_run_not_handed _ msgs2 p message).
Qed.

(** *** Events that carry several notifications, or none *)

(** The message and the error that the rendering ends with are those of
    the last notification that the event carries. *)
Lemma render_last (event : ClusterEvent) :
  (render event).1 =
    match last (notifications event) with
    | Some (ressource, payload) => prepareUnrequested ressource payload
    | None => ("", None)
    end.
Proof.
  unfold render, notifications, renderIf.
  destruct (negb (CollectionChanged event =? uuid_Nil)%N), (ConfigChanged event),
    (negb (FilesCopiedAttributeId event =? uuid_Nil)%N),
    (negb (FileRequestedAttributeId event =? uuid_Nil)%N),
    (Renew event), (SchemaLoading event), (SchemaLoaded event);
    simpl; try done; by destruct (prepareUnrequested _ _).
Qed.

(** For an event without kick flag, whatever it carries: the hub renders
    once for each notification, in their order, and the last one decides.
    If its rendering fails nothing is handed to anybody, even if an
    earlier rendering succeeded; if it succeeds its bytes are handed to
    every client that passes the login filter, even if an earlier
    rendering failed; and if the event carries no notification the empty
    message is handed to them.  The live set and the gauge stay as they
    are. *)
Theorem last_notification_decides (h : hubType) (event : ClusterEvent) :
  rangeOrder (clients h) ≡ₚ (map_to_list (clients h)).*1 →
  Kick event || KickNonAdmin event = false →
  let out := hub_step h (WebsocketClientEvent event) in
  let receivers := filter (λ p, loginMatch mem event p = true) (rangeOrder (clients h)) in
  out.1 = h
  ∧ closed out.2 = [] ∧ published out.2 = []
  ∧ rendered out.2 = (notifications event).*1
  ∧ handed out.2 =
      match last (notifications event) with
      | Some (ressource, payload) =>
          match (prepareUnrequested ressource payload).2 with
          | Some _ => []
          | None => (λ p, (p, (prepareUnrequested ressource payload).1)) <$> receivers
          end
      | None => (λ p, (p, "")) <$> receivers
      end.
Proof.
  intros Hperm Hk. cbn zeta.
  destruct (clusterEvent_summary h event) as (_ & _ & Hframe & _).
  destruct (Hframe Hk) as (Hh & Hc & Hp).
  split; [done|]. split; [done|]. split; [done|].
  pose proof (render_rendered json_Marshal_payload json_Marshal_unreq event) as Hshown.
  pose proof (render_last event) as Hlast.
  destruct (render_quiet event) as (_ & _ & _ & Hrh).
  simpl. unfold clusterEvent, rangeClients. rewrite Hk. simpl.
  destruct (render event) as [[jsonMsg err] shown]. simpl in *.
  assert (∀ msg, handed (foldl (visit event msg) (h, []) (rangeOrder (clients h))).2
                 = (λ p, (p, msg)) <$> filter (λ p, loginMatch mem event p = true)
                                          (rangeOrder (clients h))
                 ∧ rendered (foldl (visit event msg) (h, []) (rangeOrder (clients h))).2
                   = []) as Hrange.
  { intros msg. rewrite (foldl_visit_broadcast mem event msg _ h [] Hk)
      by (intros q Hq; by apply (rangeOrder_keys rangeOrder _ _ Hperm)).
    simpl. split; [apply handed_fmap_GoWrite | apply rendered_fmap_GoWrite]. }
  destruct err as [err|]; simpl.
  - rewrite rendered_app, handed_app, Hrh, Hshown. simpl. rewrite app_nil_r.
    split; [done|].
    destruct (last (notifications event)) as [[ressource payload]|]; [|done].
    by rewrite <- Hlast.
  - destruct (Hrange jsonMsg) as [Hhanded Hrendered].
    destruct (foldl _ _ _) as [h' done]. simpl in *.
    rewrite rendered_app, handed_app, Hrh, Hshown, Hrendered, Hhanded. simpl.
    rewrite app_nil_r. split; [done|].
    destruct (last (notifications event)) as [[ressource payload]|].
    + by rewrite <- Hlast.
    + by simplify_eq.
Qed.

End HubMore.

(** * The life of a connection *)

Section Lifecycle.

Context `{Listener}.
Variable json_Marshal_payload : unreqPayload → goerror + bytes.
Variable json_Marshal_unreq : UnreqResponseTransaction → goerror + bytes.
Variable mem : ptr → clientType.
Variable rangeOrder : gmap ptr bool → list ptr.

Local Abbreviation hub_run :=
  (hub_run json_Marshal_payload json_Marshal_unreq mem rangeOrder).


End Lifecycle.

(** ** The listener, the hub and a connection on the test double *)

Lemma unauthenticated_request_is_delegated_witness :
  let client := newClient "198.51.100.4" 6 in
  let run := @handleTransaction demo 5%positive client "data get" in
  executed (effects run) = [(6%positive, demo_request "data" "get" "")]
  ∧ value (@dispatch demo 5%positive client "data get") =
      Marshal (@ExecTransaction demo 6%positive 0 false false (demo_request "data" "get" "")
                 (resTrans_for (demo_request "data" "get" "")))
  ∧ client_after run = client
  ∧ hostChecks (effects run) = [].
Proof.
  exact (@unauthenticated_request_is_delegated demo demo_listener 5%positive 6%positive
           (demo_handshake "198.51.100.4:51234") (newClient "198.51.100.4" 6)
           "data get" (demo_request "data" "get" "") eq_refl eq_refl eq_refl).
Defined.

(** A blocked host gets no socket, and a request without handshake no
    client. *)
Example blocked_host_is_refused :
  @Handler demo demo_listener 5%positive 6%positive (demo_handshake "203.0.113.9:40000")
  = (None, [HdAbortRequestNoLog "bruteforce block"])
  ∧ @Handler demo demo_listener 5%positive 6%positive
      {| RemoteAddr := "198.51.100.4:51234"; Header := [] |}
    = (None, [HdUpgrade; HdAbortRequest "websocket" "general error"]).
Proof. by vm_compute. Qed.

Lemma live_set_accounting_witness :
  let msgs := [ClientAdd 4%positive;
               WebsocketClientEvent (demo_event 5 false true false false false);
               ClientDel 4%positive] in
  let out := demo_hub_run demo_hub msgs in
  closed out.2 = cancelled out.2
  ∧ NoDup (closed out.2)
  ∧ (∀ p, p ∈ closed out.2 → is_Some (clients demo_hub !! p) ∨ p ∈ registrations msgs)
  ∧ (∀ p, is_Some (clients out.1 !! p) ↔
          (is_Some (clients demo_hub !! p) ∨ p ∈ registrations msgs) ∧ p ∉ closed out.2)
  ∧ (size (clients out.1) + length (closed out.2)
     = size (clients demo_hub) + length (registrations msgs))%nat.
Proof.
  apply (@live_set_accounting demo demo_Marshal_payload demo_Marshal_unreq demo_mem
           demo_rangeOrder demo_hub).
  - apply NoDup_singleton.
  - intros p Hp. change (p ∈ [4%positive]) in Hp.
    apply list_elem_of_singleton in Hp as ->. by vm_compute.
Defined.

(** The two users of login 5, clients 2 and 4, are kicked, and the
    deregistration of client 4 that follows finds it gone; the admin of
    login 5 and the user of login 9 stay. *)
Example accounting_of_a_kick :
  let out :=
    demo_hub_run demo_hub
      [ClientAdd 4%positive;
       WebsocketClientEvent (demo_event 5 false true false false false);
       ClientDel 4%positive] in
  closed out.2 = [4%positive; 2%positive]
  ∧ published out.2 = [4; 3; 2]%nat
  ∧ map_to_list (clients out.1) = [(3%positive, true); (1%positive, true)].
Proof. by vm_compute. Qed.

(** Two connections of login 5 register, the one that is no admin is
    kicked, and two notifications for login 5 follow: after the turn that
    closes it nothing is handed to connection 2. *)
Lemma no_write_after_close_witness :
  let kick := WebsocketClientEvent (demo_event 5 false true false false false) in
  let notify := WebsocketClientEvent (demo_event 5 false false true false false) in
  let msgs1 := [ClientAdd 1%positive; ClientAdd 2%positive; notify] in
  let msgs2 := [notify; notify] in
  let h1 := (demo_hub_run hub msgs1).1 in
  let turn := demo_hub_step h1 kick in
  let later := demo_hub_run turn.1 msgs2 in
  (2%positive, "{transactionNr:0,responses:[{ressource:config_changed,payload:null,result:OK}]}") ∈ handed (demo_hub_run hub msgs1).2
  ∧ closed turn.2 = [2%positive]
  ∧ (demo_hub_run hub (msgs1 ++ kick :: msgs2)).2
    = (demo_hub_run hub msgs1).2 ++ turn.2 ++ later.2
  ∧ clients turn.1 !! 2%positive = None
  ∧ clients later.1 !! 2%positive = None
  ∧ (2%positive, "{transactionNr:0,responses:[{ressource:config_changed,payload:null,result:OK}]}") ∉ handed (turn.2 ++ later.2).
Proof.
  cbn zeta. split; [vm_compute; apply list_elem_of_here|]. split; [reflexivity|].
  apply (@no_write_after_close demo demo_Marshal_payload demo_Marshal_unreq demo_mem
           demo_rangeOrder hub
           [ClientAdd 1%positive; ClientAdd 2%positive;
            WebsocketClientEvent (demo_event 5 false false true false false)]
           [WebsocketClientEvent (demo_event 5 false false true false false);
            WebsocketClientEvent (demo_event 5 false false true false false)]
           (WebsocketClientEvent (demo_event 5 false true false false false))
           2%positive
           "{transactionNr:0,responses:[{ressource:config_changed,payload:null,result:OK}]}").
  - vm_compute. apply list_elem_of_here.
  - apply not_elem_of_nil.
Defined.

(** A connection that registers again after it was kicked is served
    again. *)
Example reregistered_connection_is_served :
  let kick := WebsocketClientEvent (demo_event 5 false true false false false) in
  let notify := WebsocketClientEvent (demo_event 5 false false true false false) in
  handed (demo_hub_run hub [ClientAdd 2%positive; kick; ClientAdd 2%positive; notify]).2
  = [(2%positive, "{transactionNr:0,responses:[{ressource:config_changed,payload:null,result:OK}]}")]
  ∧ handed (demo_hub_run hub [ClientAdd 2%positive; kick; notify]).2 = [].
Proof. by vm_compute. Qed.

(** Three connections register, the second sends its deregistration
    twice and the third is kicked: two connections were removed, and the
    gauge shows 3 - 2. *)
Lemma C8_connection_count_witness :
  let kick := WebsocketClientEvent (demo_event 9 true false false false false) in
  let msgs := [ClientAdd 1%positive; ClientAdd 2%positive; ClientAdd 3%positive;
               ClientDel 2%positive; ClientDel 2%positive; kick] in
  let after := demo_hub_run hub msgs in
  published after.2 = [1; 2; 3; 2; 1]%nat
  ∧ closed after.2 = [2%positive; 3%positive]
  ∧ last (published after.2) = Some 1%nat
  ∧ Z.of_nat (size (clients after.1)) = 3 - 2
  ∧ NoDup (closed after.2).
Proof.
  pose (msgs := [ClientAdd 1%positive; ClientAdd 2%positive; ClientAdd 3%positive;
                 ClientDel 2%positive; ClientDel 2%positive;
                 WebsocketClientEvent (demo_event 9 true false false false false)]).
  destruct (@C8_connection_count demo demo_Marshal_payload demo_Marshal_unreq demo_mem
              demo_rangeOrder msgs) as (Hcount & _ & _ & Hnd & _).
  { by apply (bool_decide_unpack _). }
  split; [by vm_compute|]. split; [by vm_compute|]. split; [by vm_compute|].
  split; [exact Hcount | exact Hnd].
Defined.

(** A second deregistration of the same connection removes nothing and
    publishes nothing: the counts published are 1 and 0. *)
Example repeated_deregistration_counts_once :
  let msgs := [ClientAdd 1%positive; ClientDel 1%positive; ClientDel 1%positive] in
  let after := demo_hub_run hub msgs in
  published after.2 = [1%nat; 0%nat]
  ∧ closed after.2 = [1%positive]
  ∧ clients after.1 = ∅.
Proof. by vm_compute. Qed.

Lemma last_notification_decides_witness :
  let out :=
    demo_hub_step demo_hub (WebsocketClientEvent (demo_event 5 false false true false true)) in
  out.1 = demo_hub
  ∧ closed out.2 = [] ∧ published out.2 = []
  ∧ rendered out.2 = ["config_changed"; "schema_loaded"]
  ∧ handed out.2 = [].
Proof.
  exact (@last_notification_decides demo demo_Marshal_payload demo_Marshal_unreq demo_mem
           demo_rangeOrder demo_hub (demo_event 5 false false true false true)
           (reflexivity _) eq_refl).
Defined.


(** * Further properties of the limiter *)

Section LimiterMore.

(** When some call is counted as in processing, there is one. *)
Lemma processing_exists (l : list callState) :
  (0 < length (filter (λ c, isProcessing c = true) l))%nat →
  ∃ j, l !! j = Some Processing.
Proof.
  intros Hpos.
  destruct (filter (λ c, isProcessing c = true) l) as [|c rest] eqn:Hf; [simpl in Hpos; lia|].
  assert (c ∈ filter (λ c, isProcessing c = true) l) as Hin
    by (rewrite Hf; apply list_elem_of_here).
  apply list_elem_of_filter in Hin as [Hc Hin].
  destruct c; try discriminate Hc.
  by apply list_elem_of_lookup in Hin.
Qed.

Lemma processing_none (l : list callState) :
  (∀ j, l !! j ≠ Some Processing) →
  length (filter (λ c, isProcessing c = true) l) = 0%nat.
Proof.
  intros Hnone.
  destruct (length (filter (λ c, isProcessing c = true) l)) eqn:Hlen; [done|].
  destruct (processing_exists l) as [j Hj]; [lia|]. by destruct (Hnone j).
Qed.

(** The limiter loses no slot and blocks no call for ever on its own: in
    every state that the calls can reach, a call that waits for a slot can
    take one at once, or some call is in processing and can give its slot
    back, however it ends; and when no call is in processing, as after
    all of them have ended, the channel is empty and all ten slots are
    free. *)
Theorem limiter_progress (acts : list limiterAction) (s : limiterSystem) :
  limiterRun limiterStart acts = Some s →
  (∀ i, calls s !! i = Some Entering →
     is_Some (limiterStep s (Acquire i))
     ∨ ∃ j, calls s !! j = Some Processing
            ∧ ∀ o, is_Some (limiterStep s (Release j o)))
  ∧ ((∀ j, calls s !! j ≠ Some Processing) → hubRequestLimit s = []).
Proof.
  intros Hrun.
  assert (limiterInv s) as [Hcount Hcap].
  { eapply limiterRun_inv; [|done]. split; simpl; [done | unfold hubRequestLimit_cap; lia]. }
  unfold inProcessing in Hcount. split.
  - intros i Hi.
    destruct (hubRequestLimit s) as [|b rest] eqn:Hbuf.
    + left. simpl. rewrite Hi, Hbuf. simpl. by eexists.
    + right. destruct (processing_exists (calls s)) as [j Hj]; [simpl in Hcount; lia|].
      exists j. split; [done|]. intros o. simpl. rewrite Hj, Hbuf. by eexists.
  - intros Hnone. rewrite (processing_none _ Hnone) in Hcount.
    by destruct (hubRequestLimit s).
Qed.

End LimiterMore.

(** The state that the schedule leads to and in which ten calls wait. *)
Lemma limiter_progress_witness :
  (∀ i, calls demo_busy !! i = Some Entering →
     is_Some (limiterStep demo_busy (Acquire i))
     ∨ ∃ j, calls demo_busy !! j = Some Processing
            ∧ ∀ o, is_Some (limiterStep demo_busy (Release j o)))
  ∧ ((∀ j, calls demo_busy !! j ≠ Some Processing) → hubRequestLimit demo_busy = []).
Proof.
  exact (limiter_progress demo_schedule demo_busy eq_refl).
Defined.

(** * Properties of the builder of form states *)

Section FormStatesFacts.

Import FormStates.

Lemma strictEq_true (a b : jsval) : strictEq a b = true ↔ a = b.
Proof. unfold strictEq. apply bool_decide_eq_true. Qed.

Lemma includes_true (out : list jsval) (v : jsval) : includes out v = true ↔ v ∈ out.
Proof.
  unfold includes. rewrite existsb_exists. split.
  - intros (x & Hin & ->%strictEq_true). by apply list_elem_of_In.
  - intros Hin. exists v. split; [by apply list_elem_of_In | by apply strictEq_true].
Qed.

(** A list of field references as [fieldIdsUsed] keeps it: without
    repetition and without [null]. *)
Lemma pushNew_spec (out : list jsval) (v : jsval) :
  NoDup out → JNull ∉ out →
  NoDup (pushNew out v) ∧ (JNull ∉ pushNew out v)
  ∧ ∀ x, x ∈ pushNew out v ↔ x ∈ out ∨ (x = v ∧ v ≠ JNull).
Proof.
  intros Hnd Hnull. unfold pushNew.
  destruct (strictEq v JNull) eqn:Hv; simpl.
  { apply strictEq_true in Hv as ->. split; [done|]. split; [done|].
    intros x. split; [by left | by intros [? | [_ ?]]]. }
  assert (v ≠ JNull) as Hne by (intros ->; by rewrite (proj2 (strictEq_true _ _)) in Hv).
  destruct (includes out v) eqn:Hin; simpl.
  - apply includes_true in Hin. split; [done|]. split; [done|].
    intros x. split; [by left | by intros [? | [-> _]]].
  - assert (v ∉ out) as Hout.
    { intros Hv'. apply includes_true in Hv'. by rewrite Hv' in Hin. }
    split; [|split].
    + apply NoDup_app. split; [done|]. split; [|apply NoDup_singleton].
      by intros x Hx ->%list_elem_of_singleton.
    + intros [? | Heq%list_elem_of_singleton]%elem_of_app; [done | by apply Hne].
    + intros x. rewrite elem_of_app, list_elem_of_singleton.
      split; [intros [? | ->]; auto | intros [? | [-> _]]; auto].
Qed.

Lemma foldl_pushNew_spec (vs : list jsval) (out : list jsval) :
  NoDup out → JNull ∉ out →
  NoDup (foldl pushNew out vs) ∧ (JNull ∉ foldl pushNew out vs)
  ∧ ∀ x, x ∈ foldl pushNew out vs ↔ x ∈ out ∨ (x ∈ vs ∧ x ≠ JNull).
Proof.
  revert out. induction vs as [|v vs IH]; intros out Hnd Hnull; simpl.
  { split; [done|]. split; [done|]. intros x. split; [by left|].
    by intros [? | [?%elem_of_nil _]]. }
  destruct (pushNew_spec out v Hnd Hnull) as (Hnd1 & Hnull1 & Hin1).
  destruct (IH _ Hnd1 Hnull1) as (Hnd2 & Hnull2 & Hin2).
  split; [done|]. split; [done|].
  intros x. rewrite Hin2, Hin1, elem_of_cons. split.
  - intros [[? | [-> ?]] | [? ?]]; auto.
  - intros [? | [[-> | ?] ?]]; auto.
Qed.

(** The references of a state in the order in which the loops read
    them. *)
Local Abbreviation references s :=
  (flat_map (λ c, [fieldId0 c; fieldId1 c]) (conditions s) ++ (fieldId <$> effects s)).

Lemma fieldIdsUsed_foldl (states : list state) (out : list jsval) :
  foldl (λ out s,
           let out :=
             foldl (λ out c, pushNew (pushNew out (fieldId0 c)) (fieldId1 c))
                   out (conditions s) in
           foldl (λ out e, pushNew out (fieldId e)) out (effects s))
        out states
  = foldl pushNew out (flat_map (λ s, references s) states).
Proof.
  revert out. induction states as [|s states IH]; intros out; [done|].
  cbn [foldl flat_map]. rewrite IH, !foldl_app. f_equal.
  assert (∀ cs o, foldl (λ out c, pushNew (pushNew out (fieldId0 c)) (fieldId1 c)) o cs
                  = foldl pushNew o (flat_map (λ c, [fieldId0 c; fieldId1 c]) cs)) as Hc.
  { induction cs as [|c cs IHc]; intros o; [done|]. simpl. by rewrite IHc. }
  assert (∀ es o, foldl (λ out e, pushNew out (fieldId e)) o es
                  = foldl pushNew o (fieldId <$> es)) as He.
  { induction es as [|e es IHe]; intros o; [done|]. simpl. by rewrite IHe. }
  by rewrite Hc, He.
Qed.

(** What [fieldIdsUsed] lists: the references of the states that are not
    [null]. *)
Lemma fieldIdsUsed_elem (states : list state) (v : jsval) :
  v ∈ fieldIdsUsed states ↔
    v ≠ JNull
    ∧ ∃ s, s ∈ states
           ∧ ((∃ c, c ∈ conditions s ∧ (v = fieldId0 c ∨ v = fieldId1 c))
              ∨ (∃ e, e ∈ effects s ∧ v = fieldId e)).
Proof.
  unfold fieldIdsUsed. rewrite fieldIdsUsed_foldl.
  destruct (foldl_pushNew_spec (flat_map (λ s, references s) states) [])
    as (_ & _ & Hin); [constructor | apply not_elem_of_nil |].
  rewrite Hin. split.
  - intros [?%elem_of_nil | [Hv Hne]]; [done|]. split; [done|].
    apply list_elem_of_In, in_flat_map in Hv as (s & Hs & Hv).
    exists s. split; [by apply list_elem_of_In|].
    apply in_app_or in Hv as [Hv | Hv].
    + left. apply in_flat_map in Hv as (c & Hc & Hv). exists c.
      split; [by apply list_elem_of_In|].
      destruct Hv as [<- | [<- | []]]; auto.
    + right. apply list_elem_of_In, list_elem_of_fmap in Hv as (e & -> & He). eauto.
  - intros (Hne & s & Hs & Hv). right. split; [|done].
    apply list_elem_of_In, in_flat_map. exists s. split; [by apply list_elem_of_In|].
    apply in_or_app. destruct Hv as [(c & Hc & Hv) | (e & He & ->)].
    + left. apply in_flat_map. exists c. split; [by apply list_elem_of_In|].
      destruct Hv as [-> | ->]; simpl; auto.
    + right. apply list_elem_of_In, list_elem_of_fmap. eauto.
Qed.

(** [fieldIdsUsed] lists every reference of the states once: it has no
    repetition and no [null], and a value is in it exactly when it is not
    [null] and is the first or the second field of a condition, or the
    field of an effect, of one of the states. *)
Theorem fieldIdsUsed_spec (states : list state) :
  NoDup (fieldIdsUsed states)
  ∧ (JNull ∉ fieldIdsUsed states)
  ∧ ∀ v, v ∈ fieldIdsUsed states ↔
         v ≠ JNull
         ∧ ∃ s, s ∈ states
                ∧ ((∃ c, c ∈ conditions s ∧ (v = fieldId0 c ∨ v = fieldId1 c))
                   ∨ (∃ e, e ∈ effects s ∧ v = fieldId e)).
Proof.
  split; [|split; [|apply fieldIdsUsed_elem]].
  - unfold fieldIdsUsed. rewrite fieldIdsUsed_foldl.
    apply (foldl_pushNew_spec (flat_map (λ s, references s) states) []);
      [constructor | apply not_elem_of_nil].
  - unfold fieldIdsUsed. rewrite fieldIdsUsed_foldl.
    apply (foldl_pushNew_spec (flat_map (λ s, references s) states) []);
      [constructor | apply not_elem_of_nil].
Qed.

Section ShowFacts.

Variable toLowerCase : string → string.
Variable textFilter : string.
Variable fieldFilter : string.

Local Abbreviation shows := (shows toLowerCase textFilter fieldFilter).
Local Abbreviation stateShowFrom := (stateShowFrom toLowerCase textFilter fieldFilter).
Local Abbreviation stateShowIndex := (stateShowIndex toLowerCase textFilter fieldFilter).

Lemma conditionsMention_true (f : string) (cs : list condition) :
  conditionsMention f cs = true ↔
  ∃ c, c ∈ cs ∧ (fieldId0 c = JString f ∨ fieldId1 c = JString f).
Proof.
  induction cs as [|c cs IH]; simpl.
  { split; [done | by intros (c & ?%elem_of_nil & _)]. }
  destruct (strictEq (fieldId0 c) (JString f) || strictEq (fieldId1 c) (JString f)) eqn:Hc.
  - split; [|done]. intros _. exists c. split; [apply list_elem_of_here|].
    apply orb_true_iff in Hc as [Hc | Hc]; apply strictEq_true in Hc; auto.
  - apply orb_false_iff in Hc as [H0 H1]. rewrite IH. split.
    + intros (c' & Hin & Hm). exists c'. split; [by apply list_elem_of_further | done].
    + intros (c' & [-> | Hin]%elem_of_cons & Hm); [|eauto].
      destruct Hm as [Hm | Hm]; apply strictEq_true in Hm; congruence.
Qed.

Lemma effectsMention_true (f : string) (es : list effect) :
  effectsMention f es = true ↔ ∃ e, e ∈ es ∧ fieldId e = JString f.
Proof.
  induction es as [|e es IH]; simpl.
  { split; [done | by intros (e & ?%elem_of_nil & _)]. }
  destruct (strictEq (fieldId e) (JString f)) eqn:He.
  - split; [|done]. intros _. exists e. split; [apply list_elem_of_here|].
    by apply strictEq_true.
  - rewrite IH. split.
    + intros (e' & Hin & Hm). exists e'. split; [by apply list_elem_of_further | done].
    + intros (e' & [-> | Hin]%elem_of_cons & Hm); [|eauto].
      apply strictEq_true in Hm. congruence.
Qed.

(** When the index of a state is pushed: the text filter is empty or
    occurs in the description, both in lower case, and the field filter is
    empty or is the first or second field of one of its conditions or the
    field of one of its effects. *)
Lemma shows_true (s : state) :
  shows s = true ↔
  (textFilter = "" ∨
   str_includes (toLowerCase (description s)) (toLowerCase textFilter) = true)
  ∧ (fieldFilter = ""
     ∨ (∃ c, c ∈ conditions s
             ∧ (fieldId0 c = JString fieldFilter ∨ fieldId1 c = JString fieldFilter))
     ∨ (∃ e, e ∈ effects s ∧ fieldId e = JString fieldFilter)).
Proof.
  unfold FormStates.shows.
  rewrite <- conditionsMention_true, <- effectsMention_true.
  destruct (String.eqb_spec textFilter "") as [Ht | Ht],
           (String.eqb_spec fieldFilter "") as [Hf | Hf]; simpl.
  - split; auto.
  - destruct (conditionsMention fieldFilter (conditions s)); simpl.
    + split; auto.
    + destruct (effectsMention fieldFilter (effects s)); simpl.
      * split; auto.
      * split; [done|]. intros (_ & [? | [? | ?]]); done.
  - destruct (str_includes _ _); simpl.
    + split; auto.
    + split; [done|]. intros ([? | ?] & _); done.
  - destruct (str_includes _ _); simpl.
    + destruct (conditionsMention fieldFilter (conditions s)); simpl.
      * split; auto.
      * destruct (effectsMention fieldFilter (effects s)); simpl.
        -- split; auto.
        -- split; [done|]. intros (_ & [? | [? | ?]]); done.
    + split; [done|]. intros ([? | ?] & _); done.
Qed.

Lemma stateShowFrom_spec (i : nat) (states : list state) :
  StronglySorted lt (stateShowFrom i states)
  ∧ ∀ n, n ∈ stateShowFrom i states ↔
         ∃ k s, n = (i + k)%nat ∧ states !! k = Some s ∧ shows s = true.
Proof.
  revert i. induction states as [|s states IH]; intros i; simpl.
  { split; [constructor|]. intros n. split; [by intros ?%elem_of_nil|].
    by intros (k & s & _ & ? & _). }
  destruct (IH (S i)) as [Hsorted Hin].
  assert (∀ n, n ∈ stateShowFrom (S i) states → (i < n)%nat) as Hlater.
  { intros n (k & s' & -> & _)%Hin. lia. }
  assert (∀ n, n ∈ stateShowFrom (S i) states ↔
               ∃ k s', n = (i + S k)%nat ∧ states !! k = Some s' ∧ shows s' = true)
    as Hin'.
  { intros n. rewrite Hin. split; intros (k & s' & -> & ?); exists k, s';
      (split; [lia | done]). }
  destruct (shows s) eqn:Hs.
  - split.
    + constructor; [done|]. apply Forall_forall. intros n Hn. by apply Hlater.
    + intros n. rewrite elem_of_cons, Hin'. split.
      * intros [-> | (k & s' & -> & Hk & Hs')].
        -- exists 0%nat, s. split; [lia | done].
        -- exists (S k), s'. done.
      * intros ([|k] & s' & -> & Hk & Hs'); [left; lia|].
        right. exists k, s'. done.
  - split; [done|]. intros n. rewrite Hin'. split.
    + intros (k & s' & -> & Hk & Hs'). exists (S k), s'. done.
    + intros ([|k] & s' & -> & Hk & Hs'); [simpl in Hk; congruence|].
      exists k, s'. done.
Qed.

(** What [stateShowIndex] lists: the positions of the states that pass
    both filters. *)
Lemma stateShowIndex_elem (states : list state) (n : nat) :
  n ∈ stateShowIndex states ↔
    ∃ s, states !! n = Some s
         ∧ (textFilter = "" ∨
            str_includes (toLowerCase (description s)) (toLowerCase textFilter) = true)
         ∧ (fieldFilter = ""
            ∨ (∃ c, c ∈ conditions s
                    ∧ (fieldId0 c = JString fieldFilter
                       ∨ fieldId1 c = JString fieldFilter))
            ∨ (∃ e, e ∈ effects s ∧ fieldId e = JString fieldFilter)).
Proof.
  unfold FormStates.stateShowIndex.
  destruct (stateShowFrom_spec 0 states) as [_ Hin].
  rewrite Hin. split.
  - intros (k & s & -> & Hk & Hs). exists s. split; [done|]. by apply shows_true.
  - intros (s & Hn & Hs). exists n, s. split; [done|]. split; [done|].
    by apply shows_true.
Qed.

(** [stateShowIndex] lists, in ascending order and without repetition,
    the positions of the states that pass both filters: the text filter
    is empty or occurs in the description of the state, both in lower
    case, and the field filter is empty or names the first or the second
    field of one of its conditions or the field of one of its effects.
    With both filters empty every position is listed. *)
Theorem stateShowIndex_spec (states : list state) :
  StronglySorted lt (stateShowIndex states)
  ∧ (∀ n, n ∈ stateShowIndex states ↔
          ∃ s, states !! n = Some s
               ∧ (textFilter = "" ∨
                  str_includes (toLowerCase (description s)) (toLowerCase textFilter) = true)
               ∧ (fieldFilter = ""
                  ∨ (∃ c, c ∈ conditions s
                          ∧ (fieldId0 c = JString fieldFilter
                             ∨ fieldId1 c = JString fieldFilter))
                  ∨ (∃ e, e ∈ effects s ∧ fieldId e = JString fieldFilter)))
  ∧ (textFilter = "" → fieldFilter = "" →
     stateShowIndex states = seq 0 (length states)).
Proof.
  split; [|split; [apply stateShowIndex_elem|]].
  - apply (stateShowFrom_spec 0 states).
  - unfold FormStates.stateShowIndex. intros Ht Hf.
    assert (∀ s, shows s = true) as Hall.
    { intros s. apply shows_true. auto. }
    generalize 0%nat. induction states as [|s states IH]; intros i; simpl; [done|].
    rewrite Hall. f_equal. apply IH.
Qed.

(** Adding a state and the filters: the new state comes first and moves
    every other state one position up; it is listed itself exactly when
    no field filter is set and the text filter is empty or occurs in the
    empty description, so with a field filter set a state that has just
    been added is not shown. *)
Theorem stateShowIndex_add (nilUuid : string) (states : list state) :
  stateShowIndex (add nilUuid states) =
    (if shows {| id := nilUuid; description := ""; conditions := []; effects := [] |}
     then [0%nat] else [])
    ++ (S <$> stateShowIndex states)
  ∧ (fieldFilter ≠ "" → 0%nat ∉ stateShowIndex (add nilUuid states))
  ∧ (textFilter = "" → fieldFilter = "" → 0%nat ∈ stateShowIndex (add nilUuid states)).
Proof.
  assert (∀ i l, stateShowFrom (S i) l = S <$> stateShowFrom i l) as Hshift.
  { intros i l. revert i. induction l as [|s l IH]; intros i; simpl; [done|].
    destruct (shows s); csimpl; by rewrite IH. }
  assert (stateShowIndex (add nilUuid states) =
            (if shows {| id := nilUuid; description := ""; conditions := []; effects := [] |}
             then [0%nat] else [])
            ++ (S <$> stateShowIndex states)) as Heq.
  { unfold FormStates.stateShowIndex, add. simpl. rewrite Hshift. by case_match. }
  split; [done|]. split.
  - intros Hf. rewrite stateShowIndex_elem. intros (s & [= <-] & _ & [? | [(c & ?%elem_of_nil & _) | (e & ?%elem_of_nil & _)]]);
      done.
  - intros Ht Hf. apply stateShowIndex_elem. eexists. split; [done|]. auto.
Qed.

End ShowFacts.

(** A condition as [addCondition] creates it has no property [fieldId0]
    or [fieldId1].  Adding one to a state therefore changes neither which
    fields [fieldIdsUsed] lists, apart from the value [undefined], which
    it lists from then on, nor which states [stateShowIndex] lists,
    whatever the filters. *)
Theorem addCondition_unseen (toLowerCase : string → string) (textFilter fieldFilter : string)
    (states : list state) (k : nat) (s : state) :
  states !! k = Some s →
  let states' := <[k := addCondition s]> states in
  (∀ f, JString f ∈ fieldIdsUsed states' ↔ JString f ∈ fieldIdsUsed states)
  ∧ JUndefined ∈ fieldIdsUsed states'
  ∧ stateShowIndex toLowerCase textFilter fieldFilter states'
    = stateShowIndex toLowerCase textFilter fieldFilter states.
Proof.
  intros Hk. cbn zeta.
  assert (∀ x, x ∈ <[k := addCondition s]> states ↔
               (x = addCondition s ∨ ∃ j, j ≠ k ∧ states !! j = Some x)) as Hmem.
  { intros x. rewrite list_elem_of_lookup. split.
    - intros (j & Hj). destruct (decide (j = k)) as [-> | Hne].
      + rewrite list_lookup_insert_eq in Hj by (by eapply lookup_lt_Some). left. congruence.
      + rewrite list_lookup_insert_ne in Hj by done. eauto.
    - intros [-> | (j & Hne & Hj)].
      + exists k. apply list_lookup_insert_eq. by eapply lookup_lt_Some.
      + exists j. by rewrite list_lookup_insert_ne. }
  split; [|split].
  - intros f.
    rewrite !fieldIdsUsed_elem. split; intros (Hne & x & Hx & Hv); (split; [done|]).
    + apply Hmem in Hx as [-> | (j & _ & Hj)].
      * exists s. split; [by eapply list_elem_of_lookup_2|]. simpl in Hv.
        destruct Hv as [(c & [Hc | ->%list_elem_of_singleton]%elem_of_app & Hv) | Hv];
          [left; eauto | by destruct Hv | by right].
      * exists x. split; [by eapply list_elem_of_lookup_2 | done].
    + apply list_elem_of_lookup in Hx as (j & Hj).
      destruct (decide (j = k)) as [-> | Hjk].
      * exists (addCondition s). split; [apply Hmem; by left|].
        assert (x = s) as -> by congruence. simpl.
        destruct Hv as [(c & Hc & Hv) | Hv]; [left | by right].
        exists c. split; [|done]. apply elem_of_app. by left.
      * exists x. split; [apply Hmem; right; eauto | done].
  - apply fieldIdsUsed_elem. split; [done|]. exists (addCondition s). split; [apply Hmem; by left|].
    left. exists newCondition. split; [|by left]. simpl. apply elem_of_app. right.
    apply list_elem_of_here.
  - assert (∀ t, shows toLowerCase textFilter fieldFilter (addCondition t)
                 = shows toLowerCase textFilter fieldFilter t) as Hshow.
    { intros t. unfold shows. simpl.
      assert (conditionsMention fieldFilter (conditions t ++ [newCondition])
              = conditionsMention fieldFilter (conditions t)) as ->; [|done].
      induction (conditions t) as [|c cs IH]; simpl; [done|]. by rewrite IH. }
    clear Hmem. unfold stateShowIndex. generalize 0%nat. revert k Hk.
    induction states as [|t states IH]; intros k Hk i; [done|].
    destruct k as [|k]; simpl in *.
    + simplify_eq. by rewrite Hshow.
    + by rewrite (IH k Hk).
Qed.

End FormStatesFacts.

(** ** The builder of form states on examples *)

Lemma addCondition_unseen_witness :
  let st :=
    {| FormStates.id := "s1"; FormStates.description := "Hide";
       FormStates.conditions := [];
       FormStates.effects :=
         [{| FormStates.fieldId := FormStates.JString "f1";
             FormStates.newState := "hidden" |}] |} in
  let states' := <[0%nat := FormStates.addCondition st]> [st] in
  (∀ f, FormStates.JString f ∈ FormStates.fieldIdsUsed states'
        ↔ FormStates.JString f ∈ FormStates.fieldIdsUsed [st])
  ∧ FormStates.JUndefined ∈ FormStates.fieldIdsUsed states'
  ∧ FormStates.stateShowIndex (λ x, x) "" "f1" states'
    = FormStates.stateShowIndex (λ x, x) "" "f1" [st].
Proof.
  exact (addCondition_unseen (λ x, x) "" "f1"
           [{| FormStates.id := "s1"; FormStates.description := "Hide";
               FormStates.conditions := [];
               FormStates.effects :=
                 [{| FormStates.fieldId := FormStates.JString "f1";
                     FormStates.newState := "hidden" |}] |}]
           0%nat _ eq_refl).
Defined.

(** Two states with the same field in an effect, one of them with a
    condition that has just been added: the field is listed once, after
    the [undefined] of the condition; the filter for the field shows both
    states, the filter for a word of the description one. *)
Example form_states_example :
  let effect := {| FormStates.fieldId := FormStates.JString "f1";
                   FormStates.newState := "hidden" |} in
  let s1 := {| FormStates.id := "s1"; FormStates.description := "hide price";
               FormStates.conditions := [FormStates.newCondition];
               FormStates.effects := [effect] |} in
  let s2 := {| FormStates.id := "s2"; FormStates.description := "lock";
               FormStates.conditions := []; FormStates.effects := [effect] |} in
  FormStates.fieldIdsUsed [s1; s2] = [FormStates.JUndefined; FormStates.JString "f1"]
  ∧ FormStates.stateShowIndex (λ x, x) "" "f1" [s1; s2] = [0; 1]%nat
  ∧ FormStates.stateShowIndex (λ x, x) "price" "" [s1; s2] = [0%nat]
  ∧ FormStates.stateShowIndex (λ x, x) "price" "f2" [s1; s2] = [].
Proof. by vm_compute. Qed.

(** * Properties of the copying of files *)

Section FileCopyFacts.

Import FileCopy.

Context `{World}.

Variable loginId : Z.
Variable srcAttributeId dstAttributeId : uuid.

Local Abbreviation copyLoop := (copyLoop loginId srcAttributeId dstAttributeId).
Local Abbreviation copyOne := (copyOne loginId srcAttributeId dstAttributeId).
Local Abbreviation copyFails := (copyFails loginId srcAttributeId dstAttributeId).
Local Abbreviation srcPath f := (GetFilePathVersion srcAttributeId (Id f) (Version f)).

(** The rows that are scanned: all of them, or the ones before the first
    that fails. *)
Lemma scanRows_spec (rows : list (goerror + DataGetValueFile))
    (acc : list DataGetValueFile) :
  match scanRows rows acc with
  | (files, None) => ∃ fs, rows = inr <$> fs ∧ files = acc ++ fs
  | (files, Some err) =>
      ∃ fs rest, rows = (inr <$> fs) ++ inl err :: rest ∧ files = acc ++ fs
  end.
Proof.
  revert acc. induction rows as [|[err | f] rows IH]; intros acc; simpl.
  - exists []. by rewrite app_nil_r.
  - exists [], rows. by rewrite app_nil_r.
  - specialize (IH (acc ++ [f])).
    destruct (scanRows rows (acc ++ [f])) as [files [err|]].
    + destruct IH as (fs & rest & -> & ->). exists (f :: fs), rest.
      by rewrite <- app_assoc.
    + destruct IH as (fs & -> & ->). exists (f :: fs). by rewrite <- app_assoc.
Qed.

(** The check for existence reads only; it succeeds when every file
    exists, and then has looked at each of them. *)
Lemma checkExist_spec (w : world) (todo : list DataGetValueFile) :
  Forall (λ e, isWrite e = false) (checkExist w srcAttributeId todo).2
  ∧ match (checkExist w srcAttributeId todo).1 with
    | None =>
        (checkExist w srcAttributeId todo).2 = (λ f, CfExists (srcPath f)) <$> todo
        ∧ Forall (λ f, Exists w (srcPath f) = inr true) todo
    | Some _ => ∃ f, f ∈ todo ∧ Exists w (srcPath f) ≠ inr true
    end.
Proof.
  induction todo as [|f todo [IHw IH]]; simpl; [by split|].
  destruct (Exists w (srcPath f)) as [err | [|]] eqn:Hex; simpl.
  - split; [by repeat constructor|]. exists f. split; [apply list_elem_of_here|].
    by rewrite Hex.
  - destruct (checkExist w srcAttributeId todo) as [[err|] tr]; simpl in *.
    + split; [by constructor|]. destruct IH as (g & Hg & Hne).
      exists g. split; [by apply list_elem_of_further | done].
    + split; [by constructor|]. destruct IH as [-> Hall]. split; [done|].
      by constructor.
  - split; [by repeat constructor|]. exists f. split; [apply list_elem_of_here|].
    by rewrite Hex.
Qed.

(** The copying loop, seen from any of its turns: the files before the
    first failure get their new ID and version 0 and are copied and
    registered one after the other; the others are left as they were;
    the loop fails at one call for the first of these. *)
Lemma copyLoop_spec (todo : list DataGetValueFile) :
  ∀ (w : world) (done : list DataGetValueFile) (tr : list copyEffect),
  let out := copyLoop w (length done) todo (done ++ todo) tr in
  ∃ ids fs rest tail,
    todo = fs ++ rest ∧ length ids = length fs
    ∧ files_out out = done ++ zip_with renew ids fs ++ rest
    ∧ did out = tr ++ concat (zip_with copyOne ids fs) ++ tail
    ∧ match err_out out with
      | None => rest = [] ∧ tail = []
      | Some _ =>
          ∃ f rest' idNew n,
            rest = f :: rest' ∧ (1 ≤ n ≤ 6)%nat ∧ tail = copyFails idNew f n
      end.
Proof.
  induction todo as [|f todo IH]; intros w done tr; cbn zeta.
  { exists [], [], [], []. simpl. by rewrite !app_nil_r. }
  assert (Hfail : ∀ w' err idNew n, (1 ≤ n ≤ 6)%nat →
    let out := mkCopied (done ++ f :: todo) (Some err) w'
                 (tr ++ copyFails idNew f n) in
    ∃ ids fs rest tail,
      f :: todo = fs ++ rest ∧ length ids = length fs
      ∧ files_out out = done ++ zip_with renew ids fs ++ rest
      ∧ did out = tr ++ concat (zip_with copyOne ids fs) ++ tail
      ∧ match err_out out with
        | None => rest = [] ∧ tail = []
        | Some _ =>
            ∃ f rest' idNew n,
              rest = f :: rest' ∧ (1 ≤ n ≤ 6)%nat ∧ tail = copyFails idNew f n
        end).
  { intros w' err idNew n Hn. exists [], [], (f :: todo), (copyFails idNew f n).
    simpl. repeat split. by exists f, todo, idNew, n. }
  simpl.
  destruct (NewV4 w) as [w1 [err | idNew]].
  { apply (Hfail w1 err (Id f) 1%nat); lia. }
  destruct (FileCopy w1 _ _ false) as [w2 [err|]].
  { rewrite <- !app_assoc. apply (Hfail w2 err idNew 2%nat); lia. }
  destruct (Begin w2) as [w3 [err | tx]].
  { rewrite <- !app_assoc. apply (Hfail w3 err idNew 3%nat); lia. }
  destruct (ExecInsertFile w3 tx _ idNew) as [w4 [err|]].
  { rewrite <- !app_assoc. apply (Hfail (Rollback w4 tx) err idNew 4%nat); lia. }
  destruct (ExecInsertVersion w4 tx _ idNew 0 loginId _ _ _) as [w5 [err|]].
  { rewrite <- !app_assoc. apply (Hfail (Rollback w5 tx) err idNew 5%nat); lia. }
  destruct (Commit w5 tx) as [w6 [err|]].
  { rewrite <- !app_assoc. apply (Hfail w6 err idNew 6%nat); lia. }
  clear Hfail.
  replace (alter (renew idNew) (length done) (done ++ f :: todo))
    with (done ++ renew idNew f :: todo).
  2: { by rewrite <- (Nat.add_0_r (length done)), alter_app_r. }
  replace (S (length done)) with (length (done ++ [renew idNew f])).
  2: { rewrite length_app. simpl. lia. }
  rewrite <- !app_assoc. simpl.
  specialize (IH w6 (done ++ [renew idNew f]) (tr ++ copyOne idNew f)).
  cbn zeta in IH. unfold FileCopy.copyOne in IH at 1 2 3 5.
  rewrite <- (app_assoc done [renew idNew f] todo) in IH.
  change ([renew idNew f] ++ todo) with (renew idNew f :: todo) in IH.
  destruct IH as (ids & fs & rest & tail & -> & Hlen & Hfiles & Hdid & Herr).
  rewrite <- app_assoc in Hdid. simpl in Hdid.
  exists (idNew :: ids), (f :: fs), rest, tail. repeat split.
  - simpl. by rewrite Hlen.
  - rewrite Hfiles. rewrite <- app_assoc. done.
  - rewrite Hdid. simpl. done.
  - exact Herr.
Qed.

(** The IDs created in the parts of a call. *)
Lemma created_app (tr1 tr2 : list copyEffect) :
  created (tr1 ++ tr2) = created tr1 ++ created tr2.
Proof. apply omap_app. Qed.

Lemma created_copyOne (ids : list uuid) (fs : list DataGetValueFile) :
  length ids = length fs →
  created (concat (zip_with copyOne ids fs)) = ids.
Proof.
  revert fs. induction ids as [|idNew ids IH]; intros [|f fs] Hlen; try done.
  simpl in *. f_equal. apply IH. lia.
Qed.

Lemma created_copyFails (idNew : uuid) (f : DataGetValueFile) (n : nat) :
  (1 ≤ n ≤ 6)%nat →
  created (copyFails idNew f n) = if bool_decide (n = 1%nat) then [] else [idNew].
Proof.
  intros Hn. do 7 (destruct n as [|n]; [by (done || lia)|]). lia.
Qed.

Variable w : world.
Variable srcFileIds : list uuid.
Variable srcRecordId : Z.

Local Abbreviation out :=
  (CopyFiles w loginId srcAttributeId srcFileIds srcRecordId dstAttributeId).
Local Abbreviation checksPass :=
  (checksPass w loginId srcAttributeId dstAttributeId srcFileIds srcRecordId).
Local Abbreviation copyChecks :=
  (copyChecks srcAttributeId dstAttributeId srcFileIds srcRecordId).

(** The checks create no ID. *)
Lemma created_copyChecks (fs : list DataGetValueFile) : created (copyChecks fs) = [].
Proof.
  unfold FileCopy.copyChecks. rewrite created_app. simpl.
  induction fs as [|f fs IH]; [done|]. csimpl. exact IH.
Qed.

(** The files that pass the checks are the ones of the query. *)
Lemma checksPass_inj (fs fs' : list DataGetValueFile) :
  checksPass fs → checksPass fs' → fs = fs'.
Proof.
  intros (_ & _ & Hq & _) (_ & _ & Hq' & _). rewrite Hq in Hq'.
  injection Hq' as Hq'. revert Hq'. apply (inj (fmap inr)).
Qed.

(** Either all checks pass and the copying loop runs after them, or
    one fails and the call returns its error having only read. *)
Lemma CopyFiles_cases :
  (∃ fs, checksPass fs
         ∧ out = copyLoop w (length (@nil DataGetValueFile)) fs ([] ++ fs)
                   (copyChecks fs))
  ∨ ((∀ fs, ¬ checksPass fs)
     ∧ is_Some (err_out out) ∧ world_out out = w
     ∧ Forall (λ e, isWrite e = false) (did out)).
Proof.
  unfold FileCopy.checksPass, CopyFiles, FileCopy.copyChecks.
  destruct (MayAccessFile w loginId srcAttributeId) as [err|] eqn:Hsrc.
  { right. simpl. repeat split; [|by eexists|by repeat constructor].
    by intros fs (? & _). }
  destruct (MayAccessFile w loginId dstAttributeId) as [err|] eqn:Hdst.
  { right. simpl. repeat split; [|by eexists|by repeat constructor].
    by intros fs (_ & ? & _). }
  destruct (Query w _ _ srcRecordId srcFileIds) as [err | rows] eqn:Hq.
  { right. simpl. repeat split; [|by eexists|by repeat constructor].
    by intros fs (_ & _ & ? & _). }
  pose proof (scanRows_spec rows []) as Hscan.
  destruct (scanRows rows []) as [files [err|]].
  { right. simpl. repeat split; [|by eexists|by repeat constructor].
    destruct Hscan as (fs & rest & -> & _). intros fs' (_ & _ & Hq' & _).
    injection Hq' as Hq'. assert (Hin : inl err ∈ inr <$> fs').
    { rewrite <- Hq'. apply elem_of_app. right. apply list_elem_of_here. }
    apply list_elem_of_fmap in Hin as (? & ? & _). done. }
  destruct Hscan as (fs & -> & ->). simpl.
  pose proof (checkExist_spec w fs) as [Hread Hcheck].
  destruct (checkExist w srcAttributeId fs) as [[err|] checked]; simpl in *.
  - right. repeat split; [|by eexists|by repeat constructor].
    destruct Hcheck as (f & Hf & Hne). intros fs' (_ & _ & Hq' & Hall).
    injection Hq' as Hq'. apply (inj (fmap inr)) in Hq' as ->.
    rewrite Forall_forall in Hall. by apply Hne, Hall.
  - left. destruct Hcheck as [-> Hall]. exists fs. by repeat split.
Qed.

(** Nothing is written before every check has passed: when the call
    creates an ID, copies a file or touches the database at all, then the
    login may access both attributes, the query has succeeded, all its
    rows were scanned, and the version of every file to copy is there;
    and all of these checks come before anything else the call does. *)
Theorem writes_only_after_all_checks (e : copyEffect) :
  e ∈ did out → isWrite e = true →
  ∃ fs more, checksPass fs ∧ did out = copyChecks fs ++ more.
Proof.
  intros Hin Hwrite. destruct CopyFiles_cases as [(fs & Hpass & Hout) | Hfail].
  - exists fs. pose proof (copyLoop_spec fs w [] (copyChecks fs)) as Hloop.
    cbn zeta in Hloop. rewrite <- Hout in Hloop.
    destruct Hloop as (ids & fs1 & rest & tail & _ & _ & _ & Hdid & _).
    eexists. split; [done | exact Hdid].
  - destruct Hfail as (_ & _ & _ & Hall). rewrite Forall_forall in Hall.
    specialize (Hall e Hin). congruence.
Qed.

(** A call that returns no error has copied every file of the query
    under the IDs that [uuid.NewV4] returned: all checks passed; there
    was one call of [uuid.NewV4] for each file and each returned an ID;
    each file comes back under the ID of its call, with version 0 and
    its name, hash, size and date, in the order of the query; and after
    the checks the call did nothing but, for each file in turn, create
    that ID, copy the version to version 0 of the file with that ID
    without overwriting, and insert the file and its version under that
    ID in one committed transaction. *)
Theorem success_copies_every_file :
  err_out out = None →
  ∃ fs,
    checksPass fs
    ∧ length (created (did out)) = length fs
    ∧ files_out out = zip_with renew (created (did out)) fs
    ∧ did out = copyChecks fs ++ concat (zip_with copyOne (created (did out)) fs).
Proof.
  intros Hok. destruct CopyFiles_cases as [(fs & Hpass & Hout) | Hfail].
  - pose proof (copyLoop_spec fs w [] (copyChecks fs)) as Hloop.
    cbn zeta in Hloop. rewrite <- Hout in Hloop.
    destruct Hloop as (ids & fs1 & rest & tail & -> & Hlen & Hfiles & Hdid & Herr).
    rewrite Hok in Herr. destruct Herr as [-> ->].
    rewrite !app_nil_r in *.
    assert (created (did out) = ids) as Hids.
    { rewrite Hdid, created_app, created_copyChecks. by apply created_copyOne. }
    exists fs1. rewrite Hids. done.
  - destruct Hfail as (_ & [err Herr] & _). congruence.
Qed.

(** A call that fails after the checks have passed fails at one call
    for one file, the [k]th.  [uuid.NewV4] returned an ID for each of
    the files before it, and for that file too unless it is the failing
    call, and was not called again.  The files before it come back under
    the IDs of their calls with version 0; that file and the ones after
    it come back as the query gave them, so the ID created for the
    failing file is not returned.  The call has copied and registered
    the files before it under their IDs, made the calls for that one up
    to the failing one, rolled back if an insertion failed, and touched
    none after it.  What was copied and committed before stays. *)
Theorem failure_keeps_earlier_copies (fs : list DataGetValueFile) :
  checksPass fs → is_Some (err_out out) →
  ∃ k f idNew n,
    let ids := take k (created (did out)) in
    fs !! k = Some f ∧ length ids = k ∧ (1 ≤ n ≤ 6)%nat
    ∧ created (did out) = ids ++ (if bool_decide (n = 1%nat) then [] else [idNew])
    ∧ files_out out = zip_with renew ids (take k fs) ++ drop k fs
    ∧ did out = copyChecks fs ++ concat (zip_with copyOne ids (take k fs))
                ++ copyFails idNew f n.
Proof.
  intros Hpass [err Herr].
  destruct CopyFiles_cases as [(fs' & Hpass' & Hout) | Hfail].
  2: { destruct Hfail as (Hno & _). by destruct (Hno fs). }
  rewrite <- (checksPass_inj _ _ Hpass Hpass') in Hout. clear fs' Hpass'.
  pose proof (copyLoop_spec fs w [] (copyChecks fs)) as Hloop.
  cbn zeta in Hloop. rewrite <- Hout in Hloop.
  destruct Hloop as (ids & fs1 & rest & tail & -> & Hlen & Hfiles & Hdid & Hrest).
  rewrite Herr in Hrest. destruct Hrest as (f & rest' & idNew & n & -> & Hn & ->).
  assert (created (did out)
          = ids ++ (if bool_decide (n = 1%nat) then [] else [idNew])) as Hids.
  { rewrite Hdid, !created_app, created_copyChecks.
    rewrite created_copyOne by done. by rewrite created_copyFails. }
  exists (length fs1), f, idNew, n. cbn zeta.
  assert (take (length fs1) (created (did out)) = ids) as ->.
  { rewrite Hids, <- Hlen. apply take_app_length. }
  rewrite take_app_length, drop_app_length. repeat split; try done; try lia.
  by apply list_lookup_middle.
Qed.

End FileCopyFacts.

(** Login 1 copies the files 1 and 2 of attribute 7 to attribute 8: the
    first ID that is created shows that all checks had passed. *)
Lemma writes_only_after_all_checks_witness :
  ∃ fs more,
    @FileCopy.checksPass demo demo_world demo_two_ids 1 7%N 8%N [1; 2]%N 5 fs
    ∧ FileCopy.did
        (@FileCopy.CopyFiles demo demo_world demo_two_ids 1 7%N [1; 2]%N 5 8%N)
      = @FileCopy.copyChecks demo demo_world 7%N 8%N [1; 2]%N 5 fs ++ more.
Proof.
  apply (@writes_only_after_all_checks demo demo_world 1 7%N 8%N demo_two_ids
           [1; 2]%N 5 (FileCopy.CfNewV4 (Some 10%N))).
  - vm_compute. repeat constructor.
  - reflexivity.
Defined.

(** The same call returns no error, and the two files under the IDs 10
    and 11 that were created. *)
Lemma success_copies_every_file_witness :
  FileCopy.err_out
    (@FileCopy.CopyFiles demo demo_world demo_two_ids 1 7%N [1; 2]%N 5 8%N) = None
  ∧ FileCopy.created
      (FileCopy.did
         (@FileCopy.CopyFiles demo demo_world demo_two_ids 1 7%N [1; 2]%N 5 8%N))
    = [10; 11]%N
  ∧ ∃ fs,
      @FileCopy.checksPass demo demo_world demo_two_ids 1 7%N 8%N [1; 2]%N 5 fs
      ∧ length (FileCopy.created (FileCopy.did
          (@FileCopy.CopyFiles demo demo_world demo_two_ids 1 7%N [1; 2]%N 5 8%N)))
        = length fs
      ∧ FileCopy.files_out
          (@FileCopy.CopyFiles demo demo_world demo_two_ids 1 7%N [1; 2]%N 5 8%N)
        = zip_with FileCopy.renew
            (FileCopy.created (FileCopy.did
               (@FileCopy.CopyFiles demo demo_world demo_two_ids 1 7%N [1; 2]%N 5 8%N)))
            fs
      ∧ FileCopy.did
          (@FileCopy.CopyFiles demo demo_world demo_two_ids 1 7%N [1; 2]%N 5 8%N)
        = @FileCopy.copyChecks demo demo_world 7%N 8%N [1; 2]%N 5 fs
          ++ concat (zip_with (@FileCopy.copyOne demo demo_world 1 7%N 8%N)
                       (FileCopy.created (FileCopy.did
                          (@FileCopy.CopyFiles demo demo_world demo_two_ids 1 7%N
                             [1; 2]%N 5 8%N)))
                       fs).
Proof.
  split; [reflexivity|]. split; [reflexivity|].
  apply (@success_copies_every_file demo demo_world 1 7%N 8%N demo_two_ids
           [1; 2]%N 5).
  reflexivity.
Defined.

(** With one ID to give the call fails for the second file, at
    [uuid.NewV4]: the first comes back under the ID 10, the second as it
    was. *)
Lemma failure_keeps_earlier_copies_witness :
  FileCopy.created
    (FileCopy.did
       (@FileCopy.CopyFiles demo demo_world demo_one_id 1 7%N [1; 2]%N 5 8%N))
  = [10%N]
  ∧ ∃ k f idNew n,
    let ids :=
      take k (FileCopy.created (FileCopy.did
        (@FileCopy.CopyFiles demo demo_world demo_one_id 1 7%N [1; 2]%N 5 8%N))) in
    [demo_file 1%N; demo_file 2%N] !! k = Some f ∧ length ids = k ∧ (1 ≤ n ≤ 6)%nat
    ∧ FileCopy.created (FileCopy.did
        (@FileCopy.CopyFiles demo demo_world demo_one_id 1 7%N [1; 2]%N 5 8%N))
      = ids ++ (if bool_decide (n = 1%nat) then [] else [idNew])
    ∧ FileCopy.files_out
        (@FileCopy.CopyFiles demo demo_world demo_one_id 1 7%N [1; 2]%N 5 8%N)
      = zip_with FileCopy.renew ids (take k [demo_file 1%N; demo_file 2%N])
        ++ drop k [demo_file 1%N; demo_file 2%N]
    ∧ FileCopy.did
        (@FileCopy.CopyFiles demo demo_world demo_one_id 1 7%N [1; 2]%N 5 8%N)
      = @FileCopy.copyChecks demo demo_world 7%N 8%N [1; 2]%N 5
          [demo_file 1%N; demo_file 2%N]
        ++ concat (zip_with (@FileCopy.copyOne demo demo_world 1 7%N 8%N) ids
                     (take k [demo_file 1%N; demo_file 2%N]))
        ++ @FileCopy.copyFails demo demo_world 1 7%N 8%N idNew f n.
Proof.
  split; [reflexivity|].
  apply (@failure_keeps_earlier_copies demo demo_world 1 7%N 8%N demo_one_id
           [1; 2]%N 5 [demo_file 1%N; demo_file 2%N]).
  - repeat split; repeat constructor.
  - vm_compute. by eexists.
Defined.

(** What the two calls return and do, computed. *)
Example copy_files_example :
  FileCopy.files_out
    (@FileCopy.CopyFiles demo demo_world demo_two_ids 1 7%N [1; 2]%N 5 8%N)
  = [FileCopy.renew 10%N (demo_file 1%N); FileCopy.renew 11%N (demo_file 2%N)]
  ∧ FileCopy.files_out
      (@FileCopy.CopyFiles demo demo_world demo_one_id 1 7%N [1; 2]%N 5 8%N)
    = [FileCopy.renew 10%N (demo_file 1%N); demo_file 2%N]
  ∧ filter (λ e, FileCopy.isWrite e = true)
      (FileCopy.did
         (@FileCopy.CopyFiles demo demo_world demo_one_id 1 7%N [1; 2]%N 5 8%N))
    = @FileCopy.copyOne demo demo_world 1 7%N 8%N 10%N (demo_file 1%N)
      ++ [FileCopy.CfNewV4 None]
  ∧ FileCopy.did
      (@FileCopy.CopyFiles demo demo_world demo_two_ids 2 7%N [1; 2]%N 5 8%N)
    = [FileCopy.CfMayAccessFile 7%N].
Proof. repeat split; vm_compute; reflexivity. Qed.
